(** * ReactFiberScheduler: a shallow embedding and its properties

    The embedding follows [src/renderers/shared/fiber/ReactFiberScheduler.js].
    Fibers and roots are JavaScript objects reached by reference: they live in
    two stores indexed by reference, and a field assignment updates the store
    at that reference, so aliasing between two paths to one object is kept.
    The module's closure variables ([nextUnitOfWork], [nextScheduledRoot], ...)
    are the other fields of the scheduler state.  Code that can throw or fail
    to terminate runs in a state monad whose results are a value, a thrown
    JavaScript value, or exhaustion of the loop budget. *)

From Stdlib Require Import ZArith List Bool Lia String QArith PArith.
Import ListNotations.
Local Open Scope Z_scope.

(** ** Values thrown by JavaScript code *)

(** The flow type of a trapped error is [any]: user code may throw any
    value, and the scheduler tests some of them for truthiness. *)
Inductive JsValue : Type :=
| JsUndefined
| JsNull
| JsBool (b : bool)
| JsNumber (n : Z)
| JsString (s : string)
| JsObject (ref : positive)
| JsError (message : string).

Definition truthy (v : JsValue) : bool :=
  match v with
  | JsUndefined | JsNull => false
  | JsBool b => b
  | JsNumber n => negb (n =? 0)
  | JsString EmptyString => false
  | JsString _ => true
  | JsObject _ | JsError _ => true
  end.

(** [a || b] of JavaScript. *)
Definition js_or (a b : JsValue) : JsValue := if truthy a then a else b.

(** ** Fibers, roots and trapped errors *)

Definition FiberId := positive.
Definition RootId := positive.
Bind Scope positive_scope with FiberId RootId.

Record Fiber : Type := mkFiber {
  tag : Z;
  stateNode : option RootId;
  return_ : option FiberId;
  child : option FiberId;
  sibling : option FiberId;
  alternate : option FiberId;
  pendingProps : option positive;
  updateQueue : option positive;
  progressedChild : option FiberId;
  pendingWorkPriority : Z;
  effectTag : Z;
  firstEffect : option FiberId;
  lastEffect : option FiberId;
  nextEffect : option FiberId
}.

Definition set_pendingProps (v : option positive) (f : Fiber) : Fiber :=
  mkFiber (tag f) (stateNode f) (return_ f) (child f) (sibling f) (alternate f)
    v (updateQueue f) (progressedChild f) (pendingWorkPriority f)
    (effectTag f) (firstEffect f) (lastEffect f) (nextEffect f).

Definition set_updateQueue (v : option positive) (f : Fiber) : Fiber :=
  mkFiber (tag f) (stateNode f) (return_ f) (child f) (sibling f) (alternate f)
    (pendingProps f) v (progressedChild f) (pendingWorkPriority f)
    (effectTag f) (firstEffect f) (lastEffect f) (nextEffect f).

Definition set_pendingWorkPriority (v : Z) (f : Fiber) : Fiber :=
  mkFiber (tag f) (stateNode f) (return_ f) (child f) (sibling f) (alternate f)
    (pendingProps f) (updateQueue f) (progressedChild f) v
    (effectTag f) (firstEffect f) (lastEffect f) (nextEffect f).

Definition set_effectTag (v : Z) (f : Fiber) : Fiber :=
  mkFiber (tag f) (stateNode f) (return_ f) (child f) (sibling f) (alternate f)
    (pendingProps f) (updateQueue f) (progressedChild f) (pendingWorkPriority f)
    v (firstEffect f) (lastEffect f) (nextEffect f).

Definition set_firstEffect (v : option FiberId) (f : Fiber) : Fiber :=
  mkFiber (tag f) (stateNode f) (return_ f) (child f) (sibling f) (alternate f)
    (pendingProps f) (updateQueue f) (progressedChild f) (pendingWorkPriority f)
    (effectTag f) v (lastEffect f) (nextEffect f).

Definition set_lastEffect (v : option FiberId) (f : Fiber) : Fiber :=
  mkFiber (tag f) (stateNode f) (return_ f) (child f) (sibling f) (alternate f)
    (pendingProps f) (updateQueue f) (progressedChild f) (pendingWorkPriority f)
    (effectTag f) (firstEffect f) v (nextEffect f).

Definition set_nextEffect (v : option FiberId) (f : Fiber) : Fiber :=
  mkFiber (tag f) (stateNode f) (return_ f) (child f) (sibling f) (alternate f)
    (pendingProps f) (updateQueue f) (progressedChild f) (pendingWorkPriority f)
    (effectTag f) (firstEffect f) (lastEffect f) v.

Module FiberRoot.
Record t : Type := mk {
  current : FiberId;
  isScheduled : bool;
  nextScheduledRoot : option RootId
}.
Definition set_current (v : FiberId) (r : t) : t :=
  mk v (isScheduled r) (nextScheduledRoot r).
Definition set_isScheduled (v : bool) (r : t) : t :=
  mk (current r) v (nextScheduledRoot r).
Definition set_nextScheduledRoot (v : option RootId) (r : t) : t :=
  mk (current r) (isScheduled r) v.
End FiberRoot.

Record TrappedError : Type := mkTrappedError {
  boundary : option FiberId;
  error : JsValue
}.

(** ** Stores *)

Definition upd {A : Type} (m : positive -> A) (k : positive) (v : A)
  : positive -> A :=
  fun k' => if Pos.eqb k' k then v else m k'.

Definition same_ref (a b : option positive) : bool :=
  match a, b with
  | Some x, Some y => Pos.eqb x y
  | None, None => true
  | _, _ => false
  end.

(** ** The scheduler state: the module's closure variables, the two object
    stores, [ReactCurrentOwner.current] and the host environment. *)

Record State (Host : Type) : Type := mkState {
  fibers : FiberId -> Fiber;
  roots : RootId -> FiberRoot.t;
  priorityContext : Z;
  shouldBatchUpdates : bool;
  nextUnitOfWork : option FiberId;
  nextPriorityLevel : Z;
  nextScheduledRoot : option RootId;
  lastScheduledRoot : option RootId;
  isAnimationCallbackScheduled : bool;
  isDeferredCallbackScheduled : bool;
  currentOwner : option positive;
  host : Host
}.

Arguments mkState {Host}.
Arguments fibers {Host}.
Arguments roots {Host}.
Arguments priorityContext {Host}.
Arguments shouldBatchUpdates {Host}.
Arguments nextUnitOfWork {Host}.
Arguments nextPriorityLevel {Host}.
Arguments nextScheduledRoot {Host}.
Arguments lastScheduledRoot {Host}.
Arguments isAnimationCallbackScheduled {Host}.
Arguments isDeferredCallbackScheduled {Host}.
Arguments currentOwner {Host}.
Arguments host {Host}.

Section StateUpdates.
Context {Host : Type}.
Implicit Type s : State Host.

Definition set_fibers (v : FiberId -> Fiber) s : State Host :=
  mkState v (roots s) (priorityContext s) (shouldBatchUpdates s)
    (nextUnitOfWork s) (nextPriorityLevel s) (nextScheduledRoot s)
    (lastScheduledRoot s) (isAnimationCallbackScheduled s)
    (isDeferredCallbackScheduled s) (currentOwner s) (host s).

Definition set_roots (v : RootId -> FiberRoot.t) s : State Host :=
  mkState (fibers s) v (priorityContext s) (shouldBatchUpdates s)
    (nextUnitOfWork s) (nextPriorityLevel s) (nextScheduledRoot s)
    (lastScheduledRoot s) (isAnimationCallbackScheduled s)
    (isDeferredCallbackScheduled s) (currentOwner s) (host s).

Definition set_priorityContext (v : Z) s : State Host :=
  mkState (fibers s) (roots s) v (shouldBatchUpdates s)
    (nextUnitOfWork s) (nextPriorityLevel s) (nextScheduledRoot s)
    (lastScheduledRoot s) (isAnimationCallbackScheduled s)
    (isDeferredCallbackScheduled s) (currentOwner s) (host s).

Definition set_shouldBatchUpdates (v : bool) s : State Host :=
  mkState (fibers s) (roots s) (priorityContext s) v
    (nextUnitOfWork s) (nextPriorityLevel s) (nextScheduledRoot s)
    (lastScheduledRoot s) (isAnimationCallbackScheduled s)
    (isDeferredCallbackScheduled s) (currentOwner s) (host s).

Definition set_nextUnitOfWork (v : option FiberId) s : State Host :=
  mkState (fibers s) (roots s) (priorityContext s) (shouldBatchUpdates s)
    v (nextPriorityLevel s) (nextScheduledRoot s)
    (lastScheduledRoot s) (isAnimationCallbackScheduled s)
    (isDeferredCallbackScheduled s) (currentOwner s) (host s).

Definition set_nextPriorityLevel (v : Z) s : State Host :=
  mkState (fibers s) (roots s) (priorityContext s) (shouldBatchUpdates s)
    (nextUnitOfWork s) v (nextScheduledRoot s)
    (lastScheduledRoot s) (isAnimationCallbackScheduled s)
    (isDeferredCallbackScheduled s) (currentOwner s) (host s).

Definition set_nextScheduledRoot (v : option RootId) s : State Host :=
  mkState (fibers s) (roots s) (priorityContext s) (shouldBatchUpdates s)
    (nextUnitOfWork s) (nextPriorityLevel s) v
    (lastScheduledRoot s) (isAnimationCallbackScheduled s)
    (isDeferredCallbackScheduled s) (currentOwner s) (host s).

Definition set_lastScheduledRoot (v : option RootId) s : State Host :=
  mkState (fibers s) (roots s) (priorityContext s) (shouldBatchUpdates s)
    (nextUnitOfWork s) (nextPriorityLevel s) (nextScheduledRoot s)
    v (isAnimationCallbackScheduled s)
    (isDeferredCallbackScheduled s) (currentOwner s) (host s).

Definition set_isAnimationCallbackScheduled (v : bool) s : State Host :=
  mkState (fibers s) (roots s) (priorityContext s) (shouldBatchUpdates s)
    (nextUnitOfWork s) (nextPriorityLevel s) (nextScheduledRoot s)
    (lastScheduledRoot s) v
    (isDeferredCallbackScheduled s) (currentOwner s) (host s).

Definition set_isDeferredCallbackScheduled (v : bool) s : State Host :=
  mkState (fibers s) (roots s) (priorityContext s) (shouldBatchUpdates s)
    (nextUnitOfWork s) (nextPriorityLevel s) (nextScheduledRoot s)
    (lastScheduledRoot s) (isAnimationCallbackScheduled s)
    v (currentOwner s) (host s).

Definition set_currentOwner (v : option positive) s : State Host :=
  mkState (fibers s) (roots s) (priorityContext s) (shouldBatchUpdates s)
    (nextUnitOfWork s) (nextPriorityLevel s) (nextScheduledRoot s)
    (lastScheduledRoot s) (isAnimationCallbackScheduled s)
    (isDeferredCallbackScheduled s) v (host s).

Definition set_host (v : Host) s : State Host :=
  mkState (fibers s) (roots s) (priorityContext s) (shouldBatchUpdates s)
    (nextUnitOfWork s) (nextPriorityLevel s) (nextScheduledRoot s)
    (lastScheduledRoot s) (isAnimationCallbackScheduled s)
    (isDeferredCallbackScheduled s) (currentOwner s) v.

(** [f.field = v] on the fiber referenced by [id], and the same for roots. *)
Definition updFiber (id : FiberId) (g : Fiber -> Fiber) s : State Host :=
  set_fibers (upd (fibers s) id (g (fibers s id))) s.

Definition updRoot (id : RootId) (g : FiberRoot.t -> FiberRoot.t) s
  : State Host :=
  set_roots (upd (roots s) id (g (roots s id))) s.

(** [root.current.pendingWorkPriority], read through the two stores. *)
Definition rootPriority s (r : RootId) : Z :=
  pendingWorkPriority (fibers s (FiberRoot.current (roots s r))).

End StateUpdates.

(** ** The monad of scheduler code *)

Inductive Outcome (A : Type) : Type :=
| Ok (a : A)
| Threw (e : JsValue)
| OutOfFuel.

Arguments Ok {A}.
Arguments Threw {A}.
Arguments OutOfFuel {A}.

Definition M (Host A : Type) : Type := State Host -> Outcome A * State Host.

Section Monad.
Context {Host : Type}.

Definition ret {A} (a : A) : M Host A := fun s => (Ok a, s).

Definition bind {A B} (m : M Host A) (k : A -> M Host B) : M Host B :=
  fun s =>
    match m s with
    | (Ok a, s') => k a s'
    | (Threw e, s') => (Threw e, s')
    | (OutOfFuel, s') => (OutOfFuel, s')
    end.

Definition throw {A} (e : JsValue) : M Host A := fun s => (Threw e, s).

Definition outOfFuel {A} : M Host A := fun s => (OutOfFuel, s).

Definition gets {A} (f : State Host -> A) : M Host A := fun s => (Ok (f s), s).

Definition modify (g : State Host -> State Host) : M Host unit :=
  fun s => (Ok tt, g s).

(** [try { body } catch (e) { handler e }] *)
Definition try_catch {A} (body : M Host A) (handler : JsValue -> M Host A)
  : M Host A :=
  fun s =>
    match body s with
    | (Threw e, s') => handler e s'
    | r => r
    end.

(** [try { body } finally { fin }]: [fin] runs on the normal and on the
    exceptional exit; when [fin] itself throws, that exception replaces the
    result of [body]. *)
Definition try_finally {A} (body : M Host A) (fin : M Host unit) : M Host A :=
  fun s =>
    match body s with
    | (OutOfFuel, s') => (OutOfFuel, s')
    | (r, s') =>
      match fin s' with
      | (Ok _, s'') => (r, s'')
      | (Threw e, s'') => (Threw e, s'')
      | (OutOfFuel, s'') => (OutOfFuel, s'')
      end
    end.

(** A property access through a reference that is [null]. *)
Definition deref {A} (what : string) (o : option A) : M Host A :=
  match o with
  | Some a => ret a
  | None => throw (JsError what)
  end.

End Monad.

Declare Scope sched_scope.
Delimit Scope sched_scope with sched.
Notation "x <- c1 ;; c2" := (bind c1 (fun x => c2))
  (at level 100, c1 at next level, right associativity) : sched_scope.
Notation "c1 ;; c2" := (bind c1 (fun _ => c2))
  (at level 100, right associativity) : sched_scope.
Local Open Scope sched_scope.

(** ** What the scheduler imports *)

(** [ReactPriorityLevel] and [ReactTypeOfWork] are required by the scheduler
    and are not part of it: their constants are parameters. *)
Class Constants : Type := {
  NoWork : Z;
  LowPriority : Z;
  AnimationPriority : Z;
  SynchronousPriority : Z;
  HostContainer : Z
}.

(** Modelled from the spec: [ReactTypeOfSideEffect] is required by the
    scheduler and is not part of it.  The effect tag is a bitset over
    Placement, Update, Deletion and Callback: each is one bit, and the
    composite names are the unions of their parts. *)
Definition NoEffect : Z := 0.
Definition Placement : Z := 1.
Definition Update : Z := 2.
Definition PlacementAndUpdate : Z := Z.lor Placement Update.
Definition Deletion : Z := 4.
Definition Callback : Z := 8.
Definition PlacementAndCallback : Z := Z.lor Placement Callback.
Definition UpdateAndCallback : Z := Z.lor Update Callback.
Definition PlacementAndUpdateAndCallback : Z :=
  Z.lor PlacementAndUpdate Callback.
Definition DeletionAndCallback : Z := Z.lor Deletion Callback.

(** The host's deadline object: [timeRemaining()] reads the host clock. *)
Definition Deadline (Host : Type) : Type := Host -> Q * Host.

(** The reconciler's collaborators and the host configuration.  Functions
    that run user code (render, life-cycles, error boundaries) may change any
    part of the state, throw, or not return; [cloneFiber] and [trapError]
    work on the fiber store alone, and the two host callbacks register a
    callback with the host. *)
Class Env (Host : Type) : Type := {
  beginWork : option FiberId -> FiberId -> Z -> M Host (option FiberId);
  completeWork : option FiberId -> FiberId -> M Host (option FiberId);
  commitInsertion : FiberId -> M Host unit;
  commitDeletion : FiberId -> M Host (option (list TrappedError));
  commitWork : option FiberId -> FiberId -> M Host unit;
  commitLifeCycles : option FiberId -> FiberId -> M Host (option TrappedError);
  acknowledgeErrorInBoundary : FiberId -> JsValue -> M Host unit;
  cloneFiber : FiberId -> Z -> (FiberId -> Fiber) -> FiberId * (FiberId -> Fiber);
  trapError : FiberId -> JsValue -> (FiberId -> Fiber) -> TrappedError;
  scheduleAnimationCallback : Host -> Host;
  scheduleDeferredCallback : Host -> Host;
  useSyncScheduling : bool
}.

Definition timeHeuristicForUnitOfWork : Q := 1%Q.

(** ** The scheduler *)

Section Scheduler.
Context {Host : Type} {K : Constants} {E : Env Host}.

Local Notation "'Sched'" := (M Host).

(** The closure variables as [module.exports] initialises them. *)
Definition initialState (fs : FiberId -> Fiber) (rs : RootId -> FiberRoot.t)
  (h : Host) : State Host :=
  mkState fs rs
    (if useSyncScheduling then SynchronousPriority else LowPriority)
    false None NoWork None None false false None h.

Definition cloneFiberM (f : FiberId) (priorityLevel : Z) : Sched FiberId :=
  fun s =>
    let (wip, fs) := cloneFiber f priorityLevel (fibers s) in
    (Ok wip, set_fibers fs s).

Definition trapErrorM (f : FiberId) (e : JsValue) : Sched TrappedError :=
  gets (fun s => trapError f e (fibers s)).

(** *** findNextUnitOfWork *)

(** The first loop, "clear out roots with no more work on them".  The
    result is [true] when the function returned [null] from inside the loop. *)
Fixpoint clearEmptyRoots (fuel : nat) : Sched bool :=
  first <- gets nextScheduledRoot ;;
  match first with
  | None => ret false
  | Some r =>
    p <- gets (fun s => rootPriority s r) ;;
    if p =? NoWork then
      match fuel with
      | O => outOfFuel
      | S fuel' =>
        modify (updRoot r (FiberRoot.set_isScheduled false)) ;;
        next <- gets (fun s => FiberRoot.nextScheduledRoot (roots s r)) ;;
        modify (updRoot r (FiberRoot.set_nextScheduledRoot None)) ;;
        last <- gets lastScheduledRoot ;;
        if same_ref (Some r) last then
          modify (set_nextScheduledRoot None) ;;
          modify (set_lastScheduledRoot None) ;;
          modify (set_nextPriorityLevel NoWork) ;;
          ret true
        else
          modify (set_nextScheduledRoot next) ;;
          clearEmptyRoots fuel'
      end
    else ret false
  end.

(** The second loop: scan the chain for the root to work on.  It only
    reads the state; [None] is an exhausted budget. *)
Fixpoint findHighestPriorityRoot (fuel : nat) (s : State Host)
  (root highestPriorityRoot : option RootId) (highestPriorityLevel : Z)
  : option (option RootId * Z) :=
  match root with
  | None => Some (highestPriorityRoot, highestPriorityLevel)
  | Some r =>
    match fuel with
    | O => None
    | S fuel' =>
      let p := rootPriority s r in
      let next := FiberRoot.nextScheduledRoot (roots s r) in
      if negb (p =? NoWork) &&
         ((highestPriorityLevel =? NoWork) || (highestPriorityLevel >? p))
      then findHighestPriorityRoot fuel' s next (Some r) p
      else findHighestPriorityRoot fuel' s next
             highestPriorityRoot highestPriorityLevel
    end
  end.

Definition findNextUnitOfWork (fuel : nat) : Sched (option FiberId) :=
  returned <- clearEmptyRoots fuel ;;
  if returned : bool then ret None
  else
    first <- gets nextScheduledRoot ;;
    found <- gets (fun s => findHighestPriorityRoot fuel s first None NoWork) ;;
    match found with
    | None => outOfFuel
    | Some (Some highestPriorityRoot, highestPriorityLevel) =>
      modify (set_nextPriorityLevel highestPriorityLevel) ;;
      cur <- gets (fun s => FiberRoot.current (roots s highestPriorityRoot)) ;;
      wip <- cloneFiberM cur highestPriorityLevel ;;
      ret (Some wip)
    | Some (None, _) =>
      modify (set_nextPriorityLevel NoWork) ;;
      ret None
    end.

(** *** commitAllWork *)

(** [allTrappedErrors.push.apply(allTrappedErrors, trappedErrors)], or the
    first assignment of [allTrappedErrors]. *)
Definition pushAll (all : option (list TrappedError)) (more : list TrappedError)
  : option (list TrappedError) :=
  match all with
  | None => Some more
  | Some l => Some (l ++ more)
  end.

(** [allTrappedErrors = allTrappedErrors || []; allTrappedErrors.push(e)] *)
Definition pushOne (all : option (list TrappedError)) (e : TrappedError)
  : option (list TrappedError) :=
  match all with
  | None => Some [e]
  | Some l => Some (l ++ [e])
  end.

(** The [switch] of the first pass, for one fiber of the effect list. *)
Definition commitMutation (ignoreUnmountingErrors : bool)
  (effectfulFiber : FiberId) (allTrappedErrors : option (list TrappedError))
  : Sched (option (list TrappedError)) :=
  t <- gets (fun s => effectTag (fibers s effectfulFiber)) ;;
  if (t =? Placement) || (t =? PlacementAndCallback) then
    commitInsertion effectfulFiber ;;
    modify (updFiber effectfulFiber (set_effectTag NoEffect)) ;;
    ret allTrappedErrors
  else if (t =? PlacementAndUpdate) || (t =? PlacementAndUpdateAndCallback) then
    commitInsertion effectfulFiber ;;
    modify (updFiber effectfulFiber (set_effectTag Update)) ;;
    cur <- gets (fun s => alternate (fibers s effectfulFiber)) ;;
    commitWork cur effectfulFiber ;;
    ret allTrappedErrors
  else if (t =? Update) || (t =? UpdateAndCallback) then
    cur <- gets (fun s => alternate (fibers s effectfulFiber)) ;;
    commitWork cur effectfulFiber ;;
    ret allTrappedErrors
  else if (t =? Deletion) || (t =? DeletionAndCallback) then
    trappedErrors <- commitDeletion effectfulFiber ;;
    match trappedErrors with
    | Some l =>
      if negb ignoreUnmountingErrors then ret (pushAll allTrappedErrors l)
      else ret allTrappedErrors
    | None => ret allTrappedErrors
    end
  else ret allTrappedErrors.

(** First pass: host insertions, updates, deletions and ref unmounts. *)
Fixpoint commitMutations (fuel : nat) (ignoreUnmountingErrors : bool)
  (effectfulFiber : option FiberId)
  (allTrappedErrors : option (list TrappedError))
  : Sched (option (list TrappedError)) :=
  match effectfulFiber with
  | None => ret allTrappedErrors
  | Some f =>
    match fuel with
    | O => outOfFuel
    | S fuel' =>
      all <- commitMutation ignoreUnmountingErrors f allTrappedErrors ;;
      next <- gets (fun s => nextEffect (fibers s f)) ;;
      commitMutations fuel' ignoreUnmountingErrors next all
    end
  end.

(** Second pass: life-cycles and ref callbacks. *)
Fixpoint commitLifeCyclesPass (fuel : nat) (effectfulFiber : option FiberId)
  (allTrappedErrors : option (list TrappedError))
  : Sched (option (list TrappedError)) :=
  match effectfulFiber with
  | None => ret allTrappedErrors
  | Some f =>
    match fuel with
    | O => outOfFuel
    | S fuel' =>
      t <- gets (fun s => effectTag (fibers s f)) ;;
      all <- (if negb (Z.land t (Z.lor Update Callback) =? 0) then
                cur <- gets (fun s => alternate (fibers s f)) ;;
                trappedError <- commitLifeCycles cur f ;;
                match trappedError with
                | Some e => ret (pushOne allTrappedErrors e)
                | None => ret allTrappedErrors
                end
              else ret allTrappedErrors) ;;
      next <- gets (fun s => nextEffect (fibers s f)) ;;
      modify (updFiber f (set_nextEffect None)) ;;
      commitLifeCyclesPass fuel' next all
    end
  end.

(** [commitAllWork]; [handleErrors] is the function it ends with, passed in
    because the two are mutually recursive. *)
Definition commitAllWork (handleErrors : list TrappedError -> Sched unit)
  (fuel : nat) (finishedWork : FiberId) (ignoreUnmountingErrors : bool)
  : Sched unit :=
  first <- gets (fun s => firstEffect (fibers s finishedWork)) ;;
  all <- commitMutations fuel ignoreUnmountingErrors first None ;;
  first <- gets (fun s => firstEffect (fibers s finishedWork)) ;;
  all <- commitLifeCyclesPass fuel first all ;;
  t <- gets (fun s => effectTag (fibers s finishedWork)) ;;
  all <- (if negb (t =? NoEffect) then
            cur <- gets (fun s => alternate (fibers s finishedWork)) ;;
            commitWork cur finishedWork ;;
            trappedError <- commitLifeCycles cur finishedWork ;;
            match trappedError with
            | Some e => ret (pushOne all e)
            | None => ret all
            end
          else ret all) ;;
  match all with
  | Some l => handleErrors l
  | None => ret tt
  end.

(** *** resetWorkPriority *)

Fixpoint highestChildPriority (fuel : nat) (fs : FiberId -> Fiber)
  (child : option FiberId) (newPriority : Z) : option Z :=
  match child with
  | None => Some newPriority
  | Some c =>
    match fuel with
    | O => None
    | S fuel' =>
      let p := pendingWorkPriority (fs c) in
      highestChildPriority fuel' fs (sibling (fs c))
        (if negb (p =? NoWork) &&
            ((newPriority =? NoWork) || (newPriority >? p))
         then p else newPriority)
    end
  end.

Definition resetWorkPriority (fuel : nat) (workInProgress : FiberId)
  : Sched unit :=
  found <- gets (fun s =>
    highestChildPriority fuel (fibers s)
      (progressedChild (fibers s workInProgress)) NoWork) ;;
  match found with
  | None => outOfFuel
  | Some newPriority =>
    modify (updFiber workInProgress (set_pendingWorkPriority newPriority))
  end.

(** *** completeUnitOfWork *)

(** The block of [completeUnitOfWork] guarded by [if (returnFiber)]: append
    the effects of the subtree, then the fiber itself, to the parent's list. *)
Definition appendEffects (workInProgress returnFiber : FiberId) : Sched unit :=
  rfFirst <- gets (fun s => firstEffect (fibers s returnFiber)) ;;
  (match rfFirst with
   | None =>
     wipFirst <- gets (fun s => firstEffect (fibers s workInProgress)) ;;
     modify (updFiber returnFiber (set_firstEffect wipFirst))
   | Some _ => ret tt
   end) ;;
  wipLast <- gets (fun s => lastEffect (fibers s workInProgress)) ;;
  (match wipLast with
   | Some _ =>
     rfLast <- gets (fun s => lastEffect (fibers s returnFiber)) ;;
     (match rfLast with
      | Some l =>
        wipFirst <- gets (fun s => firstEffect (fibers s workInProgress)) ;;
        modify (updFiber l (set_nextEffect wipFirst))
      | None => ret tt
      end) ;;
     wipLast' <- gets (fun s => lastEffect (fibers s workInProgress)) ;;
     modify (updFiber returnFiber (set_lastEffect wipLast'))
   | None => ret tt
   end) ;;
  t <- gets (fun s => effectTag (fibers s workInProgress)) ;;
  if negb (t =? NoEffect) then
    rfLast <- gets (fun s => lastEffect (fibers s returnFiber)) ;;
    (match rfLast with
     | Some l => modify (updFiber l (set_nextEffect (Some workInProgress)))
     | None => modify (updFiber returnFiber (set_firstEffect (Some workInProgress)))
     end) ;;
    modify (updFiber returnFiber (set_lastEffect (Some workInProgress)))
  else ret tt.

Definition sameTreeError : JsValue :=
  JsError ("Cannot commit the same tree as before. This is probably a bug " ++
           "related to the return field.").

(** The last branch of [completeUnitOfWork]: the fiber is the root. *)
Definition commitRoot (handleErrors : list TrappedError -> Sched unit)
  (fuel : nat) (workInProgress : FiberId) (ignoreUnmountingErrors : bool)
  : Sched (option FiberId) :=
  node <- gets (fun s => stateNode (fibers s workInProgress)) ;;
  root <- deref "Cannot read property 'current' of null" node ;;
  cur <- gets (fun s => FiberRoot.current (roots s root)) ;;
  if Pos.eqb cur workInProgress then throw sameTreeError
  else
    modify (updRoot root (FiberRoot.set_current workInProgress)) ;;
    commitAllWork handleErrors fuel workInProgress ignoreUnmountingErrors ;;
    findNextUnitOfWork fuel.

Fixpoint completeUnitOfWork (handleErrors : list TrappedError -> Sched unit)
  (fuel : nat) (workInProgress : FiberId) (ignoreUnmountingErrors : bool)
  : Sched (option FiberId) :=
  match fuel with
  | O => outOfFuel
  | S fuel' =>
    cur <- gets (fun s => alternate (fibers s workInProgress)) ;;
    next <- completeWork cur workInProgress ;;
    resetWorkPriority fuel' workInProgress ;;
    modify (updFiber workInProgress (set_pendingProps None)) ;;
    modify (updFiber workInProgress (set_updateQueue None)) ;;
    returnFiber <- gets (fun s => return_ (fibers s workInProgress)) ;;
    (match returnFiber with
     | Some rf => appendEffects workInProgress rf
     | None => ret tt
     end) ;;
    match next with
    | Some n => ret (Some n)
    | None =>
      sib <- gets (fun s => sibling (fibers s workInProgress)) ;;
      match sib with
      | Some sb => ret (Some sb)
      | None =>
        match returnFiber with
        | Some rf =>
          completeUnitOfWork handleErrors fuel' rf ignoreUnmountingErrors
        | None =>
          commitRoot handleErrors fuel' workInProgress ignoreUnmountingErrors
        end
      end
    end
  end.

(** *** performUnitOfWork (the development-only instrumentation hooks are
    left out) *)
Definition performUnitOfWork (handleErrors : list TrappedError -> Sched unit)
  (fuel : nat) (workInProgress : FiberId) (ignoreUnmountingErrors : bool)
  : Sched (option FiberId) :=
  cur <- gets (fun s => alternate (fibers s workInProgress)) ;;
  priorityLevel <- gets nextPriorityLevel ;;
  next <- beginWork cur workInProgress priorityLevel ;;
  next <- (match next with
           | Some n => ret (Some n)
           | None =>
             completeUnitOfWork handleErrors fuel workInProgress
               ignoreUnmountingErrors
           end) ;;
  modify (set_currentOwner None) ;;
  ret next.

(** *** scheduleErrorBoundaryWork *)

Definition invalidRootError : JsValue := JsError "Invalid root".

Fixpoint findRootFromBoundary (fuel : nat) (fiber : FiberId) (priority : Z)
  : Sched (option RootId) :=
  match fuel with
  | O => outOfFuel
  | S fuel' =>
    modify (updFiber fiber (set_pendingWorkPriority priority)) ;;
    alt <- gets (fun s => alternate (fibers s fiber)) ;;
    (match alt with
     | Some a => modify (updFiber a (set_pendingWorkPriority priority))
     | None => ret tt
     end) ;;
    parent <- gets (fun s => return_ (fibers s fiber)) ;;
    match parent with
    | None =>
      t <- gets (fun s => tag (fibers s fiber)) ;;
      if t =? HostContainer then gets (fun s => stateNode (fibers s fiber))
      else throw invalidRootError
    | Some p => findRootFromBoundary fuel' p priority
    end
  end.

Definition scheduleErrorBoundaryWork (fuel : nat) (boundary : FiberId)
  (priority : Z) : Sched RootId :=
  root <- findRootFromBoundary fuel boundary priority ;;
  match root with
  | None => throw (JsError "Could not find root from the boundary.")
  | Some r => ret r
  end.

(** *** handleErrors *)

(** The local variables of [handleErrors] that its callbacks assign. *)
Record ErrorPass : Type := mkErrorPass {
  firstUncaughtError : JsValue;
  nextTrappedErrors : option (list TrappedError);
  affectedBoundaries : list FiberId
}.

(** The callback of [trappedErrors.forEach]. *)
Definition passErrorToBoundary (trappedError : TrappedError) (v : ErrorPass)
  : Sched ErrorPass :=
  match boundary trappedError with
  | None =>
    ret (mkErrorPass (js_or (firstUncaughtError v) (error trappedError))
           (nextTrappedErrors v) (affectedBoundaries v))
  | Some b =>
    if existsb (Pos.eqb b) (affectedBoundaries v) then ret v
    else
      try_catch
        (acknowledgeErrorInBoundary b (error trappedError) ;;
         ret (mkErrorPass (firstUncaughtError v) (nextTrappedErrors v)
                (affectedBoundaries v ++ [b])))
        (fun nextError =>
           e <- trapErrorM b nextError ;;
           ret (mkErrorPass (firstUncaughtError v)
                  (pushOne (nextTrappedErrors v) e)
                  (affectedBoundaries v)))
  end.

Fixpoint passErrorsToBoundaries (trappedErrors : list TrappedError)
  (v : ErrorPass) : Sched ErrorPass :=
  match trappedErrors with
  | [] => ret v
  | e :: rest =>
    v' <- passErrorToBoundary e v ;;
    passErrorsToBoundaries rest v'
  end.

(** [while (fiber) { fiber = performUnitOfWork(fiber, true); }] *)
Fixpoint renderBoundary
  (performUnit : FiberId -> bool -> Sched (option FiberId))
  (fuel : nat) (fiber : option FiberId) : Sched unit :=
  match fiber with
  | None => ret tt
  | Some f =>
    match fuel with
    | O => outOfFuel
    | S fuel' =>
      next <- performUnit f true ;;
      renderBoundary performUnit fuel' next
    end
  end.

(** The callback of [affectedBoundaries.forEach]. *)
Definition updateBoundary
  (performUnit : FiberId -> bool -> Sched (option FiberId))
  (fuel : nat) (b : FiberId) (next : option (list TrappedError))
  : Sched (option (list TrappedError)) :=
  priority <- gets priorityContext ;;
  root <- scheduleErrorBoundaryWork fuel b priority ;;
  cur <- gets (fun s => FiberRoot.current (roots s root)) ;;
  fiber <- cloneFiberM cur priority ;;
  try_catch
    (renderBoundary performUnit fuel (Some fiber) ;; ret next)
    (fun nextError =>
       e <- trapErrorM b nextError ;;
       ret (pushOne next e)).

Fixpoint updateBoundaries
  (performUnit : FiberId -> bool -> Sched (option FiberId))
  (fuel : nat) (bs : list FiberId) (next : option (list TrappedError))
  : Sched (option (list TrappedError)) :=
  match bs with
  | [] => ret next
  | b :: rest =>
    next' <- updateBoundary performUnit fuel b next ;;
    updateBoundaries performUnit fuel rest next'
  end.

(** The [while (nextTrappedErrors)] loop; its result is [firstUncaughtError]
    when the loop ends. *)
Fixpoint handleErrorsLoop
  (performUnit : FiberId -> bool -> Sched (option FiberId))
  (fuel : nat) (nextTrapped : option (list TrappedError))
  (firstUncaught : JsValue) : Sched JsValue :=
  match nextTrapped with
  | None => ret firstUncaught
  | Some trappedErrors =>
    match fuel with
    | O => outOfFuel
    | S fuel' =>
      v <- passErrorsToBoundaries trappedErrors
             (mkErrorPass firstUncaught None []) ;;
      next <- updateBoundaries performUnit fuel' (affectedBoundaries v)
                (nextTrappedErrors v) ;;
      handleErrorsLoop performUnit fuel' next (firstUncaughtError v)
    end
  end.

(** What follows the loop in [handleErrors]. *)
Definition surfaceUncaughtError (firstUncaught : JsValue) : Sched unit :=
  modify (set_currentOwner None) ;;
  if truthy firstUncaught then
    modify (set_nextScheduledRoot None) ;;
    modify (set_lastScheduledRoot None) ;;
    throw firstUncaught
  else ret tt.

Fixpoint handleErrors (fuel : nat) (initialTrappedErrors : list TrappedError)
  : Sched unit :=
  match fuel with
  | O => outOfFuel
  | S fuel' =>
    firstUncaught <-
      handleErrorsLoop (performUnitOfWork (handleErrors fuel') fuel') fuel'
        (Some initialTrappedErrors) JsNull ;;
    surfaceUncaughtError firstUncaught
  end.

(** *** The three work loops *)

Definition requestDeferredCallback : Sched unit :=
  scheduled <- gets isDeferredCallbackScheduled ;;
  if scheduled : bool then ret tt
  else
    modify (set_isDeferredCallbackScheduled true) ;;
    modify (fun s => set_host (scheduleDeferredCallback (host s)) s).

Definition requestAnimationCallback : Sched unit :=
  scheduled <- gets isAnimationCallbackScheduled ;;
  if scheduled : bool then ret tt
  else
    modify (set_isAnimationCallbackScheduled true) ;;
    modify (fun s => set_host (scheduleAnimationCallback (host s)) s).

(** [nextUnitOfWork = performUnitOfWork(nextUnitOfWork, false);
     if (!nextUnitOfWork) { nextUnitOfWork = findNextUnitOfWork(); }] *)
Definition performNextUnit (fuel : nat) (work : FiberId) : Sched unit :=
  next <- performUnitOfWork (handleErrors fuel) fuel work false ;;
  modify (set_nextUnitOfWork next) ;;
  match next with
  | Some _ => ret tt
  | None =>
    found <- findNextUnitOfWork fuel ;;
    modify (set_nextUnitOfWork found)
  end.

Definition timeRemaining (deadline : Deadline Host) : Sched Q :=
  fun s => let (t, h) := deadline (host s) in (Ok t, set_host h s).

Fixpoint deferredLoop (budget fuel : nat) (deadline : Deadline Host)
  : Sched unit :=
  work <- gets nextUnitOfWork ;;
  match work with
  | None => ret tt
  | Some u =>
    match budget with
    | O => outOfFuel
    | S budget' =>
      t <- timeRemaining deadline ;;
      if negb (Qle_bool t timeHeuristicForUnitOfWork) then
        performNextUnit fuel u ;;
        deferredLoop budget' fuel deadline
      else requestDeferredCallback
    end
  end.

Definition performDeferredWorkUnsafe (fuel : nat) (deadline : Deadline Host)
  : Sched unit :=
  work <- gets nextUnitOfWork ;;
  (match work with
   | None =>
     found <- findNextUnitOfWork fuel ;;
     modify (set_nextUnitOfWork found)
   | Some _ => ret tt
   end) ;;
  deferredLoop fuel fuel deadline.

Fixpoint animationLoop (budget fuel : nat) : Sched unit :=
  work <- gets nextUnitOfWork ;;
  priorityLevel <- gets nextPriorityLevel ;;
  match work with
  | Some u =>
    if negb (priorityLevel =? NoWork) && (priorityLevel <=? AnimationPriority)
    then
      match budget with
      | O => outOfFuel
      | S budget' =>
        performNextUnit fuel u ;;
        animationLoop budget' fuel
      end
    else ret tt
  | None => ret tt
  end.

Definition performAnimationWorkUnsafe (fuel : nat) : Sched unit :=
  found <- findNextUnitOfWork fuel ;;
  modify (set_nextUnitOfWork found) ;;
  animationLoop fuel fuel ;;
  work <- gets nextUnitOfWork ;;
  priorityLevel <- gets nextPriorityLevel ;;
  match work with
  | Some _ =>
    if priorityLevel >? AnimationPriority then requestDeferredCallback
    else ret tt
  | None => ret tt
  end.

Fixpoint synchronousLoop (budget fuel : nat) : Sched unit :=
  work <- gets nextUnitOfWork ;;
  priorityLevel <- gets nextPriorityLevel ;;
  match work with
  | Some u =>
    if priorityLevel =? SynchronousPriority then
      match budget with
      | O => outOfFuel
      | S budget' =>
        performNextUnit fuel u ;;
        synchronousLoop budget' fuel
      end
    else ret tt
  | None => ret tt
  end.

Definition performSynchronousWorkUnsafe (fuel : nat) : Sched unit :=
  found <- findNextUnitOfWork fuel ;;
  modify (set_nextUnitOfWork found) ;;
  synchronousLoop fuel fuel ;;
  work <- gets nextUnitOfWork ;;
  match work with
  | Some _ =>
    priorityLevel <- gets nextPriorityLevel ;;
    if priorityLevel >? AnimationPriority then requestDeferredCallback
    else requestAnimationCallback
  | None => ret tt
  end.

(** *** performAndHandleErrors *)

(** The body of the [try] block. *)
Definition performWorkUnsafe (fuel : nat) (priorityLevel : Z)
  (deadline : option (Deadline Host)) : Sched unit :=
  if priorityLevel =? SynchronousPriority then
    performSynchronousWorkUnsafe fuel
  else if priorityLevel >? AnimationPriority then
    match deadline with
    | None => throw (JsError "No deadline")
    | Some d => performDeferredWorkUnsafe fuel d
    end
  else performAnimationWorkUnsafe fuel.

(** The [catch] block. *)
Definition handleWorkError (fuel : nat) (error : JsValue) : Sched unit :=
  failedUnitOfWork <- gets nextUnitOfWork ;;
  modify (set_nextUnitOfWork None) ;;
  match failedUnitOfWork with
  | None => throw error
  | Some failed =>
    trappedError <- trapErrorM failed error ;;
    handleErrors fuel [trappedError]
  end.

Definition performAndHandleErrors (fuel : nat) (priorityLevel : Z)
  (deadline : option (Deadline Host)) : Sched unit :=
  try_catch (performWorkUnsafe fuel priorityLevel deadline)
            (handleWorkError fuel).

Definition performDeferredWork (fuel : nat) (deadline : option (Deadline Host))
  : Sched unit :=
  modify (set_isDeferredCallbackScheduled false) ;;
  performAndHandleErrors fuel LowPriority deadline.

Definition performAnimationWork (fuel : nat) : Sched unit :=
  modify (set_isAnimationCallbackScheduled false) ;;
  performAndHandleErrors fuel AnimationPriority None.

Definition performSynchronousWork (fuel : nat) : Sched unit :=
  prev <- gets shouldBatchUpdates ;;
  modify (set_shouldBatchUpdates true) ;;
  try_finally
    (performAndHandleErrors fuel SynchronousPriority None)
    (modify (set_shouldBatchUpdates prev)).

(** *** Scheduling *)

(** [if (cur === NoWork || priority <= cur) { cur = priority; }] on the
    pending priority of the root's current fiber. *)
Definition raiseRootPriority (root : RootId) (priority : Z) : Sched unit :=
  cur <- gets (fun s => rootPriority s root) ;;
  if (cur =? NoWork) || (priority <=? cur) then
    f <- gets (fun s => FiberRoot.current (roots s root)) ;;
    modify (updFiber f (set_pendingWorkPriority priority))
  else ret tt.

(** [lastScheduledRoot.nextScheduledRoot = root; lastScheduledRoot = root],
    or the root becomes the only one of the chain. *)
Definition appendRoot (root : RootId) : Sched unit :=
  last <- gets lastScheduledRoot ;;
  match last with
  | Some l =>
    modify (updRoot l (FiberRoot.set_nextScheduledRoot (Some root))) ;;
    modify (set_lastScheduledRoot (Some root))
  | None =>
    modify (set_nextScheduledRoot (Some root)) ;;
    modify (set_lastScheduledRoot (Some root))
  end.

Definition scheduleDeferredWork (root : RootId) (priority : Z) : Sched unit :=
  priorityLevel <- gets nextPriorityLevel ;;
  (if priority <=? priorityLevel then modify (set_nextUnitOfWork None)
   else ret tt) ;;
  raiseRootPriority root priority ;;
  scheduled <- gets (fun s => FiberRoot.isScheduled (roots s root)) ;;
  (if scheduled : bool then ret tt
   else
     modify (updRoot root (FiberRoot.set_isScheduled true)) ;;
     appendRoot root) ;;
  requestDeferredCallback.

Definition scheduleAnimationWork (root : RootId) (priorityLevel : Z)
  : Sched unit :=
  raiseRootPriority root priorityLevel ;;
  scheduled <- gets (fun s => FiberRoot.isScheduled (roots s root)) ;;
  (if scheduled : bool then ret tt
   else
     modify (updRoot root (FiberRoot.set_isScheduled true)) ;;
     appendRoot root) ;;
  requestAnimationCallback.

Definition scheduleSynchronousWork (fuel : nat) (root : RootId) : Sched unit :=
  f <- gets (fun s => FiberRoot.current (roots s root)) ;;
  modify (updFiber f (set_pendingWorkPriority SynchronousPriority)) ;;
  scheduled <- gets (fun s => FiberRoot.isScheduled (roots s root)) ;;
  if scheduled : bool then ret tt
  else
    modify (updRoot root (FiberRoot.set_isScheduled true)) ;;
    last <- gets lastScheduledRoot ;;
    match last with
    | Some l =>
      modify (updRoot l (FiberRoot.set_nextScheduledRoot (Some root))) ;;
      modify (set_lastScheduledRoot (Some root))
    | None =>
      modify (set_nextScheduledRoot (Some root)) ;;
      modify (set_lastScheduledRoot (Some root)) ;;
      batching <- gets shouldBatchUpdates ;;
      if batching : bool then ret tt
      else performSynchronousWork fuel
    end.

(** [root] is what the caller read from [stateNode], possibly [null]: each
    of the three functions fails where it first reads [root.current], which
    in [scheduleDeferredWork] comes after the reset of [nextUnitOfWork]. *)
Definition scheduleWorkAtPriority (fuel : nat) (root : option RootId)
  (priorityLevel : Z) : Sched unit :=
  if priorityLevel =? NoWork then ret tt
  else if priorityLevel =? SynchronousPriority then
    match root with
    | Some r => scheduleSynchronousWork fuel r
    | None => throw (JsError "Cannot read property 'current' of null")
    end
  else if priorityLevel <=? AnimationPriority then
    match root with
    | Some r => scheduleAnimationWork r priorityLevel
    | None => throw (JsError "Cannot read property 'current' of null")
    end
  else
    match root with
    | Some r => scheduleDeferredWork r priorityLevel
    | None =>
      nextLevel <- gets nextPriorityLevel ;;
      (if priorityLevel <=? nextLevel then modify (set_nextUnitOfWork None)
       else ret tt) ;;
      throw (JsError "Cannot read property 'current' of null")
    end.

Definition scheduleWork (fuel : nat) (root : RootId) : Sched unit :=
  priorityLevel <- gets priorityContext ;;
  scheduleWorkAtPriority fuel (Some root) priorityLevel.

(** One turn of the loop of [scheduleUpdate]: the two guarded assignments. *)
Definition markPendingPriority (fiber : FiberId) (priorityLevel : Z)
  : Sched unit :=
  p <- gets (fun s => pendingWorkPriority (fibers s fiber)) ;;
  (if (p =? NoWork) || (p >=? priorityLevel) then
     modify (updFiber fiber (set_pendingWorkPriority priorityLevel))
   else ret tt) ;;
  alt <- gets (fun s => alternate (fibers s fiber)) ;;
  match alt with
  | Some a =>
    pa <- gets (fun s => pendingWorkPriority (fibers s a)) ;;
    if (pa =? NoWork) || (pa >=? priorityLevel) then
      modify (updFiber a (set_pendingWorkPriority priorityLevel))
    else ret tt
  | None => ret tt
  end.

Fixpoint scheduleUpdateFrom (budget fuel : nat) (fiber : FiberId)
  (priorityLevel : Z) : Sched unit :=
  match budget with
  | O => outOfFuel
  | S budget' =>
    markPendingPriority fiber priorityLevel ;;
    parent <- gets (fun s => return_ (fibers s fiber)) ;;
    match parent with
    | None =>
      t <- gets (fun s => tag (fibers s fiber)) ;;
      if t =? HostContainer then
        root <- gets (fun s => stateNode (fibers s fiber)) ;;
        scheduleWorkAtPriority fuel root priorityLevel
      else throw invalidRootError
    | Some p => scheduleUpdateFrom budget' fuel p priorityLevel
    end
  end.

Definition scheduleUpdate (fuel : nat) (fiber : FiberId) : Sched unit :=
  priorityLevel <- gets priorityContext ;;
  scheduleUpdateFrom fuel fuel fiber priorityLevel.

(** *** Scoped priority and batching *)

Definition performWithPriority (priorityLevel : Z) (fn : Sched unit)
  : Sched unit :=
  previousPriorityContext <- gets priorityContext ;;
  modify (set_priorityContext priorityLevel) ;;
  try_finally fn (modify (set_priorityContext previousPriorityContext)).

Definition batchedUpdates {A} (fuel : nat) (fn : Sched A) : Sched A :=
  prev <- gets shouldBatchUpdates ;;
  modify (set_shouldBatchUpdates true) ;;
  try_finally fn
    (modify (set_shouldBatchUpdates prev) ;;
     batching <- gets shouldBatchUpdates ;;
     if batching : bool then ret tt else performSynchronousWork fuel).

Definition syncUpdates {A} (fn : Sched A) : Sched A :=
  previousPriorityContext <- gets priorityContext ;;
  modify (set_priorityContext SynchronousPriority) ;;
  try_finally fn (modify (set_priorityContext previousPriorityContext)).

End Scheduler.

(** * Specifications *)

(** The computation ends, however it ends, in a state related to the one it
    started from. *)
Definition respects {Host A : Type} (R : State Host -> State Host -> Prop)
  (m : M Host A) : Prop :=
  forall s, R s (snd (m s)).

(** ** The root registry as a list *)

Definition last_error {A} (l : list A) : option A := hd_error (rev l).

(** The roots of [l] are chained through [nextScheduledRoot], in order, and
    the last link is [null]. *)
Fixpoint linked (rs : RootId -> FiberRoot.t) (l : list RootId) : Prop :=
  match l with
  | [] => True
  | r :: l' => FiberRoot.nextScheduledRoot (rs r) = hd_error l' /\ linked rs l'
  end.

(** The registry holds exactly the roots of [l], in that order. *)
Definition registry {Host} (s : State Host) (l : list RootId) : Prop :=
  nextScheduledRoot s = hd_error l /\
  lastScheduledRoot s = last_error l /\
  linked (roots s) l /\
  NoDup l.

Section RegistrySpec.
Context {Host : Type} {K : Constants}.

(** The leading roots with no pending work, and the roots after them. *)
Fixpoint emptyPrefix (s : State Host) (l : list RootId) : list RootId :=
  match l with
  | [] => []
  | r :: l' =>
    if rootPriority s r =? NoWork then r :: emptyPrefix s l' else []
  end.

Fixpoint dropEmpty (s : State Host) (l : list RootId) : list RootId :=
  match l with
  | [] => []
  | r :: l' => if rootPriority s r =? NoWork then dropEmpty s l' else l
  end.

(** [r] has pending work, no root of [l] with pending work is more urgent,
    and those before [r] are strictly less urgent. *)
Definition mostUrgentFirst (prio : RootId -> Z) (l : list RootId) (r : RootId)
  : Prop :=
  exists before after,
    l = before ++ r :: after /\
    prio r <> NoWork /\
    (forall x, In x before -> prio x = NoWork \/ prio r < prio x) /\
    (forall x, In x after -> prio x = NoWork \/ prio r <= prio x).

(** The state relation kept by the first loop. *)
Definition cleared (s : State Host) (l : list RootId) (s' : State Host)
  (returned : bool) : Prop :=
  fibers s' = fibers s /\
  (forall r, In r (emptyPrefix s l) ->
     FiberRoot.isScheduled (roots s' r) = false /\
     FiberRoot.nextScheduledRoot (roots s' r) = None) /\
  (forall r, ~ In r (emptyPrefix s l) -> roots s' r = roots s r) /\
  (forall r, FiberRoot.current (roots s' r) = FiberRoot.current (roots s r)) /\
  nextScheduledRoot s' = hd_error (dropEmpty s l) /\
  lastScheduledRoot s' = last_error (dropEmpty s l) /\
  (returned = true -> dropEmpty s l = [] /\ nextPriorityLevel s' = NoWork) /\
  (returned = false -> nextPriorityLevel s' = nextPriorityLevel s).

(** The second loop, as a fold over the list of roots. *)
Definition scanStep (prio : RootId -> Z) (acc : option RootId * Z) (r : RootId)
  : option RootId * Z :=
  if negb (prio r =? NoWork) && ((snd acc =? NoWork) || (snd acc >? prio r))
  then (Some r, prio r) else acc.

(** What the scan has found after the roots [seen]. *)
Definition scanned (prio : RootId -> Z) (seen : list RootId)
  (acc : option RootId * Z) : Prop :=
  match fst acc with
  | None => snd acc = NoWork /\ forall x, In x seen -> prio x = NoWork
  | Some r => snd acc = prio r /\ mostUrgentFirst prio seen r
  end.

End RegistrySpec.

(** Every collaborator that runs user code keeps the relation [R]. *)
Definition collaborators_respect {Host} {E : Env Host}
  (R : State Host -> State Host -> Prop) : Prop :=
  (forall c f p, respects R (beginWork c f p)) /\
  (forall c f, respects R (completeWork c f)) /\
  (forall f, respects R (commitInsertion f)) /\
  (forall f, respects R (commitDeletion f)) /\
  (forall c f, respects R (commitWork c f)) /\
  (forall c f, respects R (commitLifeCycles c f)) /\
  (forall b e, respects R (acknowledgeErrorInBoundary b e)).

(** Every root has the same current fiber in the two states. *)
Definition sameCurrent {Host} (s s' : State Host) : Prop :=
  forall r, FiberRoot.current (roots s' r) = FiberRoot.current (roots s r).

(** The current fiber of a root changes only by the assignment
    [root.current = workInProgress] of the commit step: the second state is
    reached from the first by steps that keep the current fiber of every
    root, and by assignments of a fiber without return parent, whose
    stateNode is the root and which is not its current fiber already. *)
Inductive currentByCommit {Host} : State Host -> State Host -> Prop :=
| byCommit_keep s s' : sameCurrent s s' -> currentByCommit s s'
| byCommit_commit s root wip :
    stateNode (fibers s wip) = Some root ->
    return_ (fibers s wip) = None ->
    FiberRoot.current (roots s root) <> wip ->
    currentByCommit s (updRoot root (FiberRoot.set_current wip) s)
| byCommit_trans s1 s2 s3 :
    currentByCommit s1 s2 -> currentByCommit s2 s3 -> currentByCommit s1 s3.

(** Batching, once on, is still on. *)
Definition staysBatched {Host} (s s' : State Host) : Prop :=
  shouldBatchUpdates s = true -> shouldBatchUpdates s' = true.

(** What [scheduleSynchronousWork] does to the state before it decides
    whether to flush: the root's current fiber gets the synchronous priority
    and the root, unless already scheduled, goes to the end of the chain. *)
Definition enqueueSynchronous {Host} {K : Constants} (root : RootId)
  (s : State Host) : State Host :=
  let s1 :=
    updFiber (FiberRoot.current (roots s root))
      (set_pendingWorkPriority SynchronousPriority) s in
  if FiberRoot.isScheduled (roots s1 root) then s1
  else
    let s2 := updRoot root (FiberRoot.set_isScheduled true) s1 in
    match lastScheduledRoot s2 with
    | Some l =>
      set_lastScheduledRoot (Some root)
        (updRoot l (FiberRoot.set_nextScheduledRoot (Some root)) s2)
    | None =>
      set_lastScheduledRoot (Some root)
        (set_nextScheduledRoot (Some root) s2)
    end.

(** The more urgent of two pending priorities: [NoWork] is less urgent
    than every level, and of two levels the smaller number is the more
    urgent. *)
Definition urgencyMin {K : Constants} (existing requested : Z) : Z :=
  if existing =? NoWork then requested
  else if requested =? NoWork then existing
  else Z.min existing requested.

(** [new] is a level that is strictly less urgent than the level [old]. *)
Definition lessUrgent {K : Constants} (new old : Z) : Prop :=
  new <> NoWork /\ old <> NoWork /\ old < new.

(** Between the two states every fiber kept its pending priority or got
    [p], and got [p] only where it had no work pending or a priority not
    more urgent than [p]. *)
Definition neverLessUrgent {Host} {K : Constants} (p : Z) (s s' : State Host)
  : Prop :=
  forall g,
    pendingWorkPriority (fibers s' g) = pendingWorkPriority (fibers s g) \/
    (pendingWorkPriority (fibers s' g) = p /\
     (pendingWorkPriority (fibers s g) = NoWork \/
      p <= pendingWorkPriority (fibers s g))).

(** Between the two states no fiber got a level strictly less urgent than
    the level it had, and for a requested priority [p] other than [NoWork]
    every fiber kept its pending priority or got the more urgent of it and
    [p]. *)
Definition keepsUrgency {Host} {K : Constants} (p : Z) (s s' : State Host)
  : Prop :=
  forall g,
    ~ lessUrgent (pendingWorkPriority (fibers s' g))
        (pendingWorkPriority (fibers s g)) /\
    (p <> NoWork ->
     pendingWorkPriority (fibers s' g) = pendingWorkPriority (fibers s g) \/
     pendingWorkPriority (fibers s' g) =
       urgencyMin (pendingWorkPriority (fibers s g)) p).

(** The error of the first trapped error of the batch that has no boundary. *)
Fixpoint firstUncaughtOf (l : list TrappedError) : option JsValue :=
  match l with
  | [] => None
  | e :: rest =>
    match boundary e with
    | None => Some (error e)
    | Some _ => firstUncaughtOf rest
    end
  end.

(** The error of the first trapped error of the batch that has no boundary
    and whose value is truthy. *)
Fixpoint firstTruthyUncaught (l : list TrappedError) : option JsValue :=
  match l with
  | [] => None
  | e :: rest =>
    match boundary e with
    | None =>
      if truthy (error e) then Some (error e) else firstTruthyUncaught rest
    | Some _ => firstTruthyUncaught rest
    end
  end.

(** Scheduling at the synchronous priority starts no flush, and no fiber
    has a pending priority more urgent than the synchronous one. *)
Definition batchedAtSync {Host} {K : Constants} (p : Z) (s : State Host)
  : Prop :=
  (p =? SynchronousPriority) = true ->
  shouldBatchUpdates s = true /\
  forall g,
    pendingWorkPriority (fibers s g) = NoWork \/
    SynchronousPriority <= pendingWorkPriority (fibers s g).

(** [firstUncaughtError] after a batch, from its value before. *)
Fixpoint recordUncaught (l : list TrappedError) (fu : JsValue) : JsValue :=
  match l with
  | [] => fu
  | e :: rest =>
    recordUncaught rest
      (match boundary e with
       | None => js_or fu (error e)
       | Some _ => fu
       end)
  end.

(** ** Effect lists *)

(** The fibers of [l] are chained through [nextEffect], in order.  The
    link of the last one is not constrained: a list is delimited by
    [lastEffect]. *)
Fixpoint effectChain (fs : FiberId -> Fiber) (l : list FiberId) : Prop :=
  match l with
  | x :: ((y :: _) as rest) => nextEffect (fs x) = Some y /\ effectChain fs rest
  | _ => True
  end.

(** The effect list of [f], from [firstEffect] to [lastEffect], is [l]. *)
Definition effectList (fs : FiberId -> Fiber) (f : FiberId)
  (l : list FiberId) : Prop :=
  firstEffect (fs f) = hd_error l /\
  lastEffect (fs f) = last_error l /\
  effectChain fs l.

(** The two stores agree on the fields of every fiber that the completion
    of a unit of work does not write: the tree, the tag and the effect tag. *)
Definition sameShape (fs fs' : FiberId -> Fiber) : Prop :=
  forall g,
    tag (fs' g) = tag (fs g) /\
    stateNode (fs' g) = stateNode (fs g) /\
    return_ (fs' g) = return_ (fs g) /\
    child (fs' g) = child (fs g) /\
    sibling (fs' g) = sibling (fs g) /\
    alternate (fs' g) = alternate (fs g) /\
    progressedChild (fs' g) = progressedChild (fs g) /\
    effectTag (fs' g) = effectTag (fs g).

(** The two stores agree on the three effect-list fields of every fiber. *)
Definition sameEffects (fs fs' : FiberId -> Fiber) : Prop :=
  forall g,
    firstEffect (fs' g) = firstEffect (fs g) /\
    lastEffect (fs' g) = lastEffect (fs g) /\
    nextEffect (fs' g) = nextEffect (fs g).

(** [completeWork] spawns no work and leaves the shape and the effect lists
    of the tree as they are. *)
Definition quietCompleteWork {Host} {E : Env Host} : Prop :=
  forall cur f (s : State Host),
    fst (completeWork cur f s) = Ok None /\
    sameShape (fibers s) (fibers (snd (completeWork cur f s))) /\
    sameEffects (fibers s) (fibers (snd (completeWork cur f s))).

(** The sibling chain from [child] ends within [fuel] steps. *)
Fixpoint siblingsEnd (fuel : nat) (fs : FiberId -> Fiber)
  (child : option FiberId) : Prop :=
  match child with
  | None => True
  | Some c =>
    match fuel with
    | O => False
    | S fuel' => siblingsEnd fuel' fs (sibling (fs c))
    end
  end.

(** What [appendEffects] does to the links, fiber by fiber. *)
Definition spliced (fs fs' : FiberId -> Fiber) (wip rf : FiberId)
  (lp lw own : list FiberId) : Prop :=
  sameShape fs fs' /\
  (forall g, g <> rf ->
     firstEffect (fs' g) = firstEffect (fs g) /\
     lastEffect (fs' g) = lastEffect (fs g)) /\
  firstEffect (fs' rf) = hd_error (lp ++ lw ++ own) /\
  lastEffect (fs' rf) = last_error (lp ++ lw ++ own) /\
  (forall g,
     (own = [] \/ last_error (lp ++ lw) <> Some g) ->
     (lw = [] \/ last_error lp <> Some g) ->
     nextEffect (fs' g) = nextEffect (fs g)) /\
  (own <> [] -> forall g, last_error (lp ++ lw) = Some g ->
     nextEffect (fs' g) = Some wip) /\
  (lw <> [] -> forall g, last_error lp = Some g ->
     nextEffect (fs' g) = hd_error lw).

(** ** A small host and reconciler to run the scheduler on examples

    The host is the list of the calls it received.  The reconciler walks
    the tree it is given: [beginWork] re-parents the children of the fiber
    and returns the first one, and fails on a fiber of tag [failingTag];
    the nearest error boundary of a fiber is its closest ancestor of tag
    [boundaryTag]. *)

Inductive HostEvent : Type :=
| Began (f : FiberId)
| Completed (f : FiberId)
| Inserted (f : FiberId)
| Updated (f : FiberId)
| Deleted (f : FiberId)
| LifeCycles (f : FiberId)
| Acknowledged (b : FiberId)
| AnimationCallback
| DeferredCallback.

Definition Log : Type := list HostEvent.

Definition logEvent (e : HostEvent) : M Log unit :=
  modify (fun s => set_host (host s ++ [e]) s).

(** The values of [ReactPriorityLevel] and [ReactTypeOfWork]: [NoWork] is
    [0] and is no level of the order; of the levels, the smaller number is
    the more urgent. *)
Definition demoConstants : Constants :=
  {| NoWork := 0; LowPriority := 4; AnimationPriority := 2;
     SynchronousPriority := 1; HostContainer := 3 |}.

Definition classTag : Z := 2.
Definition boundaryTag : Z := 7.
Definition failingTag : Z := 13.

Definition renderError : JsValue := JsError "render failed".

Definition set_return (v : option FiberId) (f : Fiber) : Fiber :=
  mkFiber (tag f) (stateNode f) v (child f) (sibling f) (alternate f)
    (pendingProps f) (updateQueue f) (progressedChild f) (pendingWorkPriority f)
    (effectTag f) (firstEffect f) (lastEffect f) (nextEffect f).

Fixpoint reparent (fuel : nat) (parent : FiberId) (c : option FiberId)
  (fs : FiberId -> Fiber) : FiberId -> Fiber :=
  match fuel, c with
  | S fuel', Some x =>
    reparent fuel' parent (sibling (fs x))
      (upd fs x (set_return (Some parent) (fs x)))
  | _, _ => fs
  end.

Definition demoBeginWork (cur : option FiberId) (f : FiberId) (p : Z)
  : M Log (option FiberId) :=
  logEvent (Began f) ;;
  t <- gets (fun s => tag (fibers s f)) ;;
  if t =? failingTag then throw renderError
  else
    c <- gets (fun s => child (fibers s f)) ;;
    modify (fun s => set_fibers (reparent 16 f c (fibers s)) s) ;;
    ret c.

Fixpoint nearestBoundary (fuel : nat) (fs : FiberId -> Fiber)
  (f : option FiberId) : option FiberId :=
  match fuel, f with
  | S fuel', Some x =>
    if tag (fs x) =? boundaryTag then Some x
    else nearestBoundary fuel' fs (return_ (fs x))
  | _, _ => None
  end.

(** The alternate is reused when there is one; a fresh fiber is allocated
    at the reference [f~1] otherwise. *)
Definition demoCloneFiber (f : FiberId) (priorityLevel : Z)
  (fs : FiberId -> Fiber) : FiberId * (FiberId -> Fiber) :=
  let src := fs f in
  let a := match alternate src with Some a => a | None => xI f end in
  let wip :=
    mkFiber (tag src) (stateNode src) (return_ src) (child src) (sibling src)
      (Some f) (pendingProps src) (updateQueue src) (progressedChild src)
      priorityLevel NoEffect None None None in
  let src' :=
    mkFiber (tag src) (stateNode src) (return_ src) (child src) (sibling src)
      (Some a) (pendingProps src) (updateQueue src) (progressedChild src)
      (pendingWorkPriority src) (effectTag src) (firstEffect src)
      (lastEffect src) (nextEffect src) in
  (a, upd (upd fs f src') a wip).

Definition demoEnv : Env Log :=
  {| beginWork := demoBeginWork;
     completeWork := fun _ f => logEvent (Completed f) ;; ret None;
     commitInsertion := fun f => logEvent (Inserted f);
     commitDeletion := fun f => logEvent (Deleted f) ;; ret None;
     commitWork := fun _ f => logEvent (Updated f);
     commitLifeCycles := fun _ f => logEvent (LifeCycles f) ;; ret None;
     acknowledgeErrorInBoundary := fun b _ => logEvent (Acknowledged b);
     cloneFiber := demoCloneFiber;
     trapError := fun f e fs =>
       mkTrappedError (nearestBoundary 16 fs (return_ (fs f))) e;
     scheduleAnimationCallback := fun h => h ++ [AnimationCallback];
     scheduleDeferredCallback := fun h => h ++ [DeferredCallback];
     useSyncScheduling := false |}.

(** A fiber with nothing pending, and a root that is not scheduled. *)
Definition idleFiber (t : Z) (node : option RootId) (parent : option FiberId)
  : Fiber :=
  mkFiber t node parent None None None None None None (@NoWork demoConstants)
    NoEffect None None None.

Definition idleRoot (cur : FiberId) : FiberRoot.t :=
  FiberRoot.mk cur false None.

Definition demoState (fs : FiberId -> Fiber) (rs : RootId -> FiberRoot.t)
  : State Log :=
  @initialState Log demoConstants demoEnv fs rs [].

(** ** Example states *)

(** One root, [1], whose current fiber is the host container [1]. *)
Definition oneRootFibers : FiberId -> Fiber := fun f =>
  match f with
  | 1%positive => idleFiber 3 (Some 1%positive) None
  | _ => idleFiber classTag None None
  end.

Definition oneRoot : State Log :=
  demoState oneRootFibers (fun _ => idleRoot 1).

(** A low-priority render is under way at fiber [9]. *)
Definition midRender : State Log :=
  set_nextPriorityLevel 4 (set_nextUnitOfWork (Some 9%positive) oneRoot).

(** Four scheduled roots [1; 2; 3; 4], with current fibers [11] to [14] of
    pending priority none, low, animation, animation. *)
Definition fourRootsFibers : FiberId -> Fiber := fun f =>
  match f with
  | 11%positive => idleFiber 3 (Some 1%positive) None
  | 12%positive =>
    set_pendingWorkPriority 4 (idleFiber 3 (Some 2%positive) None)
  | 13%positive =>
    set_pendingWorkPriority 2 (idleFiber 3 (Some 3%positive) None)
  | 14%positive =>
    set_pendingWorkPriority 2 (idleFiber 3 (Some 4%positive) None)
  | _ => idleFiber classTag None None
  end.

Definition fourRootsRoots : RootId -> FiberRoot.t := fun r =>
  match r with
  | 1%positive => FiberRoot.mk 11 true (Some 2%positive)
  | 2%positive => FiberRoot.mk 12 true (Some 3%positive)
  | 3%positive => FiberRoot.mk 13 true (Some 4%positive)
  | 4%positive => FiberRoot.mk 14 true None
  | _ => idleRoot 11
  end.

Definition fourRoots : State Log :=
  set_lastScheduledRoot (Some 4%positive)
    (set_nextScheduledRoot (Some 1%positive)
       (demoState fourRootsFibers fourRootsRoots)).

(** The tree P = [1] with children A = [2] and D = [5], where A has the
    children B = [3] and C = [4]; B and C carry the [Update] tag. *)
Definition familyFibers : FiberId -> Fiber := fun f =>
  match f with
  | 1%positive =>
    mkFiber 3 (Some 1%positive) None (Some 2%positive) None None None None
      (Some 2%positive) 0 NoEffect None None None
  | 2%positive =>
    mkFiber classTag None (Some 1%positive) (Some 3%positive)
      (Some 5%positive) None None None (Some 3%positive) 0 NoEffect
      None None None
  | 3%positive =>
    mkFiber classTag None (Some 2%positive) None (Some 4%positive) None
      None None None 4 Update None None None
  | 4%positive =>
    mkFiber classTag None (Some 2%positive) None None None
      None None None 4 Update None None None
  | 5%positive =>
    mkFiber classTag None (Some 1%positive) None None None
      None None None 0 NoEffect None None None
  | _ => idleFiber classTag None None
  end.

Definition family : State Log :=
  demoState familyFibers (fun _ => idleRoot 9).

(** The current fiber [1] of root [1] has synchronous work pending. *)
Definition urgentRoot : State Log :=
  updFiber 1 (set_pendingWorkPriority 1) oneRoot.

(** Root [1] is scheduled at the synchronous priority; its current fiber
    [1] has the child [5], whose render fails. *)
Definition failingFibers : FiberId -> Fiber := fun f =>
  match f with
  | 1%positive =>
    mkFiber 3 (Some 1%positive) None (Some 5%positive) None None None None
      None 1 NoEffect None None None
  | 5%positive => idleFiber failingTag None (Some 1%positive)
  | _ => idleFiber classTag None None
  end.

Definition failingRender : State Log :=
  set_lastScheduledRoot (Some 1%positive)
    (set_nextScheduledRoot (Some 1%positive)
       (demoState failingFibers (fun _ => FiberRoot.mk 1 true None))).

(** The finished work [1] has one fiber on its effect list, [2], placed
    and carrying a callback. *)
Definition placedWithCallbackFibers : FiberId -> Fiber := fun f =>
  match f with
  | 1%positive =>
    mkFiber 3 (Some 1%positive) None (Some 2%positive) None None None None
      None 0 NoEffect (Some 2%positive) (Some 2%positive) None
  | 2%positive =>
    mkFiber classTag None (Some 1%positive) None None None None None
      None 0 PlacementAndCallback None None None
  | _ => idleFiber classTag None None
  end.

Definition placedWithCallback : State Log :=
  demoState placedWithCallbackFibers (fun _ => idleRoot 9).

(** Two errors without a boundary, the first of which is the thrown
    value [0]. *)
Definition falsyFirst : list TrappedError :=
  [mkTrappedError None (JsNumber 0);
   mkTrappedError None (JsError "second")].

(** Two errors without a boundary. *)
Definition twoUncaught : list TrappedError :=
  [mkTrappedError None (JsError "first");
   mkTrappedError None (JsError "second")].

(** ** Chains of fibers *)

(** [l] is the chain that starts at [first] and follows [next] until the
    link is [null]. *)
Fixpoint chain (next : FiberId -> option FiberId) (first : option FiberId)
  (l : list FiberId) : Prop :=
  match l with
  | [] => first = None
  | x :: l' => first = Some x /\ chain next (next x) l'
  end.

(** The children of a fiber, from [progressedChild] along [sibling]. *)
Definition siblingChain (fs : FiberId -> Fiber) (child : option FiberId)
  (l : list FiberId) : Prop :=
  chain (fun x => sibling (fs x)) child l.

(** The ancestors of [f], from its return parent up to the fiber that has
    none. *)
Definition returnPath (fs : FiberId -> Fiber) (f : FiberId)
  (l : list FiberId) : Prop :=
  chain (fun x => return_ (fs x)) (return_ (fs f)) l.

(** The effect list as the commit walks it: from [first] along [nextEffect]
    until the link is [null]. *)
Definition effectWalk (fs : FiberId -> Fiber) (first : option FiberId)
  (l : list FiberId) : Prop :=
  chain (fun x => nextEffect (fs x)) first l.

(** ** Priorities along a path *)

(** [g] is a fiber of [path] or the alternate of one. *)
Definition markedBy (fs : FiberId -> Fiber) (path : list FiberId)
  (g : FiberId) : bool :=
  existsb (fun x => Pos.eqb g x || same_ref (Some g) (alternate (fs x))) path.

(** The store in which the pending priority [p] of every fiber of [path]
    and of every alternate of one has become [m p]. *)
Definition markStore (m : Z -> Z) (fs : FiberId -> Fiber)
  (path : list FiberId) : FiberId -> Fiber :=
  fun g =>
    if markedBy fs path g
    then set_pendingWorkPriority (m (pendingWorkPriority (fs g))) (fs g)
    else fs g.

(** The guarded assignment of [scheduleUpdate], on a pending priority. *)
Definition raisedTo {K : Constants} (priorityLevel : Z) (p : Z) : Z :=
  if (p =? NoWork) || (p >=? priorityLevel) then priorityLevel else p.

(** The more urgent of the children's pending priorities, as
    [resetWorkPriority] accumulates it. *)
Definition moreUrgent {K : Constants} (newPriority p : Z) : Z :=
  if negb (p =? NoWork) && ((newPriority =? NoWork) || (newPriority >? p))
  then p else newPriority.

(** ** The registry and the flags of the roots *)

(** The registry holds the roots of [l]; the roots of [l] are the ones
    flagged as scheduled; and a root outside the registry has no link. *)
Definition registryInv {Host} (s : State Host) (l : list RootId) : Prop :=
  registry s l /\
  (forall r, FiberRoot.isScheduled (roots s r) = true <-> In r l) /\
  (forall r, ~ In r l -> FiberRoot.nextScheduledRoot (roots s r) = None).

(** The roots after [root] has been flagged and linked behind [last]. *)
Definition enqueued (rs : RootId -> FiberRoot.t) (last : option RootId)
  (root : RootId) : RootId -> FiberRoot.t :=
  let rs1 := upd rs root (FiberRoot.set_isScheduled true (rs root)) in
  match last with
  | Some l => upd rs1 l (FiberRoot.set_nextScheduledRoot (Some root) (rs1 l))
  | None => rs1
  end.

(** ** The commit with collaborators that trap nothing *)

(** What the first pass of the commit leaves of an effect tag. *)
Definition afterMutation (t : Z) : Z :=
  if (t =? Placement) || (t =? PlacementAndCallback) then NoEffect
  else if (t =? PlacementAndUpdate) || (t =? PlacementAndUpdateAndCallback)
  then Update
  else t.

(** The commit functions of the reconciler return normally, trap no error
    and do not write to the fibers. *)
Definition quietCommit {Host} {E : Env Host} : Prop :=
  (forall f (s : State Host),
     fst (commitInsertion f s) = Ok tt /\
     fibers (snd (commitInsertion f s)) = fibers s) /\
  (forall f (s : State Host),
     fst (commitDeletion f s) = Ok None /\
     fibers (snd (commitDeletion f s)) = fibers s) /\
  (forall c f (s : State Host),
     fst (commitWork c f s) = Ok tt /\
     fibers (snd (commitWork c f s)) = fibers s) /\
  (forall c f (s : State Host),
     fst (commitLifeCycles c f s) = Ok None /\
     fibers (snd (commitLifeCycles c f s)) = fibers s).

(** ** More example states *)

(** Root [1] carries the [isScheduled] flag, and the registry is empty. *)
Definition flaggedRoot : State Log :=
  updRoot 1 (FiberRoot.set_isScheduled true) oneRoot.

(** Root [1] is the one root of the registry; its current fiber [1] has
    synchronous work pending. *)
Definition syncRoot : State Log :=
  set_lastScheduledRoot (Some 1%positive)
    (set_nextScheduledRoot (Some 1%positive)
       (updRoot 1 (FiberRoot.set_isScheduled true) urgentRoot)).

(** Two errors trapped for the boundary [7]. *)
Definition twoForOneBoundary : list TrappedError :=
  [mkTrappedError (Some 7%positive) (JsError "first");
   mkTrappedError (Some 7%positive) (JsError "second")].

(** The value [0], thrown where no boundary is. *)
Definition falsyUncaught : list TrappedError :=
  [mkTrappedError None (JsNumber 0)].

(** * Properties *)

(** ** Tactics and store lemmas *)

(** Proof of a frame property [obs s' = obs s] from the generic lemmas. *)
Ltac frame := intros; simpl; try reflexivity; try congruence.

(** Reduce the projections of updated states. *)
Ltac state_simpl :=
  cbn [fibers roots priorityContext shouldBatchUpdates nextUnitOfWork
       nextPriorityLevel nextScheduledRoot lastScheduledRoot
       isAnimationCallbackScheduled isDeferredCallbackScheduled currentOwner
       host updFiber updRoot set_fibers set_roots set_priorityContext
       set_shouldBatchUpdates set_nextUnitOfWork set_nextPriorityLevel
       set_nextScheduledRoot set_lastScheduledRoot
       set_isAnimationCallbackScheduled set_isDeferredCallbackScheduled
       set_currentOwner set_host fst snd] in *.

(** Split a conjunction of eight properties. *)
Ltac split8 :=
  refine (conj _ (conj _ (conj _ (conj _ (conj _ (conj _ (conj _ _))))))).

Lemma upd_same {A} (m : positive -> A) k v : upd m k v k = v.
Proof. unfold upd. rewrite Pos.eqb_refl. reflexivity. Qed.

Lemma upd_other {A} (m : positive -> A) k v k' : k' <> k -> upd m k v k' = m k'.
Proof. unfold upd. intros H. apply Pos.eqb_neq in H. rewrite H. reflexivity. Qed.

(** ** Relations kept by every step of the scheduler *)

Section RelyMonad.
Context {Host : Type}.
Variable R : State Host -> State Host -> Prop.
Hypothesis R_refl : forall s, R s s.
Hypothesis R_trans : forall s1 s2 s3, R s1 s2 -> R s2 s3 -> R s1 s3.

Lemma respects_ret {A} (a : A) : respects R (ret a).
Proof. intros s. apply R_refl. Qed.

Lemma respects_throw {A} (e : JsValue) : respects R (throw (A := A) e).
Proof. intros s. apply R_refl. Qed.

Lemma respects_outOfFuel {A} : respects R (outOfFuel (A := A)).
Proof. intros s. apply R_refl. Qed.

Lemma respects_gets {A} (f : State Host -> A) : respects R (gets f).
Proof. intros s. apply R_refl. Qed.

Lemma respects_deref {A} (what : string) (o : option A) :
  respects R (deref what o).
Proof. destruct o; intros s; apply R_refl. Qed.

Lemma respects_modify (g : State Host -> State Host) :
  (forall s, R s (g s)) -> respects R (modify g).
Proof. intros H s. apply H. Qed.

Lemma respects_bind {A B} (m : M Host A) (k : A -> M Host B) :
  respects R m -> (forall a, respects R (k a)) -> respects R (bind m k).
Proof.
  intros Hm Hk s. unfold bind. specialize (Hm s).
  destruct (m s) as [[a | e | ] s1]; simpl in *; auto.
  apply R_trans with s1; auto. apply Hk.
Qed.

Lemma respects_try_catch {A} (body : M Host A) (handler : JsValue -> M Host A) :
  respects R body -> (forall e, respects R (handler e)) ->
  respects R (try_catch body handler).
Proof.
  intros Hb Hh s. unfold try_catch. specialize (Hb s).
  destruct (body s) as [[a | e | ] s1]; simpl in *; auto.
  apply R_trans with s1; auto. apply Hh.
Qed.

Lemma respects_try_finally {A} (body : M Host A) (fin : M Host unit) :
  respects R body -> respects R fin -> respects R (try_finally body fin).
Proof.
  intros Hb Hf s. unfold try_finally. specialize (Hb s).
  destruct (body s) as [[a | e | ] s1]; simpl in *; auto;
    specialize (Hf s1); destruct (fin s1) as [[[] | e' | ] s2]; simpl in *;
    apply R_trans with s1; auto.
Qed.

End RelyMonad.

Ltac rely_step :=
  lazymatch goal with
  | |- respects _ (ret _) => apply respects_ret; assumption
  | |- respects _ (throw _) => apply respects_throw; assumption
  | |- respects _ outOfFuel => apply respects_outOfFuel; assumption
  | |- respects _ (gets _) => apply respects_gets; assumption
  | |- respects _ (deref _ _) => apply respects_deref; assumption
  | |- respects _ (bind _ _) => apply respects_bind; try assumption; intros
  | |- respects _ (try_catch _ _) =>
      apply respects_try_catch; try assumption; intros
  | |- respects _ (try_finally _ _) =>
      apply respects_try_finally; try assumption
  | |- respects _ (modify _) =>
      apply respects_modify; intros; solve [auto]
  | |- respects _ (if ?b then _ else _) => destruct b
  | |- respects _ (match ?x with _ => _ end) => destruct x
  end.

Ltac rely := repeat rely_step; auto.

Section Rely.
Context {Host : Type} {K : Constants} {E : Env Host}.
Variable R : State Host -> State Host -> Prop.
Hypothesis R_refl : forall s, R s s.
Hypothesis R_trans : forall s1 s2 s3, R s1 s2 -> R s2 s3 -> R s1 s3.

Hypothesis R_fibers : forall v s, R s (set_fibers v s).
Hypothesis R_isScheduled :
  forall r b s, R s (updRoot r (FiberRoot.set_isScheduled b) s).
Hypothesis R_rootNext :
  forall r v s, R s (updRoot r (FiberRoot.set_nextScheduledRoot v) s).
Hypothesis R_rootCurrent :
  forall root wip s,
    stateNode (fibers s wip) = Some root ->
    return_ (fibers s wip) = None ->
    FiberRoot.current (roots s root) <> wip ->
    R s (updRoot root (FiberRoot.set_current wip) s).
Hypothesis R_shouldBatchUpdates : forall v s, R s (set_shouldBatchUpdates v s).
Hypothesis R_priorityContext : forall v s, R s (set_priorityContext v s).
Hypothesis R_nextUnitOfWork : forall v s, R s (set_nextUnitOfWork v s).
Hypothesis R_nextPriorityLevel : forall v s, R s (set_nextPriorityLevel v s).
Hypothesis R_nextScheduledRoot : forall v s, R s (set_nextScheduledRoot v s).
Hypothesis R_lastScheduledRoot : forall v s, R s (set_lastScheduledRoot v s).
Hypothesis R_isAnimationCallbackScheduled :
  forall v s, R s (set_isAnimationCallbackScheduled v s).
Hypothesis R_isDeferredCallbackScheduled :
  forall v s, R s (set_isDeferredCallbackScheduled v s).
Hypothesis R_currentOwner : forall v s, R s (set_currentOwner v s).
Hypothesis R_host : forall v s, R s (set_host v s).

Hypothesis R_beginWork : forall c f p, respects R (beginWork c f p).
Hypothesis R_completeWork : forall c f, respects R (completeWork c f).
Hypothesis R_commitInsertion : forall f, respects R (commitInsertion f).
Hypothesis R_commitDeletion : forall f, respects R (commitDeletion f).
Hypothesis R_commitWork : forall c f, respects R (commitWork c f).
Hypothesis R_commitLifeCycles : forall c f, respects R (commitLifeCycles c f).
Hypothesis R_acknowledge :
  forall b e, respects R (acknowledgeErrorInBoundary b e).

Lemma R_updFiber : forall f g s, R s (updFiber f g s).
Proof. intros. unfold updFiber. apply R_fibers. Qed.
Hint Resolve R_updFiber : core.

Lemma respects_cloneFiberM f p : respects R (cloneFiberM f p).
Proof.
  intros s. unfold cloneFiberM. destruct (cloneFiber f p (fibers s)). simpl.
  apply R_fibers.
Qed.

Lemma respects_trapErrorM f e : respects R (trapErrorM f e).
Proof. unfold trapErrorM. rely. Qed.

Lemma respects_clearEmptyRoots fuel : respects R (clearEmptyRoots fuel).
Proof.
  induction fuel; simpl; rely.
Qed.

Lemma respects_findNextUnitOfWork fuel : respects R (findNextUnitOfWork fuel).
Proof.
  unfold findNextUnitOfWork.
  pose proof respects_clearEmptyRoots. pose proof respects_cloneFiberM.
  rely.
Qed.

Hint Resolve respects_cloneFiberM respects_trapErrorM
  respects_clearEmptyRoots respects_findNextUnitOfWork : core.

Lemma respects_commitMutation ign f all :
  respects R (commitMutation ign f all).
Proof. unfold commitMutation. rely. Qed.
Hint Resolve respects_commitMutation : core.

Lemma respects_commitMutations fuel ign f all :
  respects R (commitMutations fuel ign f all).
Proof.
  revert f all. induction fuel; intros; destruct f; simpl; rely.
Qed.

Lemma respects_commitLifeCyclesPass fuel f all :
  respects R (commitLifeCyclesPass fuel f all).
Proof.
  revert f all. induction fuel; intros; destruct f; simpl; rely.
Qed.
Hint Resolve respects_commitMutations respects_commitLifeCyclesPass : core.

Lemma respects_resetWorkPriority fuel f : respects R (resetWorkPriority fuel f).
Proof. unfold resetWorkPriority. rely. Qed.

Lemma respects_appendEffects f rf : respects R (appendEffects f rf).
Proof. unfold appendEffects. rely. Qed.
Hint Resolve respects_resetWorkPriority respects_appendEffects : core.

Lemma respects_findRootFromBoundary fuel f p :
  respects R (findRootFromBoundary fuel f p).
Proof. revert f. induction fuel; intros; simpl; rely. Qed.
Hint Resolve respects_findRootFromBoundary : core.

Lemma respects_scheduleErrorBoundaryWork fuel f p :
  respects R (scheduleErrorBoundaryWork fuel f p).
Proof. unfold scheduleErrorBoundaryWork. rely. Qed.
Hint Resolve respects_scheduleErrorBoundaryWork : core.

Lemma respects_passErrorToBoundary e v : respects R (passErrorToBoundary e v).
Proof. unfold passErrorToBoundary. rely. Qed.
Hint Resolve respects_passErrorToBoundary : core.

Lemma respects_passErrorsToBoundaries l v :
  respects R (passErrorsToBoundaries l v).
Proof. revert v. induction l; intros; simpl; rely. Qed.
Hint Resolve respects_passErrorsToBoundaries : core.

Lemma respects_surfaceUncaughtError e : respects R (surfaceUncaughtError e).
Proof. unfold surfaceUncaughtError. rely. Qed.
Hint Resolve respects_surfaceUncaughtError : core.

Lemma respects_requestDeferredCallback : respects R requestDeferredCallback.
Proof. unfold requestDeferredCallback. rely. Qed.

Lemma respects_requestAnimationCallback : respects R requestAnimationCallback.
Proof. unfold requestAnimationCallback. rely. Qed.
Hint Resolve respects_requestDeferredCallback
  respects_requestAnimationCallback : core.

Lemma respects_timeRemaining d : respects R (timeRemaining d).
Proof.
  intros s. unfold timeRemaining. destruct (d (host s)). simpl. apply R_host.
Qed.
Hint Resolve respects_timeRemaining : core.

Lemma respects_raiseRootPriority r p : respects R (raiseRootPriority r p).
Proof. unfold raiseRootPriority. rely. Qed.

Lemma respects_appendRoot r : respects R (appendRoot r).
Proof. unfold appendRoot. rely. Qed.
Hint Resolve respects_raiseRootPriority respects_appendRoot : core.

Lemma respects_scheduleDeferredWork r p : respects R (scheduleDeferredWork r p).
Proof. unfold scheduleDeferredWork. rely. Qed.

Lemma respects_scheduleAnimationWork r p :
  respects R (scheduleAnimationWork r p).
Proof. unfold scheduleAnimationWork. rely. Qed.

Lemma respects_markPendingPriority f p : respects R (markPendingPriority f p).
Proof. unfold markPendingPriority. rely. Qed.
Hint Resolve respects_scheduleDeferredWork respects_scheduleAnimationWork
  respects_markPendingPriority : core.

(** The functions that reach the commit of a root. *)
Section WithHandler.
Variable he : list TrappedError -> M Host unit.
Hypothesis R_he : forall l, respects R (he l).

Lemma respects_commitAllWork fuel f ign :
  respects R (commitAllWork he fuel f ign).
Proof. unfold commitAllWork. rely. Qed.
Hint Resolve respects_commitAllWork : core.

(** The last branch of [completeUnitOfWork], entered at a fiber without
    return parent. *)
Lemma respects_commitRoot fuel f ign s :
  return_ (fibers s f) = None -> R s (snd (commitRoot he fuel f ign s)).
Proof.
  intros Hret. unfold commitRoot. unfold bind at 1, gets at 1.
  destruct (stateNode (fibers s f)) as [root|] eqn:Hnode;
    [|apply R_refl].
  unfold bind at 1, deref, ret. unfold bind at 1, gets at 1.
  destruct (Pos.eqb_spec (FiberRoot.current (roots s root)) f) as [Heq|Hne];
    [apply R_refl|].
  unfold bind at 1, modify at 1.
  apply R_trans with (updRoot root (FiberRoot.set_current f) s).
  - apply R_rootCurrent; assumption.
  - assert (H : respects R (commitAllWork he fuel f ign ;;
                            findNextUnitOfWork fuel)) by rely.
    apply H.
Qed.

Lemma respects_completeUnitOfWork fuel : forall f ign,
  respects R (completeUnitOfWork he fuel f ign).
Proof.
  induction fuel as [|fuel IH]; intros f ign s; [apply R_refl|].
  cbn [completeUnitOfWork]. unfold bind at 1, gets at 1. unfold bind at 1.
  pose proof (R_completeWork (alternate (fibers s f)) f s) as H1.
  destruct (completeWork (alternate (fibers s f)) f s) as [[next| |] s1];
    cbn [snd] in H1; try exact H1.
  unfold bind at 1.
  pose proof (respects_resetWorkPriority fuel f s1) as H2.
  destruct (resetWorkPriority fuel f s1) as [[[]| |] s2]; cbn [snd] in H2;
    try (eapply R_trans; eassumption).
  unfold bind at 1, modify at 1. unfold bind at 1, modify at 1.
  unfold bind at 1, gets at 1.
  set (s3 := updFiber f (set_updateQueue None)
               (updFiber f (set_pendingProps None) s2)).
  assert (H3 : R s s3).
  { apply R_trans with s1; [exact H1|]. apply R_trans with s2; [exact H2|].
    subst s3. eapply R_trans; apply R_updFiber. }
  unfold bind at 1.
  destruct (return_ (fibers s3 f)) as [rf|] eqn:Hret.
  - pose proof (respects_appendEffects f rf s3) as H4.
    destruct (appendEffects f rf s3) as [[[]| |] s4]; cbn [snd] in H4;
      try (eapply R_trans; eassumption).
    assert (H5 : R s s4) by (eapply R_trans; eassumption).
    destruct next as [n|]; [exact H5|].
    unfold bind, gets. destruct (sibling (fibers s4 f)); [exact H5|].
    apply R_trans with s4; [exact H5|apply IH].
  - unfold ret at 1. destruct next as [n|]; [exact H3|].
    unfold bind, gets. destruct (sibling (fibers s3 f)); [exact H3|].
    apply R_trans with s3; [exact H3|].
    apply respects_commitRoot. exact Hret.
Qed.
Hint Resolve respects_completeUnitOfWork : core.

Lemma respects_performUnitOfWork fuel f ign :
  respects R (performUnitOfWork he fuel f ign).
Proof. unfold performUnitOfWork. rely. Qed.

End WithHandler.

Section WithPerformUnit.
Variable pu : FiberId -> bool -> M Host (option FiberId).
Hypothesis R_pu : forall f b, respects R (pu f b).

Lemma respects_renderBoundary fuel f : respects R (renderBoundary pu fuel f).
Proof. revert f. induction fuel; intros; destruct f; simpl; rely. Qed.
Hint Resolve respects_renderBoundary : core.

Lemma respects_updateBoundary fuel b next :
  respects R (updateBoundary pu fuel b next).
Proof. unfold updateBoundary. rely. Qed.
Hint Resolve respects_updateBoundary : core.

Lemma respects_updateBoundaries fuel bs next :
  respects R (updateBoundaries pu fuel bs next).
Proof. revert next. induction bs; intros; simpl; rely. Qed.
Hint Resolve respects_updateBoundaries : core.

Lemma respects_handleErrorsLoop fuel next fu :
  respects R (handleErrorsLoop pu fuel next fu).
Proof. revert next fu. induction fuel; intros; destruct next; simpl; rely. Qed.

End WithPerformUnit.

Lemma respects_handleErrors fuel l : respects R (handleErrors fuel l).
Proof.
  revert l. induction fuel; intros; simpl; rely.
  apply respects_handleErrorsLoop. intros.
  apply respects_performUnitOfWork. assumption.
Qed.
Hint Resolve respects_handleErrors respects_performUnitOfWork : core.

Lemma respects_performNextUnit fuel f : respects R (performNextUnit fuel f).
Proof. unfold performNextUnit. rely. Qed.
Hint Resolve respects_performNextUnit : core.

Lemma respects_deferredLoop budget fuel d :
  respects R (deferredLoop budget fuel d).
Proof. induction budget; simpl; rely. Qed.

Lemma respects_animationLoop budget fuel : respects R (animationLoop budget fuel).
Proof. induction budget; simpl; rely. Qed.

Lemma respects_synchronousLoop budget fuel :
  respects R (synchronousLoop budget fuel).
Proof. induction budget; simpl; rely. Qed.
Hint Resolve respects_deferredLoop respects_animationLoop
  respects_synchronousLoop : core.

Lemma respects_performWorkUnsafe fuel p d :
  respects R (performWorkUnsafe fuel p d).
Proof.
  unfold performWorkUnsafe, performSynchronousWorkUnsafe,
    performDeferredWorkUnsafe, performAnimationWorkUnsafe. rely.
Qed.

Lemma respects_handleWorkError fuel e : respects R (handleWorkError fuel e).
Proof. unfold handleWorkError. rely. Qed.
Hint Resolve respects_performWorkUnsafe respects_handleWorkError : core.

Lemma respects_performAndHandleErrors fuel p d :
  respects R (performAndHandleErrors fuel p d).
Proof. unfold performAndHandleErrors. rely. Qed.
Hint Resolve respects_performAndHandleErrors : core.

Lemma respects_performDeferredWork fuel d :
  respects R (performDeferredWork fuel d).
Proof. unfold performDeferredWork. rely. Qed.

Lemma respects_performAnimationWork fuel :
  respects R (performAnimationWork fuel).
Proof. unfold performAnimationWork. rely. Qed.

Lemma respects_performSynchronousWork fuel :
  respects R (performSynchronousWork fuel).
Proof. unfold performSynchronousWork. rely. Qed.
Hint Resolve respects_performSynchronousWork : core.

Lemma respects_scheduleSynchronousWork fuel r :
  respects R (scheduleSynchronousWork fuel r).
Proof. unfold scheduleSynchronousWork. rely. Qed.
Hint Resolve respects_scheduleSynchronousWork : core.

Lemma respects_scheduleWorkAtPriority fuel r p :
  respects R (scheduleWorkAtPriority fuel r p).
Proof. unfold scheduleWorkAtPriority. rely. Qed.
Hint Resolve respects_scheduleWorkAtPriority : core.

Lemma respects_scheduleWork fuel r : respects R (scheduleWork fuel r).
Proof. unfold scheduleWork. rely. Qed.

Lemma respects_scheduleUpdateFrom budget fuel p : forall f,
  respects R (scheduleUpdateFrom budget fuel f p).
Proof. induction budget; intros; simpl; rely. Qed.
Hint Resolve respects_scheduleUpdateFrom : core.

Lemma respects_scheduleUpdate fuel f : respects R (scheduleUpdate fuel f).
Proof. unfold scheduleUpdate. rely. Qed.

Lemma respects_performWithPriority p fn :
  respects R fn -> respects R (performWithPriority p fn).
Proof. intros Hfn. unfold performWithPriority. rely. Qed.

Lemma respects_batchedUpdates {A} fuel (fn : M Host A) :
  respects R fn -> respects R (batchedUpdates fuel fn).
Proof. intros Hfn. unfold batchedUpdates. rely. Qed.

Lemma respects_syncUpdates {A} (fn : M Host A) :
  respects R fn -> respects R (syncUpdates fn).
Proof. intros Hfn. unfold syncUpdates. rely. Qed.

End Rely.

(** ** Pending priorities written along a path *)

Section Marks.
Context {Host : Type} {K : Constants} {E : Env Host}.
Implicit Type s : State Host.

Lemma set_pendingWorkPriority_same f :
  set_pendingWorkPriority (pendingWorkPriority f) f = f.
Proof. destruct f; reflexivity. Qed.

Lemma markStore_one m fs f g :
  markStore m fs [f] g =
    if Pos.eqb g f || same_ref (Some g) (alternate (fs f))
    then set_pendingWorkPriority (m (pendingWorkPriority (fs g))) (fs g)
    else fs g.
Proof.
  unfold markStore, markedBy. cbn [existsb]. rewrite orb_false_r. reflexivity.
Qed.

Lemma markStore_shape m fs l g :
  tag (markStore m fs l g) = tag (fs g) /\
  stateNode (markStore m fs l g) = stateNode (fs g) /\
  return_ (markStore m fs l g) = return_ (fs g) /\
  alternate (markStore m fs l g) = alternate (fs g).
Proof. unfold markStore. destruct (markedBy fs l g); repeat split. Qed.

Lemma markedBy_ext fs fs' l g :
  (forall x, alternate (fs' x) = alternate (fs x)) ->
  markedBy fs' l g = markedBy fs l g.
Proof.
  intros H. unfold markedBy.
  induction l as [|x l IH]; cbn [existsb]; [reflexivity|].
  rewrite H, IH. reflexivity.
Qed.

Lemma markedBy_cons fs x l g :
  markedBy fs (x :: l) g = markedBy fs [x] g || markedBy fs l g.
Proof. unfold markedBy. cbn [existsb]. rewrite orb_false_r. reflexivity. Qed.

Lemma markStore_cons m fs fs1 x l g :
  (forall v, m (m v) = m v) ->
  (forall y, fs1 y = markStore m fs [x] y) ->
  markStore m fs1 l g = markStore m fs (x :: l) g.
Proof.
  intros Hm H1. unfold markStore at 1.
  rewrite (markedBy_ext fs fs1 l g)
    by (intros y; rewrite H1; apply markStore_shape).
  rewrite H1. unfold markStore. rewrite (markedBy_cons fs x l g).
  destruct (markedBy fs [x] g), (markedBy fs l g); simpl; try reflexivity.
  rewrite Hm. reflexivity.
Qed.

Lemma updFiber_frame f (g : Fiber -> Fiber) s :
  set_fibers (fibers s) (updFiber f g s) = s.
Proof. destruct s; reflexivity. Qed.

Lemma set_fibers_trans s s1 s2 :
  set_fibers (fibers s) s1 = s -> set_fibers (fibers s1) s2 = s1 ->
  set_fibers (fibers s) s2 = s.
Proof.
  destruct s, s1, s2. simpl. intros H1 H2.
  inversion H1; inversion H2; subst. reflexivity.
Qed.

Lemma raisedTo_idempotent p v : raisedTo p (raisedTo p v) = raisedTo p v.
Proof.
  unfold raisedTo.
  destruct ((v =? NoWork) || (v >=? p)) eqn:Hv; [|rewrite Hv; reflexivity].
  destruct ((p =? NoWork) || (p >=? p)); reflexivity.
Qed.

(** The guarded assignment of [scheduleUpdate] to one fiber. *)
Lemma raise_fiber p x s :
  exists s',
    (if (pendingWorkPriority (fibers s x) =? NoWork)
        || (pendingWorkPriority (fibers s x) >=? p)
     then modify (updFiber x (set_pendingWorkPriority p))
     else ret tt) s = (Ok tt, s') /\
    (forall g, fibers s' g =
       if Pos.eqb g x
       then set_pendingWorkPriority
              (raisedTo p (pendingWorkPriority (fibers s x))) (fibers s x)
       else fibers s g) /\
    set_fibers (fibers s) s' = s.
Proof.
  unfold raisedTo.
  destruct ((pendingWorkPriority (fibers s x) =? NoWork)
            || (pendingWorkPriority (fibers s x) >=? p)).
  - eexists. split; [reflexivity|]. split; [|destruct s; reflexivity].
    intros g. state_simpl. unfold upd. destruct (Pos.eqb g x); reflexivity.
  - exists s. split; [reflexivity|]. split; [|destruct s; reflexivity].
    intros g. rewrite set_pendingWorkPriority_same.
    destruct (Pos.eqb_spec g x) as [->|]; reflexivity.
Qed.

(** One turn of the loop of [scheduleUpdate]. *)
Lemma markPendingPriority_step p f s :
  exists s1,
    markPendingPriority f p s = (Ok tt, s1) /\
    (forall g, fibers s1 g = markStore (raisedTo p) (fibers s) [f] g) /\
    set_fibers (fibers s) s1 = s.
Proof.
  unfold markPendingPriority. unfold bind at 1, gets at 1. unfold bind at 1.
  destruct (raise_fiber p f s) as (s0 & H0 & Hf0 & Hr0). rewrite H0.
  unfold bind at 1, gets at 1.
  assert (Halt : alternate (fibers s0 f) = alternate (fibers s f))
    by (rewrite Hf0, Pos.eqb_refl; reflexivity).
  rewrite Halt.
  destruct (alternate (fibers s f)) as [a|] eqn:Ha.
  - unfold bind at 1, gets at 1.
    destruct (raise_fiber p a s0) as (s1 & H1 & Hf1 & Hr1). rewrite H1.
    exists s1. split; [reflexivity|]. split.
    + intros g. rewrite markStore_one, Ha, Hf1, !Hf0. simpl.
      destruct (Pos.eqb_spec g a) as [->|Hga].
      * rewrite orb_true_r.
        destruct (Pos.eqb_spec a f) as [->|Haf]; [|reflexivity].
        cbn [pendingWorkPriority set_pendingWorkPriority].
        rewrite raisedTo_idempotent. reflexivity.
      * rewrite orb_false_r.
        destruct (Pos.eqb_spec g f) as [->|]; reflexivity.
    + eapply set_fibers_trans; eauto.
  - exists s0. split; [reflexivity|]. split; [|exact Hr0].
    intros g. rewrite markStore_one, Ha, Hf0. simpl. rewrite orb_false_r.
    destruct (Pos.eqb_spec g f) as [->|]; reflexivity.
Qed.

End Marks.

(** ** findNextUnitOfWork *)

Section RootSelection.
Context {Host : Type} {K : Constants} {E : Env Host}.
Implicit Type s : State Host.

Lemma last_error_cons {A} (a : A) (l : list A) :
  l <> [] -> last_error (a :: l) = last_error l.
Proof.
  unfold last_error. simpl. intros H.
  destruct (rev l) eqn:Hr.
  - apply (f_equal (@rev A)) in Hr. rewrite rev_involutive in Hr. simpl in Hr. contradiction.
  - reflexivity.
Qed.

Lemma last_error_In {A} (a : A) (l : list A) :
  last_error l = Some a -> In a l.
Proof.
  unfold last_error. intros H. apply in_rev.
  destruct (rev l); simpl in H; inversion H. left; reflexivity.
Qed.

Lemma linked_ext rs rs' l :
  (forall r, In r l -> rs' r = rs r) -> linked rs l -> linked rs' l.
Proof.
  induction l as [|r l IH]; simpl; intros Hx H; auto.
  destruct H as [H1 H2]. split.
  - rewrite Hx by auto. exact H1.
  - apply IH; auto.
Qed.

Lemma emptyPrefix_ext s s' l :
  (forall r, rootPriority s' r = rootPriority s r) ->
  emptyPrefix s' l = emptyPrefix s l /\ dropEmpty s' l = dropEmpty s l.
Proof.
  intros H. induction l as [|r l [IH1 IH2]]; simpl; auto.
  rewrite H. destruct (rootPriority s r =? NoWork); split; congruence.
Qed.

Lemma emptyPrefix_incl s l r : In r (emptyPrefix s l) -> In r l.
Proof.
  induction l as [|a l IH]; simpl; auto.
  destruct (rootPriority s a =? NoWork); simpl; intuition.
Qed.

Lemma current_detach (rs : RootId -> FiberRoot.t) r x :
  FiberRoot.current
    (upd (upd rs r (FiberRoot.set_isScheduled false (rs r))) r
       (FiberRoot.set_nextScheduledRoot None
          (upd rs r (FiberRoot.set_isScheduled false (rs r)) r)) x) =
  FiberRoot.current (rs x).
Proof.
  destruct (Pos.eq_dec x r) as [->|Hx].
  - rewrite !upd_same. reflexivity.
  - rewrite !upd_other by assumption. reflexivity.
Qed.

Lemma clearEmptyRoots_spec l : forall s fuel,
  registry s l -> (List.length l <= fuel)%nat ->
  exists returned s',
    clearEmptyRoots fuel s = (Ok returned, s') /\ cleared s l s' returned.
Proof.
  induction l as [|r l IH]; intros s fuel (Hn & Hl & Hk & Hd) Hf.
  - exists false, s. split.
    + destruct fuel; simpl; unfold bind, gets; simpl in *; rewrite Hn; reflexivity.
    + unfold cleared; simpl in *. split8; auto; try contradiction; discriminate.
  - simpl in Hn, Hk. destruct Hk as [Hnext Hk].
    destruct (rootPriority s r =? NoWork) eqn:Hp.
    + destruct fuel as [|fuel]; [simpl in Hf; lia|].
      simpl. unfold bind at 1, gets at 1. rewrite Hn.
      unfold bind at 1, gets at 1. rewrite Hp.
      destruct l as [|r' l'].
      * (* r is the last root *)
        exists true. eexists. split.
        -- unfold bind, gets, modify, ret. simpl.
           unfold last_error in Hl. simpl in Hl. rewrite Hl. simpl.
           rewrite Pos.eqb_refl. reflexivity.
        -- unfold cleared. cbn [emptyPrefix dropEmpty]. rewrite Hp.
           split8; try reflexivity.
           ++ intros x [<-|[]]. simpl. rewrite !upd_same. split; reflexivity.
           ++ intros x Hx. simpl.
              assert (x <> r) by (intros ->; apply Hx; left; reflexivity).
              rewrite !upd_other by assumption. reflexivity.
           ++ intros x. simpl. apply current_detach.
           ++ intros _. split; reflexivity.
           ++ discriminate.
      * (* more roots follow *)
        assert (Hlast : lastScheduledRoot s = last_error (r' :: l')).
        { rewrite Hl. apply last_error_cons. discriminate. }
        inversion Hd as [|? ? Hnotin Hd']; subst.
        assert (Hneq : same_ref (Some r) (lastScheduledRoot s) = false).
        { rewrite Hlast. destruct (last_error (r' :: l')) as [x|] eqn:Hx; auto.
          simpl. apply Pos.eqb_neq. intros ->.
          apply last_error_In in Hx. contradiction. }
        set (s2 := set_nextScheduledRoot (Some r')
                     (updRoot r (FiberRoot.set_nextScheduledRoot None)
                        (updRoot r (FiberRoot.set_isScheduled false) s))).
        assert (Hr2 : forall x, x <> r -> roots s2 x = roots s x).
        { intros x Hx. simpl. rewrite !upd_other by assumption. reflexivity. }
        assert (Hc2 : forall x, FiberRoot.current (roots s2 x) = FiberRoot.current (roots s x)).
        { intros x. simpl. apply current_detach. }
        assert (Hp2 : forall x, rootPriority s2 x = rootPriority s x).
        { intros x. unfold rootPriority. rewrite Hc2. reflexivity. }
        destruct (IH s2 fuel) as (ret' & s' & Hrun & Hcl).
        { split; [reflexivity|]. split; [exact Hlast|]. split; [|exact Hd'].
          apply linked_ext with (roots s); auto.
          intros x Hx. apply Hr2. intros ->. contradiction. }
        { simpl in Hf |- *. lia. }
        exists ret', s'. split.
        -- unfold bind, gets, modify. simpl.
           simpl in Hneq. rewrite Hneq. rewrite !upd_same. simpl.
           rewrite Hnext. simpl. exact Hrun.
        -- destruct (emptyPrefix_ext s s2 (r' :: l') Hp2) as [He1 He2].
           destruct Hcl as (Q1 & Q2 & Q3 & Q4 & Q5 & Q6 & Q7 & Q8).
           rewrite He1 in Q2, Q3. rewrite He2 in Q5, Q6, Q7.
           unfold cleared. cbn [emptyPrefix dropEmpty]. rewrite Hp.
           split8; auto.
           ++ intros x [<-|H]; [|apply Q2; auto].
              rewrite Q3.
              ** simpl. rewrite !upd_same. split; reflexivity.
              ** intros Hin. apply Hnotin. eapply emptyPrefix_incl; eauto.
           ++ intros x Hx. rewrite Q3.
              ** apply Hr2. intros ->. apply Hx. left; reflexivity.
              ** intros Hin. apply Hx. right; exact Hin.
           ++ intros x. rewrite Q4. apply Hc2.
    + exists false, s. split.
      * destruct fuel; simpl; unfold bind, gets, ret; rewrite Hn, Hp; reflexivity.
      * unfold cleared. cbn [emptyPrefix dropEmpty]. rewrite Hp.
        split8; auto; try contradiction; discriminate.
Qed.

Lemma findHighestPriorityRoot_scan l : forall s fuel hr hl,
  linked (roots s) l -> (List.length l <= fuel)%nat ->
  findHighestPriorityRoot fuel s (hd_error l) hr hl =
  Some (fold_left (scanStep (rootPriority s)) l (hr, hl)).
Proof.
  induction l as [|r l IH]; intros s fuel hr hl Hk Hf.
  - destruct fuel; reflexivity.
  - destruct fuel as [|fuel]; [simpl in Hf; lia|].
    destruct Hk as [Hnext Hk]. simpl. rewrite Hnext.
    unfold scanStep at 2. simpl.
    destruct (negb (rootPriority s r =? NoWork) &&
              ((hl =? NoWork) || (hl >? rootPriority s r)));
      apply IH; auto; simpl in Hf; lia.
Qed.

Lemma scanned_step prio seen acc x :
  scanned prio seen acc -> scanned prio (seen ++ [x]) (scanStep prio acc x).
Proof.
  destruct acc as [[r|] hl]; unfold scanned, scanStep; simpl.
  - intros [-> (before & after & -> & Hr & Hb & Ha)].
    destruct (Z.eqb_spec (prio x) NoWork) as [Hx|Hx]; simpl.
    { split; auto. exists before, (after ++ [x]).
      rewrite <- app_assoc. simpl. repeat split; auto.
      intros y Hy. apply in_app_or in Hy. destruct Hy as [Hy|[<-|[]]]; auto. }
    destruct (Z.eqb_spec (prio r) NoWork) as [|_]; [contradiction|]. simpl.
    destruct (Z.gtb_spec (prio r) (prio x)) as [Hgt|Hle]; simpl.
    + split; auto. exists (before ++ r :: after), [].
      repeat split; auto; try (intros y []).
      intros y Hy. apply in_app_or in Hy. destruct Hy as [Hy|[<-|Hy]].
      * destruct (Hb y Hy); [left; auto|right; lia].
      * right; lia.
      * destruct (Ha y Hy); [left; auto|right; lia].
    + split; auto. exists before, (after ++ [x]).
      rewrite <- app_assoc. simpl. repeat split; auto.
      intros y Hy. apply in_app_or in Hy.
      destruct Hy as [Hy|[<-|[]]]; auto; right; lia.
  - intros [-> Hall]. rewrite Z.eqb_refl. simpl. rewrite andb_true_r.
    destruct (Z.eqb_spec (prio x) NoWork) as [Hx|Hx]; simpl.
    + split; auto. intros y Hy. apply in_app_or in Hy.
      destruct Hy as [Hy|[<-|[]]]; auto.
    + split; auto. exists seen, [].
      repeat split; auto; try (intros y []).
Qed.

Lemma scanned_fold prio l : forall seen acc,
  scanned prio seen acc ->
  scanned prio (seen ++ l) (fold_left (scanStep prio) l acc).
Proof.
  induction l as [|x l IH]; intros seen acc H; simpl.
  - rewrite app_nil_r. exact H.
  - replace (seen ++ x :: l) with ((seen ++ [x]) ++ l)
      by (rewrite <- app_assoc; reflexivity).
    apply IH. apply scanned_step. exact H.
Qed.

Lemma emptyPrefix_dropEmpty s l : l = emptyPrefix s l ++ dropEmpty s l.
Proof.
  induction l as [|r l IH]; simpl; auto.
  destruct (rootPriority s r =? NoWork); simpl; congruence.
Qed.

Lemma dropEmpty_head s l r rest :
  dropEmpty s l = r :: rest -> rootPriority s r <> NoWork.
Proof.
  induction l as [|a l IH]; simpl; [discriminate|].
  destruct (Z.eqb_spec (rootPriority s a) NoWork); auto.
  intros H; inversion H; subst; auto.
Qed.

Lemma NoDup_app_disjoint {A} (l1 l2 : list A) x :
  NoDup (l1 ++ l2) -> In x l2 -> ~ In x l1.
Proof.
  induction l1 as [|a l1 IH]; simpl; auto.
  intros H Hx. inversion H; subst. intros [->|H1].
  - apply H2. apply in_or_app. right; exact Hx.
  - exact (IH H3 Hx H1).
Qed.

Lemma NoDup_app_r {A} (l1 l2 : list A) : NoDup (l1 ++ l2) -> NoDup l2.
Proof.
  induction l1; simpl; auto. intros H; inversion H; auto.
Qed.

Lemma cleared_registry s l s' returned :
  registry s l -> cleared s l s' returned -> registry s' (dropEmpty s l).
Proof.
  intros (Hn & Hl & Hk & Hd) (Q1 & Q2 & Q3 & Q4 & Q5 & Q6 & Q7 & Q8).
  pose proof (emptyPrefix_dropEmpty s l) as Hsplit.
  split; [exact Q5|]. split; [exact Q6|]. split.
  - apply linked_ext with (roots s).
    + intros r Hr. apply Q3. rewrite Hsplit in Hd.
      eapply NoDup_app_disjoint; eauto.
    + clear - Hk. induction l as [|a l IH]; simpl; auto.
      destruct (rootPriority s a =? NoWork); auto.
      apply IH. apply Hk.
  - rewrite Hsplit in Hd. eapply NoDup_app_r; eauto.
Qed.

Lemma mostUrgentFirst_least prio l r :
  mostUrgentFirst prio l r ->
  (forall x, In x l -> prio x <= NoWork) ->
  forall x, In x l -> prio r <= prio x.
Proof.
  intros (before & after & -> & Hr & Hb & Ha) Hmax x Hx.
  assert (prio r <= NoWork) by (apply Hmax; apply in_or_app; right; left; auto).
  apply in_app_or in Hx. destruct Hx as [Hx|[<-|Hx]]; [| lia |].
  - destruct (Hb x Hx); lia.
  - destruct (Ha x Hx); lia.
Qed.

(** C3. [findNextUnitOfWork] detaches the leading roots without pending work
    (their [isScheduled] flag and [nextScheduledRoot] link are cleared, the
    other roots are untouched and the registry holds the roots that remain),
    then picks among the remaining roots the first of those with the most
    urgent pending priority, sets [nextPriorityLevel] to that priority and
    returns the clone of that root's current fiber; with no root left it
    returns [null] and sets [nextPriorityLevel] to [NoWork].  Where [NoWork]
    is above every pending priority, the root picked has the numerically
    smallest pending priority of the remaining roots. *)
Theorem findNextUnitOfWork_picks_most_urgent_root s l fuel :
  registry s l -> (List.length l <= fuel)%nat ->
  exists result s',
    findNextUnitOfWork fuel s = (result, s') /\
    (forall r, In r (emptyPrefix s l) ->
       FiberRoot.isScheduled (roots s' r) = false /\
       FiberRoot.nextScheduledRoot (roots s' r) = None) /\
    (forall r, ~ In r (emptyPrefix s l) -> roots s' r = roots s r) /\
    registry s' (dropEmpty s l) /\
    match dropEmpty s l with
    | [] =>
      result = Ok None /\ nextPriorityLevel s' = NoWork /\
      fibers s' = fibers s
    | _ :: _ =>
      exists r,
        mostUrgentFirst (rootPriority s) (dropEmpty s l) r /\
        ((forall x, In x (dropEmpty s l) -> rootPriority s x <= NoWork) ->
         forall x, In x (dropEmpty s l) -> rootPriority s r <= rootPriority s x) /\
        nextPriorityLevel s' = rootPriority s r /\
        result =
          Ok (Some (fst (cloneFiber (FiberRoot.current (roots s r))
                           (rootPriority s r) (fibers s)))) /\
        fibers s' =
          snd (cloneFiber (FiberRoot.current (roots s r))
                 (rootPriority s r) (fibers s))
    end.
Proof.
  intros Hreg Hf.
  destruct (clearEmptyRoots_spec l s fuel Hreg Hf) as (returned & s1 & Hrun & Hcl).
  pose proof (cleared_registry _ _ _ _ Hreg Hcl) as Hreg1.
  destruct Hcl as (Q1 & Q2 & Q3 & Q4 & Q5 & Q6 & Q7 & Q8).
  unfold findNextUnitOfWork. unfold bind at 1. rewrite Hrun.
  destruct returned.
  - destruct (Q7 eq_refl) as [Hrest Hnpl].
    exists (Ok None), s1.
    split; [reflexivity|]. split; [exact Q2|]. split; [exact Q3|].
    split; [exact Hreg1|]. rewrite Hrest. repeat split; auto.
  - assert (Hprio : forall x, rootPriority s1 x = rootPriority s x).
    { intros x. unfold rootPriority. rewrite Q1, Q4. reflexivity. }
    assert (Hlen : (List.length (dropEmpty s l) <= fuel)%nat).
    { rewrite (emptyPrefix_dropEmpty s l) in Hf. rewrite length_app in Hf. lia. }
    pose proof Hreg1 as (R1 & R2 & R3 & R4).
    pose proof (findHighestPriorityRoot_scan _ s1 fuel None NoWork R3 Hlen) as Hscan.
    rewrite <- R1 in Hscan.
    pose proof (scanned_fold (rootPriority s1) (dropEmpty s l) [] (None, NoWork)) as Hinv.
    simpl in Hinv. specialize (Hinv (conj eq_refl (fun x (H : False) => match H with end))).
    unfold bind, gets. cbn [fst snd]. rewrite Hscan.
    destruct (fold_left (scanStep (rootPriority s1)) (dropEmpty s l) (None, NoWork))
      as [[r|] hl] eqn:Hfold; unfold scanned in Hinv; simpl in Hinv.
    + destruct Hinv as [-> Hmost].
      destruct (dropEmpty s l) as [|r0 rest] eqn:Hrest.
      { destruct Hmost as (b & a & Hnil & _). destruct b; discriminate. }
      unfold modify, cloneFiberM, ret. simpl.
      rewrite Q1, Q4, Hprio.
      destruct (cloneFiber (FiberRoot.current (roots s r)) (rootPriority s r) (fibers s))
        as [wip fs] eqn:Hclone.
      eexists. eexists. split; [reflexivity|]. simpl.
      assert (Hmost' : mostUrgentFirst (rootPriority s) (r0 :: rest) r).
      { destruct Hmost as (b & a & Hl & Hr & Hb & Ha). exists b, a.
        rewrite <- !Hprio. repeat split; auto;
          intros x Hx; rewrite <- !Hprio; auto. }
      split; [exact Q2|]. split; [exact Q3|].
      split; [exact Hreg1|].
      exists r. split; [exact Hmost'|]. split.
      * exact (mostUrgentFirst_least _ _ _ Hmost').
      * rewrite Hclone. repeat split; reflexivity.
    + destruct Hinv as [-> Hall].
      destruct (dropEmpty s l) as [|r0 rest] eqn:Hrest.
      * unfold modify, ret. simpl. eexists. eexists.
        split; [reflexivity|]. simpl.
        split; [exact Q2|]. split; [exact Q3|].
        split; [exact Hreg1|]. repeat split; auto.
      * exfalso. apply (dropEmpty_head _ _ _ _ Hrest).
        rewrite <- Hprio. apply Hall. left; reflexivity.
Qed.

End RootSelection.

(** ** Scheduling calls, scoped priority, and the error handler of the work loops *)

Section ContextAndCursor.
Context {Host : Type} {K : Constants} {E : Env Host}.
Implicit Type s : State Host.

Lemma scheduleAnimationWork_cursor root p s :
  nextUnitOfWork (snd (scheduleAnimationWork root p s)) = nextUnitOfWork s.
Proof.
  apply (respects_scheduleAnimationWork
           (fun s s' => nextUnitOfWork s' = nextUnitOfWork s)); frame.
Qed.

(** [findNextUnitOfWork] neither reads nor writes [nextUnitOfWork]. *)
Lemma clearEmptyRoots_cursor fuel x s :
  clearEmptyRoots fuel (set_nextUnitOfWork x s) =
    (fst (clearEmptyRoots fuel s),
     set_nextUnitOfWork x (snd (clearEmptyRoots fuel s))).
Proof.
  revert s. induction fuel as [|fuel IH]; intros s; cbn [clearEmptyRoots];
    unfold bind, gets, modify, ret, outOfFuel, rootPriority; state_simpl;
    (destruct (nextScheduledRoot s) as [r|]; [|reflexivity]); state_simpl;
    (destruct (pendingWorkPriority (fibers s (FiberRoot.current (roots s r)))
               =? NoWork); [|reflexivity]); state_simpl;
    [reflexivity|].
  destruct (same_ref (Some r) (lastScheduledRoot s)); [reflexivity|].
  match goal with
  | |- _ = (fst (clearEmptyRoots _ ?s'), _) => exact (IH s')
  end.
Qed.

Lemma findHighestPriorityRoot_cursor fuel x s root best level :
  findHighestPriorityRoot fuel (set_nextUnitOfWork x s) root best level =
    findHighestPriorityRoot fuel s root best level.
Proof.
  revert root best level. induction fuel as [|fuel IH]; intros root best level;
    destruct root as [r|]; cbn [findHighestPriorityRoot]; try reflexivity.
  unfold rootPriority. state_simpl.
  destruct (negb _ && _); apply IH.
Qed.

Lemma findNextUnitOfWork_cursor fuel x s :
  findNextUnitOfWork fuel (set_nextUnitOfWork x s) =
    (fst (findNextUnitOfWork fuel s),
     set_nextUnitOfWork x (snd (findNextUnitOfWork fuel s))).
Proof.
  unfold findNextUnitOfWork, bind.
  rewrite clearEmptyRoots_cursor.
  destruct (clearEmptyRoots fuel s) as [[[|]| |] s1]; cbn [fst snd];
    try reflexivity.
  unfold gets. state_simpl.
  rewrite findHighestPriorityRoot_cursor.
  destruct (findHighestPriorityRoot fuel s1 (nextScheduledRoot s1) None NoWork)
    as [[[r|] level]|]; try reflexivity.
  unfold modify, cloneFiberM, ret. state_simpl.
  destruct (cloneFiber _ level (fibers s1)); reflexivity.
Qed.

(** A flush that starts with [nextUnitOfWork = findNextUnitOfWork()] runs the
    same from any value of [nextUnitOfWork]. *)
Lemma restart_from_the_roots {A} fuel x (k : M Host A) found s s1 :
  findNextUnitOfWork fuel s = (Ok found, s1) ->
  (found <- findNextUnitOfWork fuel ;;
   modify (set_nextUnitOfWork found) ;; k) (set_nextUnitOfWork x s) =
  (found <- findNextUnitOfWork fuel ;;
   modify (set_nextUnitOfWork found) ;; k) s.
Proof.
  intros Hfind. unfold bind at 1 3. rewrite findNextUnitOfWork_cursor.
  rewrite Hfind. reflexivity.
Qed.

(** C1, amended.  [scheduleDeferredWork] called at a priority at least as
    urgent as [nextPriorityLevel] sets [nextUnitOfWork] to [null], and
    [scheduleWorkAtPriority] routes every priority above [AnimationPriority]
    to it; [scheduleAnimationWork] leaves [nextUnitOfWork] as it is, and so
    does [scheduleSynchronousWork] when it only enqueues the root.  The
    animation and the synchronous flush do not depend on it: they start by
    a scan of the roots, whatever [nextUnitOfWork] was. *)
Theorem scheduleDeferredWork_resets_cursor fuel root p s :
  (p <= nextPriorityLevel s ->
   nextUnitOfWork (snd (scheduleDeferredWork root p s)) = None) /\
  ((p =? NoWork) = false -> (p =? SynchronousPriority) = false ->
   AnimationPriority < p ->
   scheduleWorkAtPriority fuel (Some root) p s = scheduleDeferredWork root p s) /\
  nextUnitOfWork (snd (scheduleAnimationWork root p s)) = nextUnitOfWork s /\
  (FiberRoot.isScheduled (roots s root) = true \/
   lastScheduledRoot s <> None \/ shouldBatchUpdates s = true ->
   nextUnitOfWork (snd (scheduleSynchronousWork fuel root s)) = nextUnitOfWork s) /\
  (forall found s1 cursor,
     findNextUnitOfWork fuel s = (Ok found, s1) ->
     performAnimationWorkUnsafe fuel (set_nextUnitOfWork cursor s) =
       performAnimationWorkUnsafe fuel s /\
     performSynchronousWorkUnsafe fuel (set_nextUnitOfWork cursor s) =
       performSynchronousWorkUnsafe fuel s).
Proof.
  split; [|split; [|split; [|split]]].
  - intros Hp. apply Z.leb_le in Hp.
    unfold scheduleDeferredWork. unfold bind at 1, gets at 1.
    unfold bind at 1. rewrite Hp. unfold modify at 1.
    set (s1 := set_nextUnitOfWork None s).
    change None with (nextUnitOfWork s1).
    match goal with |- nextUnitOfWork (snd (?m s1)) = _ =>
      apply (fun H => H s1 : nextUnitOfWork (snd (m s1)) = nextUnitOfWork s1) end.
    change (respects (fun s s' => nextUnitOfWork s' = nextUnitOfWork s)
              (raiseRootPriority root p ;;
               scheduled <- gets (fun s => FiberRoot.isScheduled (roots s root)) ;;
               (if scheduled : bool then ret tt
                else modify (updRoot root (FiberRoot.set_isScheduled true)) ;;
                     appendRoot root) ;;
               requestDeferredCallback)).
    assert (Ht : forall a b c : State Host,
               nextUnitOfWork b = nextUnitOfWork a ->
               nextUnitOfWork c = nextUnitOfWork b ->
               nextUnitOfWork c = nextUnitOfWork a) by (intros; congruence).
    assert (Hr : forall a : State Host, nextUnitOfWork a = nextUnitOfWork a)
      by reflexivity.
    repeat rely_step;
      first [ apply respects_raiseRootPriority
            | apply respects_appendRoot
            | apply respects_requestDeferredCallback ]; frame.
  - intros H1 H2 H3. unfold scheduleWorkAtPriority. rewrite H1, H2.
    apply Z.leb_gt in H3. rewrite H3. reflexivity.
  - apply scheduleAnimationWork_cursor.
  - intros H. unfold scheduleSynchronousWork, bind, gets, modify, ret.
    state_simpl.
    destruct (FiberRoot.isScheduled (roots s root)); [reflexivity|].
    state_simpl.
    destruct (lastScheduledRoot s); [reflexivity|].
    destruct H as [H|[H|H]]; try discriminate; try congruence.
    state_simpl. rewrite H. reflexivity.
  - intros found s1 cursor Hfind. split.
    + exact (restart_from_the_roots fuel cursor _ found s s1 Hfind).
    + exact (restart_from_the_roots fuel cursor _ found s s1 Hfind).
Qed.

(** C8.  [performWithPriority] and [syncUpdates] run [fn] under the requested
    priority context and, whether [fn] returns or throws, end with the result
    of [fn] and the priority context of before the call. *)
Theorem performWithPriority_restores_context
  (A : Type) (p : Z) (fn : M Host unit) (fn' : M Host A) s :
  (forall r s', fn (set_priorityContext p s) = (r, s') -> r <> OutOfFuel ->
     performWithPriority p fn s =
       (r, set_priorityContext (priorityContext s) s')) /\
  (forall r s',
     fn' (set_priorityContext SynchronousPriority s) = (r, s') ->
     r <> OutOfFuel ->
     syncUpdates fn' s = (r, set_priorityContext (priorityContext s) s')).
Proof.
  split; intros r s' Hfn Hr.
  - unfold performWithPriority, bind, gets, modify, try_finally. simpl.
    rewrite Hfn. destruct r; try reflexivity. congruence.
  - unfold syncUpdates, bind, gets, modify, try_finally. simpl.
    rewrite Hfn. destruct r; try reflexivity. congruence.
Qed.

Lemma set_nextUnitOfWork_same s :
  nextUnitOfWork s = None -> set_nextUnitOfWork None s = s.
Proof. destruct s. simpl. intros ->. reflexivity. Qed.

(** C10.  When the work loop run by [performAndHandleErrors] throws with
    [nextUnitOfWork] being [null], the error is rethrown and the state is the
    one of the throw; otherwise [nextUnitOfWork] is reset to [null] and
    [handleErrors] runs on the one error trapped for the failed unit. *)
Theorem performAndHandleErrors_traps_failed_unit fuel p d s e s1 :
  performWorkUnsafe fuel p d s = (Threw e, s1) ->
  performAndHandleErrors fuel p d s =
    match nextUnitOfWork s1 with
    | None => (Threw e, s1)
    | Some failed =>
      handleErrors fuel [trapError failed e (fibers s1)]
        (set_nextUnitOfWork None s1)
    end.
Proof.
  intros H. unfold performAndHandleErrors, try_catch. rewrite H.
  unfold handleWorkError, bind, gets, modify, trapErrorM. simpl.
  destruct (nextUnitOfWork s1) eqn:Hn; simpl.
  - reflexivity.
  - unfold throw. rewrite set_nextUnitOfWork_same; auto.
Qed.

End ContextAndCursor.

(** ** Batching and the current fiber of a root *)

Section BatchingAndCommit.
Context {Host : Type} {K : Constants} {E : Env Host}.
Implicit Type s : State Host.

Lemma staysBatched_refl s : staysBatched s s.
Proof. intros H; exact H. Qed.

Lemma staysBatched_trans s1 s2 s3 :
  staysBatched s1 s2 -> staysBatched s2 s3 -> staysBatched s1 s3.
Proof. unfold staysBatched. auto. Qed.

Lemma sameCurrent_refl s : sameCurrent s s.
Proof. intros r; reflexivity. Qed.

Lemma sameCurrent_trans s1 s2 s3 :
  sameCurrent s1 s2 -> sameCurrent s2 s3 -> sameCurrent s1 s3.
Proof. unfold sameCurrent. intros H1 H2 r. rewrite H2. apply H1. Qed.

Lemma sameCurrent_isScheduled r b s :
  sameCurrent s (updRoot r (FiberRoot.set_isScheduled b) s).
Proof.
  intros x. simpl. unfold upd. destruct (Pos.eqb x r) eqn:Hx; auto.
  apply Pos.eqb_eq in Hx. subst. reflexivity.
Qed.

Lemma sameCurrent_rootNext r v s :
  sameCurrent s (updRoot r (FiberRoot.set_nextScheduledRoot v) s).
Proof.
  intros x. simpl. unfold upd. destruct (Pos.eqb x r) eqn:Hx; auto.
  apply Pos.eqb_eq in Hx. subst. reflexivity.
Qed.

(** Discharge the premises of a generic frame lemma for [staysBatched]. *)
Ltac batched :=
  first [ apply staysBatched_refl | exact staysBatched_trans
        | assumption | (intros; intro; assumption) ].

Lemma scheduleSynchronousWork_batched fuel root s :
  shouldBatchUpdates s = true ->
  scheduleSynchronousWork fuel root s = (Ok tt, enqueueSynchronous root s).
Proof.
  intros Hb.
  unfold scheduleSynchronousWork, enqueueSynchronous, bind, gets, modify, ret.
  state_simpl.
  destruct (FiberRoot.isScheduled (roots s root)); [reflexivity|].
  state_simpl.
  destruct (lastScheduledRoot s); [reflexivity|].
  state_simpl. rewrite Hb. reflexivity.
Qed.

(** C9.  [performSynchronousWork] runs the flush with [shouldBatchUpdates]
    set and ends, whether the flush returns or throws, with the value of
    before the call; nothing the flush runs clears the flag, as long as the
    collaborators do not; and with the flag set [scheduleSynchronousWork]
    only marks and enqueues the root: it starts no flush. *)
Theorem performSynchronousWork_batches_nested_updates fuel s :
  (forall r s1,
     performAndHandleErrors fuel SynchronousPriority None
       (set_shouldBatchUpdates true s) = (r, s1) ->
     r <> OutOfFuel ->
     performSynchronousWork fuel s =
       (r, set_shouldBatchUpdates (shouldBatchUpdates s) s1)) /\
  (collaborators_respect staysBatched ->
   forall p d f ign l,
     respects staysBatched (performAndHandleErrors fuel p d) /\
     respects staysBatched (performUnitOfWork (handleErrors fuel) fuel f ign) /\
     respects staysBatched (commitAllWork (handleErrors fuel) fuel f ign) /\
     respects staysBatched (handleErrors fuel l)) /\
  (shouldBatchUpdates s = true ->
   forall root,
     scheduleSynchronousWork fuel root s = (Ok tt, enqueueSynchronous root s)).
Proof.
  split; [|split].
  - intros r s1 Hrun Hr.
    unfold performSynchronousWork, bind, gets, modify, try_finally.
    state_simpl. rewrite Hrun. destruct r; try reflexivity. congruence.
  - intros (H1 & H2 & H3 & H4 & H5 & H6 & H7) p d f ign l.
    assert (Hhe : forall fuel l, respects staysBatched (handleErrors fuel l)).
    { intros. apply respects_handleErrors; batched. }
    split; [|split; [|split]].
    + apply respects_performAndHandleErrors; batched.
    + apply respects_performUnitOfWork; try batched. apply Hhe.
    + apply respects_commitAllWork; try batched. apply Hhe.
    + apply Hhe.
  - intros Hb root. apply scheduleSynchronousWork_batched. exact Hb.
Qed.

(** Discharge the premises of a generic frame lemma for [sameCurrent]. *)
Ltac current :=
  first [ apply sameCurrent_refl | exact sameCurrent_trans
        | apply sameCurrent_isScheduled | apply sameCurrent_rootNext
        | assumption | (intros; intro; reflexivity) ].

Lemma sameCurrent_updFiber f g s : sameCurrent s (updFiber f g s).
Proof. intros r. reflexivity. Qed.

Lemma completeUnitOfWork_commits_at_root he ign :
  (forall c f, respects sameCurrent (completeWork c f)) ->
  forall fuel wip s r s',
    completeUnitOfWork he fuel wip ign s = (r, s') ->
    sameCurrent s s' \/
    exists wip' fuel' s1,
      sameCurrent s s1 /\ return_ (fibers s1 wip') = None /\
      commitRoot he fuel' wip' ign s1 = (r, s').
Proof.
  intros Hcw. induction fuel as [|fuel IH]; intros wip s r s' Hrun.
  - left. inversion Hrun; subst. apply sameCurrent_refl.
  - cbn [completeUnitOfWork] in Hrun.
    unfold bind at 1, gets at 1 in Hrun. unfold bind at 1 in Hrun.
    pose proof (Hcw (alternate (fibers s wip)) wip s) as H1.
    destruct (completeWork (alternate (fibers s wip)) wip s) as [[next| |] s1];
      cbn [snd] in H1;
      [|left; inversion Hrun; subst; exact H1
       |left; inversion Hrun; subst; exact H1].
    unfold bind at 1 in Hrun.
    assert (H2 : respects sameCurrent (resetWorkPriority fuel wip))
      by (apply respects_resetWorkPriority; current).
    specialize (H2 s1).
    destruct (resetWorkPriority fuel wip s1) as [[[]| |] s2]; cbn [snd] in H2;
      [|left; inversion Hrun; subst; eapply sameCurrent_trans; eauto
       |left; inversion Hrun; subst; eapply sameCurrent_trans; eauto].
    unfold bind at 1, modify at 1 in Hrun.
    unfold bind at 1, modify at 1 in Hrun.
    unfold bind at 1, gets at 1 in Hrun.
    set (s3 := updFiber wip (set_updateQueue None)
                 (updFiber wip (set_pendingProps None) s2)) in *.
    assert (H3 : sameCurrent s s3).
    { eapply sameCurrent_trans; [exact H1|].
      eapply sameCurrent_trans; [exact H2|]. intros x; reflexivity. }
    unfold bind at 1 in Hrun.
    destruct (return_ (fibers s3 wip)) as [rf|] eqn:Hret.
    + assert (H4 : respects sameCurrent (appendEffects wip rf))
        by (apply respects_appendEffects; current).
      specialize (H4 s3).
      destruct (appendEffects wip rf s3) as [[[]| |] s4]; cbn [snd] in H4;
        [|left; inversion Hrun; subst; eapply sameCurrent_trans; eauto
         |left; inversion Hrun; subst; eapply sameCurrent_trans; eauto].
      assert (H5 : sameCurrent s s4) by (eapply sameCurrent_trans; eauto).
      destruct next as [n|]; [left; inversion Hrun; subst; exact H5|].
      unfold bind, gets in Hrun.
      destruct (sibling (fibers s4 wip));
        [left; inversion Hrun; subst; exact H5|].
      destruct (IH rf s4 r s' Hrun) as [Hl|(wip' & fuel' & s5 & Hs & Hr & Heq)].
      * left. eapply sameCurrent_trans; eauto.
      * right. exists wip', fuel', s5. split; [|split]; auto.
        eapply sameCurrent_trans; eauto.
    + unfold ret at 1 in Hrun.
      destruct next as [n|]; [left; inversion Hrun; subst; exact H3|].
      unfold bind, gets in Hrun.
      destruct (sibling (fibers s3 wip));
        [left; inversion Hrun; subst; exact H3|].
      right. exists wip, fuel, s3. auto.
Qed.

Lemma completeUnitOfWork_at_root he fuel wip ign s s1 s2 :
  completeWork (alternate (fibers s wip)) wip s = (Ok None, s1) ->
  resetWorkPriority fuel wip s1 = (Ok tt, s2) ->
  return_ (fibers s2 wip) = None -> sibling (fibers s2 wip) = None ->
  completeUnitOfWork he (S fuel) wip ign s =
    commitRoot he fuel wip ign
      (updFiber wip (set_updateQueue None)
         (updFiber wip (set_pendingProps None) s2)).
Proof.
  intros Hcw Hreset Hret Hsib.
  cbn [completeUnitOfWork]. unfold bind at 1, gets at 1. unfold bind at 1.
  rewrite Hcw. unfold bind at 1. rewrite Hreset.
  unfold bind at 1, modify at 1. unfold bind at 1, modify at 1.
  unfold bind at 1, gets at 1. state_simpl. rewrite !upd_same.
  destruct (fibers s2 wip) eqn:Hf. simpl in Hret, Hsib. subst. simpl.
  unfold bind at 1, ret at 1. unfold bind at 1, gets at 1.
  state_simpl. rewrite !upd_same. rewrite Hf. simpl. reflexivity.
Qed.

Lemma currentByCommit_refl s : currentByCommit s s.
Proof. apply byCommit_keep. apply sameCurrent_refl. Qed.

(** Where the current fiber of a root differs after such a run, it was
    assigned by a commit step. *)
Lemma currentByCommit_assigned s1 s2 :
  currentByCommit s1 s2 ->
  forall r,
    FiberRoot.current (roots s2 r) = FiberRoot.current (roots s1 r) \/
    exists s0 wip,
      stateNode (fibers s0 wip) = Some r /\
      return_ (fibers s0 wip) = None /\
      FiberRoot.current (roots s0 r) <> wip /\
      FiberRoot.current (roots s2 r) = wip.
Proof.
  induction 1 as [s s' Hkeep|s root wip Hnode Hret Hne|s1 s2 s3 _ IH1 _ IH2];
    intros r.
  - left. apply Hkeep.
  - destruct (Pos.eq_dec r root) as [->|Hr].
    + right. exists s, wip. repeat split; auto.
      simpl. rewrite upd_same. reflexivity.
    + left. simpl. rewrite upd_other by exact Hr. reflexivity.
  - destruct (IH2 r) as [H2|H2]; [|right; exact H2].
    destruct (IH1 r) as [H1|(s0 & wip & Hn & Hr & Hne & Hc)].
    + left. congruence.
    + right. exists s0, wip. repeat split; auto. congruence.
Qed.

(** Discharge the premises of a generic frame lemma for
    [currentByCommit]. *)
Ltac by_commit :=
  first [ exact currentByCommit_refl | exact byCommit_trans
        | assumption
        | (intros; apply byCommit_commit; assumption)
        | (intros; apply byCommit_keep; current) ].


End BatchingAndCommit.

(** ** Pending priorities *)

Section PriorityKept.
Context {Host : Type} {K : Constants} {E : Env Host}.
Implicit Type s : State Host.

Ltac split_ifs :=
  repeat (state_simpl;
          match goal with
          | |- context [if ?b then _ else _] => destruct b eqn:?
          | |- context [match ?x with Some _ => _ | None => _ end] =>
            destruct x eqn:?
          end).

(** The guarded assignment computes the more urgent priority. *)
Lemma guard_urgencyMin (cur p : Z) :
  p <> NoWork ->
  (if (cur =? NoWork) || (p <=? cur) then p else cur) = urgencyMin cur p.
Proof.
  intros Hp. unfold urgencyMin.
  destruct (Z.eqb_spec cur NoWork); simpl; [reflexivity|].
  destruct (Z.eqb_spec p NoWork); [contradiction|].
  destruct (Z.leb_spec p cur); lia.
Qed.

Lemma raisedTo_urgencyMin (cur p : Z) :
  p <> NoWork -> raisedTo p cur = urgencyMin cur p.
Proof.
  intros Hp. unfold raisedTo. rewrite Z.geb_leb. apply guard_urgencyMin.
  exact Hp.
Qed.

Lemma raisedTo_guard (cur p : Z) :
  raisedTo p cur = cur \/
  (raisedTo p cur = p /\ (cur = NoWork \/ p <= cur)).
Proof.
  unfold raisedTo. destruct (Z.eqb_spec cur NoWork); simpl.
  - right. auto.
  - rewrite Z.geb_leb. destruct (Z.leb_spec p cur); [right|left]; auto.
Qed.

Lemma raiseRootPriority_raises root p s :
  let cur := FiberRoot.current (roots s root) in
  let s' := snd (raiseRootPriority root p s) in
  pendingWorkPriority (fibers s' cur) = raisedTo p (rootPriority s root) /\
  (forall g, g <> cur -> fibers s' g = fibers s g).
Proof.
  intros cur s'. subst s'. unfold raiseRootPriority, bind, gets, modify, ret.
  state_simpl. unfold raisedTo. rewrite Z.geb_leb.
  destruct ((rootPriority s root =? NoWork) || (p <=? rootPriority s root));
    state_simpl.
  - split.
    + fold cur. rewrite upd_same. reflexivity.
    + intros g Hg. fold cur. rewrite upd_other; auto.
  - split; reflexivity.
Qed.

Lemma scheduleDeferredWork_fibers root p s :
  fibers (snd (scheduleDeferredWork root p s)) =
  fibers (snd (raiseRootPriority root p s)).
Proof.
  unfold scheduleDeferredWork, raiseRootPriority, appendRoot,
    requestDeferredCallback, bind, gets, modify, ret.
  unfold rootPriority. split_ifs; reflexivity.
Qed.

Lemma scheduleAnimationWork_fibers root p s :
  fibers (snd (scheduleAnimationWork root p s)) =
  fibers (snd (raiseRootPriority root p s)).
Proof.
  unfold scheduleAnimationWork, raiseRootPriority, appendRoot,
    requestAnimationCallback, bind, gets, modify, ret.
  unfold rootPriority. split_ifs; reflexivity.
Qed.

Lemma neverLessUrgent_refl p s : neverLessUrgent p s s.
Proof. intros g. left; reflexivity. Qed.

Lemma neverLessUrgent_trans p s1 s2 s3 :
  neverLessUrgent p s1 s2 -> neverLessUrgent p s2 s3 ->
  neverLessUrgent p s1 s3.
Proof.
  intros H1 H2 g.
  destruct (H1 g) as [Ha|[Ha Ga]], (H2 g) as [Hb|[Hb Gb]].
  - left. congruence.
  - right. split; [exact Hb|]. rewrite <- Ha. exact Gb.
  - right. split; [congruence|exact Ga].
  - right. split; [exact Hb|exact Ga].
Qed.

(** What the relation says in the urgency order. *)
Lemma neverLessUrgent_order p s s' :
  neverLessUrgent p s s' -> keepsUrgency p s s'.
Proof.
  intros H g. destruct (H g) as [Hg|[Hg Hguard]]; split.
  - rewrite Hg. intros (_ & _ & Hlt). lia.
  - intros _. left. exact Hg.
  - rewrite Hg. intros (_ & Hold & Hlt). destruct Hguard; [contradiction|lia].
  - intros Hp. right. rewrite Hg. unfold urgencyMin.
    destruct (Z.eqb_spec (pendingWorkPriority (fibers s g)) NoWork);
      [reflexivity|].
    destruct (Z.eqb_spec p NoWork); [contradiction|].
    destruct Hguard; [contradiction|lia].
Qed.

Lemma raiseRootPriority_neverLessUrgent root p s :
  neverLessUrgent p s (snd (raiseRootPriority root p s)).
Proof.
  intros g.
  destruct (raiseRootPriority_raises root p s) as [H1 H2].
  destruct (Pos.eq_dec g (FiberRoot.current (roots s root))) as [->|Hg].
  - rewrite H1. apply raisedTo_guard.
  - left. rewrite H2; auto.
Qed.

Lemma markPendingPriority_neverLessUrgent f p s :
  neverLessUrgent p s (snd (markPendingPriority f p s)).
Proof.
  destruct (markPendingPriority_step p f s) as (s1 & Hrun & Hfs & _).
  rewrite Hrun. cbn [snd]. intros g. rewrite Hfs. unfold markStore.
  destruct (markedBy (fibers s) [f] g); [|left; reflexivity].
  cbn [pendingWorkPriority set_pendingWorkPriority]. apply raisedTo_guard.
Qed.

Lemma enqueueSynchronous_fibers root s :
  fibers (enqueueSynchronous root s) =
  upd (fibers s) (FiberRoot.current (roots s root))
    (set_pendingWorkPriority SynchronousPriority
       (fibers s (FiberRoot.current (roots s root)))).
Proof.
  unfold enqueueSynchronous. state_simpl.
  destruct (FiberRoot.isScheduled (roots s root)); [reflexivity|].
  state_simpl. destruct (lastScheduledRoot s); reflexivity.
Qed.

Lemma scheduleWorkAtPriority_neverLessUrgent fuel root p s :
  batchedAtSync p s ->
  neverLessUrgent p s (snd (scheduleWorkAtPriority fuel root p s)).
Proof.
  intros Hsync. unfold scheduleWorkAtPriority.
  destruct (p =? NoWork); [apply neverLessUrgent_refl|].
  destruct (p =? SynchronousPriority) eqn:Hs.
  - destruct root as [r|]; [|apply neverLessUrgent_refl].
    destruct (Hsync Hs) as [Hb Hfloor].
    rewrite (scheduleSynchronousWork_batched fuel r s Hb). cbn [snd].
    apply Z.eqb_eq in Hs. subst p.
    intros g. rewrite enqueueSynchronous_fibers. unfold upd.
    destruct (Pos.eqb_spec g (FiberRoot.current (roots s r))); [|auto].
    subst. right. split; [reflexivity|]. apply Hfloor.
  - destruct (p <=? AnimationPriority); destruct root as [r|].
    + intros g. rewrite scheduleAnimationWork_fibers.
      apply raiseRootPriority_neverLessUrgent.
    + apply neverLessUrgent_refl.
    + intros g. rewrite scheduleDeferredWork_fibers.
      apply raiseRootPriority_neverLessUrgent.
    + unfold bind, gets, modify, ret, throw.
      destruct (p <=? nextPriorityLevel s); intros g; left; reflexivity.
Qed.

Lemma scheduleUpdateFrom_neverLessUrgent budget fuel p :
  forall f s, batchedAtSync p s ->
    neverLessUrgent p s (snd (scheduleUpdateFrom budget fuel f p s)).
Proof.
  induction budget as [|budget IH]; intros f s Hsync.
  - apply neverLessUrgent_refl.
  - cbn [scheduleUpdateFrom]. unfold bind at 1.
    pose proof (markPendingPriority_neverLessUrgent f p s) as Hmark.
    destruct (markPendingPriority_step p f s) as (s1 & Hrun & Hfs & Hframe).
    rewrite Hrun in *. cbn [snd] in Hmark.
    assert (Hsync1 : batchedAtSync p s1).
    { intros Hs. destruct (Hsync Hs) as [Hb Hfloor]. split.
      - rewrite <- Hframe in Hb. exact Hb.
      - intros g. apply Z.eqb_eq in Hs.
        destruct (Hmark g) as [Hg|[Hg _]]; rewrite Hg;
          [apply Hfloor|right; lia]. }
    apply neverLessUrgent_trans with s1; [exact Hmark|].
    unfold bind at 1, gets at 1.
    destruct (return_ (fibers s1 f)) as [parent|].
    + apply IH. exact Hsync1.
    + unfold bind at 1, gets at 1.
      destruct (tag (fibers s1 f) =? HostContainer).
      * unfold bind, gets.
        apply scheduleWorkAtPriority_neverLessUrgent; assumption.
      * apply neverLessUrgent_refl.
Qed.

Lemma findRootFromBoundary_assigns fuel p g : forall f s,
  pendingWorkPriority (fibers s g) = p ->
  pendingWorkPriority
    (fibers (snd (findRootFromBoundary fuel f p s)) g) = p.
Proof.
  induction fuel as [|fuel IH]; intros f s Hg; [exact Hg|].
  cbn [findRootFromBoundary]. unfold bind at 1, modify at 1.
  unfold bind at 1, gets at 1. unfold bind at 1.
  set (s1 := updFiber f (set_pendingWorkPriority p) s).
  assert (H1 : pendingWorkPriority (fibers s1 g) = p).
  { subst s1. state_simpl. unfold upd.
    destruct (Pos.eqb_spec g f); subst; auto. }
  assert (H2 : exists s2,
    (match alternate (fibers s1 f) with
     | Some a => modify (updFiber a (set_pendingWorkPriority p))
     | None => ret tt
     end) s1 = (Ok tt, s2) /\ pendingWorkPriority (fibers s2 g) = p).
  { destruct (alternate (fibers s1 f)) as [a|].
    - eexists. split; [reflexivity|]. state_simpl. unfold upd.
      destruct (Pos.eqb_spec g a); subst; auto.
    - eexists. split; [reflexivity|]. exact H1. }
  destruct H2 as (s2 & -> & H2).
  unfold bind at 1, gets at 1.
  destruct (return_ (fibers s2 f)) as [parent|].
  - apply IH. exact H2.
  - unfold bind, gets, throw.
    destruct (tag (fibers s2 f) =? HostContainer); exact H2.
Qed.

Lemma scheduleErrorBoundaryWork_overwrites fuel b p s :
  pendingWorkPriority
    (fibers (snd (scheduleErrorBoundaryWork (S fuel) b p s)) b) = p.
Proof.
  assert (H : pendingWorkPriority
                (fibers (snd (findRootFromBoundary (S fuel) b p s)) b) = p).
  { cbn [findRootFromBoundary]. unfold bind at 1, modify at 1.
    set (s1 := updFiber b (set_pendingWorkPriority p) s).
    assert (H1 : pendingWorkPriority (fibers s1 b) = p).
    { subst s1. state_simpl. rewrite upd_same. reflexivity. }
    unfold bind at 1, gets at 1. unfold bind at 1.
    assert (H2 : exists s2,
      (match alternate (fibers s1 b) with
       | Some a => modify (updFiber a (set_pendingWorkPriority p))
       | None => ret tt
       end) s1 = (Ok tt, s2) /\ pendingWorkPriority (fibers s2 b) = p).
    { destruct (alternate (fibers s1 b)) as [a|].
      - eexists. split; [reflexivity|]. state_simpl. unfold upd.
        destruct (Pos.eqb_spec b a); [reflexivity|exact H1].
      - eexists. split; [reflexivity|]. exact H1. }
    destruct H2 as (s2 & -> & H2).
    unfold bind at 1, gets at 1.
    destruct (return_ (fibers s2 b)) as [parent|].
    - apply findRootFromBoundary_assigns. exact H2.
    - unfold bind, gets, throw.
      destruct (tag (fibers s2 b) =? HostContainer); exact H2. }
  unfold scheduleErrorBoundaryWork, bind.
  destruct (findRootFromBoundary (S fuel) b p s) as [[[r|]| |] s']; exact H.
Qed.


End PriorityKept.

(** ** handleErrors *)

Section UncaughtErrors.
Context {Host : Type} {K : Constants} {E : Env Host}.
Implicit Type s : State Host.

Lemma passErrorToBoundary_records e v s v' s' :
  passErrorToBoundary e v s = (Ok v', s') ->
  firstUncaughtError v' =
    match boundary e with
    | None => js_or (firstUncaughtError v) (error e)
    | Some _ => firstUncaughtError v
    end.
Proof.
  unfold passErrorToBoundary. destruct (boundary e) as [b|].
  - destruct (existsb (Pos.eqb b) (affectedBoundaries v)).
    + intros H; inversion H; reflexivity.
    + unfold try_catch, bind, ret, trapErrorM, gets.
      destruct (acknowledgeErrorInBoundary b (error e) s) as [[[]| |] s1];
        intros H; inversion H; reflexivity.
  - intros H; inversion H; reflexivity.
Qed.

Lemma passErrorsToBoundaries_records l : forall v s v' s',
  passErrorsToBoundaries l v s = (Ok v', s') ->
  firstUncaughtError v' = recordUncaught l (firstUncaughtError v).
Proof.
  induction l as [|e l IH]; intros v s v' s' H; simpl in *.
  - inversion H; reflexivity.
  - unfold bind in H.
    destruct (passErrorToBoundary e v s) as [[v1| |] s1] eqn:H1;
      try discriminate.
    apply IH in H. rewrite H.
    rewrite (passErrorToBoundary_records _ _ _ _ _ H1). reflexivity.
Qed.

Lemma recordUncaught_set l : forall fu,
  truthy fu = true -> recordUncaught l fu = fu.
Proof.
  induction l as [|e l IH]; intros fu H; simpl; auto.
  destruct (boundary e); [apply IH; exact H|].
  unfold js_or. rewrite H. apply IH. exact H.
Qed.

Lemma recordUncaught_first l : forall fu e,
  truthy fu = false -> firstUncaughtOf l = Some e -> truthy e = true ->
  recordUncaught l fu = e.
Proof.
  induction l as [|x l IH]; intros fu e Hfu Hfirst He; simpl in *.
  - discriminate.
  - destruct (boundary x).
    + apply IH; assumption.
    + inversion Hfirst; subst. unfold js_or. rewrite Hfu.
      apply recordUncaught_set. exact He.
Qed.

Lemma handleErrorsLoop_keeps_first pu fuel : forall next fu0 s fu s',
  truthy fu0 = true ->
  handleErrorsLoop pu fuel next fu0 s = (Ok fu, s') -> fu = fu0.
Proof.
  induction fuel as [|fuel IH]; intros next fu0 s fu s' Hfu H;
    destruct next as [l|]; simpl in H; try (inversion H; reflexivity).
  unfold bind in H.
  destruct (passErrorsToBoundaries l (mkErrorPass fu0 None []) s)
    as [[v| |] s1] eqn:H1; try discriminate.
  destruct (updateBoundaries pu fuel (affectedBoundaries v)
              (nextTrappedErrors v) s1) as [[next'| |] s2]; try discriminate.
  apply passErrorsToBoundaries_records in H1. simpl in H1.
  rewrite recordUncaught_set in H1 by assumption.
  apply IH in H; congruence.
Qed.

Lemma recordUncaught_first_truthy l : forall fu e,
  truthy fu = false -> firstTruthyUncaught l = Some e ->
  recordUncaught l fu = e.
Proof.
  induction l as [|x l IH]; intros fu e Hfu Hfirst; simpl in *.
  - discriminate.
  - destruct (boundary x).
    + apply IH; assumption.
    + unfold js_or. rewrite Hfu.
      destruct (truthy (error x)) eqn:Hx.
      * inversion Hfirst; subst. apply recordUncaught_set. exact Hx.
      * apply IH; assumption.
Qed.

Lemma recordUncaught_falsy l : forall fu,
  truthy fu = false -> firstTruthyUncaught l = None ->
  truthy (recordUncaught l fu) = false.
Proof.
  induction l as [|x l IH]; intros fu Hfu Hnone; simpl in *.
  - exact Hfu.
  - destruct (boundary x).
    + apply IH; assumption.
    + unfold js_or. rewrite Hfu.
      destruct (truthy (error x)) eqn:Hx; [discriminate|].
      apply IH; assumption.
Qed.

(** One turn of the loop: the next turn starts from what this batch
    recorded. *)
Lemma handleErrorsLoop_turn pu n l fu0 s fu s' :
  handleErrorsLoop pu (S n) (Some l) fu0 s = (Ok fu, s') ->
  exists next s2,
    handleErrorsLoop pu n next (recordUncaught l fu0) s2 = (Ok fu, s').
Proof.
  intros H. simpl in H. unfold bind in H.
  destruct (passErrorsToBoundaries l (mkErrorPass fu0 None []) s)
    as [[v| |] s1] eqn:H1; try discriminate.
  destruct (updateBoundaries pu n (affectedBoundaries v)
              (nextTrappedErrors v) s1) as [[next| |] s2]; try discriminate.
  apply passErrorsToBoundaries_records in H1. simpl in H1.
  exists next, s2. rewrite <- H1. exact H.
Qed.

Lemma handleErrorsLoop_first_truthy pu n l fu0 e s fu s' :
  truthy fu0 = false -> firstTruthyUncaught l = Some e ->
  handleErrorsLoop pu n (Some l) fu0 s = (Ok fu, s') -> fu = e.
Proof.
  intros Hfu Hfirst H. destruct n as [|n]; [discriminate|].
  destruct (handleErrorsLoop_turn _ _ _ _ _ _ _ H) as (next & s2 & Hrest).
  rewrite (recordUncaught_first_truthy l fu0 e Hfu Hfirst) in Hrest.
  apply handleErrorsLoop_keeps_first in Hrest; [exact Hrest|].
  clear - Hfirst. induction l as [|x l IH]; simpl in Hfirst; [discriminate|].
  destruct (boundary x); [auto|].
  destruct (truthy (error x)) eqn:Hx; [|auto].
  inversion Hfirst; subst. exact Hx.
Qed.


End UncaughtErrors.

(** ** Effect lists built by completeUnitOfWork *)

Section EffectLists.
Context {Host : Type} {K : Constants} {E : Env Host}.
Implicit Type s : State Host.

Lemma last_error_app {A} (l : list A) (x : A) : last_error (l ++ [x]) = Some x.
Proof. unfold last_error. rewrite rev_app_distr. reflexivity. Qed.

Lemma last_error_app_cons {A} (l1 l2 : list A) (x : A) :
  last_error (l1 ++ x :: l2) = last_error (x :: l2).
Proof.
  unfold last_error. rewrite rev_app_distr. simpl.
  destruct (rev l2 ++ [x]) eqn:H; [|reflexivity].
  destruct (rev l2); discriminate.
Qed.

Lemma last_error_nil {A} (l : list A) : last_error l = None -> l = [].
Proof.
  unfold last_error. intros H. destruct (rev l) eqn:Hr; [|discriminate].
  apply (f_equal (@rev A)) in Hr. rewrite rev_involutive in Hr. exact Hr.
Qed.

Lemma last_error_some {A} (l : list A) (x : A) :
  last_error l = Some x -> exists l', l = l' ++ [x].
Proof.
  unfold last_error. intros H. destruct (rev l) as [|y r] eqn:Hr; [discriminate|].
  inversion H; subst. exists (rev r).
  apply (f_equal (@rev A)) in Hr. rewrite rev_involutive in Hr. exact Hr.
Qed.

Lemma last_error_app_gen {A} (l1 l2 : list A) :
  last_error (l1 ++ l2) =
  match last_error l2 with Some z => Some z | None => last_error l1 end.
Proof.
  unfold last_error. rewrite rev_app_distr. destruct (rev l2); reflexivity.
Qed.

Lemma effectChain_app fs l1 l2 :
  effectChain fs (l1 ++ l2) <->
  effectChain fs l1 /\ effectChain fs l2 /\
  (forall x y, last_error l1 = Some x -> hd_error l2 = Some y ->
     nextEffect (fs x) = Some y).
Proof.
  induction l1 as [|a l1 IH]; simpl.
  - split.
    + intros H. repeat split; auto. intros x y Hx; discriminate.
    + intros (_ & H & _); exact H.
  - destruct l1 as [|b l1].
    + simpl in *. destruct l2 as [|c l2].
      * split; [intros _|auto]. repeat split; auto. intros x y _ Hy; discriminate.
      * split.
        -- intros [H1 H2]. repeat split; auto.
           intros x y Hx Hy. inversion Hx; inversion Hy; subst; auto.
        -- intros (_ & H2 & H3). split; auto.
    + change ((b :: l1) ++ l2) with (b :: (l1 ++ l2)) in *.
      cbn [app]. cbn [effectChain].
      rewrite last_error_cons by discriminate.
      split.
      * intros [H1 H2]. apply IH in H2. destruct H2 as (H2 & H3 & H4).
        repeat split; auto.
      * intros ((H1 & H2) & H3 & H4). split; auto. apply IH. auto.
Qed.

(** A chain only reads the links of the fibers before the last one. *)
Lemma effectChain_ext fs fs' l :
  (forall x, In x (removelast l) -> nextEffect (fs' x) = nextEffect (fs x)) ->
  effectChain fs l -> effectChain fs' l.
Proof.
  induction l as [|a l IH]; simpl; auto.
  destruct l as [|b l]; auto.
  intros Hx [H1 H2]. split.
  - rewrite Hx; auto. left; reflexivity.
  - apply IH; auto. intros x Hin. apply Hx. right; exact Hin.
Qed.

Lemma In_removelast_not_last {A} (l : list A) (x : A) :
  NoDup l -> In x (removelast l) -> last_error l <> Some x.
Proof.
  intros Hd Hin Hlast. apply last_error_some in Hlast.
  destruct Hlast as [l' ->]. rewrite removelast_last in Hin.
  apply NoDup_remove_2 in Hd. rewrite app_nil_r in Hd. contradiction.
Qed.

Lemma In_removelast {A} (l : list A) (x : A) : In x (removelast l) -> In x l.
Proof.
  induction l as [|a l IH]; simpl; auto.
  destruct l; simpl in *; intuition.
Qed.

Ltac fields :=
  cbn [tag stateNode return_ child sibling alternate pendingProps updateQueue
       progressedChild pendingWorkPriority effectTag firstEffect lastEffect
       nextEffect set_pendingProps set_updateQueue set_pendingWorkPriority
       set_effectTag set_firstEffect set_lastEffect set_nextEffect] in *.

Ltac eqb_cases :=
  repeat match goal with
         | |- context [Pos.eqb ?a ?b] => destruct (Pos.eqb_spec a b); subst
         | H : context [Pos.eqb ?a ?b] |- _ =>
           destruct (Pos.eqb_spec a b); subst
         end.

(** Read a field through a stack of updates. *)
Ltac reads :=
  repeat first
    [ rewrite upd_same
    | rewrite upd_other by congruence
    | progress fields ].

Ltac pointwise :=
  intros; state_simpl; unfold upd; eqb_cases; fields;
  try congruence; try reflexivity; try tauto;
  try solve [exfalso; unfold last_error in *; simpl in *; congruence];
  try solve [exfalso;
             repeat match goal with H : _ \/ _ |- _ => destruct H end;
             congruence].

Lemma appendEffects_spliced wip rf s lp lw :
  wip <> rf ->
  effectList (fibers s) rf lp -> effectList (fibers s) wip lw ->
  NoDup (lp ++ lw) -> ~ In wip (lp ++ lw) ->
  exists s',
    appendEffects wip rf s = (Ok tt, s') /\
    spliced (fibers s) (fibers s') wip rf lp lw
      (if effectTag (fibers s wip) =? NoEffect then [] else [wip]).
Proof.
  intros Hne (Hpf & Hpl & Hpc) (Hwf & Hwl & Hwc) Hd Hnotin.
  unfold appendEffects, bind, gets, modify, ret. state_simpl.
  destruct (effectTag (fibers s wip) =? NoEffect) eqn:Ht;
    destruct lp as [|x lp']; destruct lw as [|y lw'];
    rewrite ?app_nil_l, ?app_nil_r in *;
    try (assert (Hxl : exists xl, last_error (x :: lp') = Some xl)
           by (destruct (last_error (x :: lp')) eqn:Hq;
               [eauto|apply last_error_nil in Hq; discriminate]);
         destruct Hxl as [xl Hxl]);
    try (assert (Hyl : exists yl, last_error (y :: lw') = Some yl)
           by (destruct (last_error (y :: lw')) eqn:Hq;
               [eauto|apply last_error_nil in Hq; discriminate]);
         destruct Hyl as [yl Hyl]);
    try (assert (Hxy : xl <> yl)
           by (intros ->; apply last_error_In in Hxl;
               apply last_error_In in Hyl;
               exact (NoDup_app_disjoint _ _ _ Hd Hyl Hxl)));
    try (assert (Hwx : wip <> xl)
           by (intros ->; apply Hnotin; apply last_error_In in Hxl;
               try (apply in_or_app; left); exact Hxl));
    try (assert (Hwy : wip <> yl)
           by (intros ->; apply Hnotin; apply last_error_In in Hyl;
               try (apply in_or_app; right); exact Hyl));
    rewrite ?last_error_app, ?last_error_app_cons in *;
    cbn [hd_error app] in *;
    change (@last_error FiberId []) with (@None FiberId) in *;
    rewrite ?Hxl, ?Hyl in *;
    repeat first
      [ rewrite Hpf | rewrite Hpl | rewrite Hwf | rewrite Hwl | rewrite Ht
      | progress cbn [negb] | progress state_simpl | progress reads ];
    (eexists; split; [reflexivity|]); unfold spliced, sameShape;
    rewrite ?last_error_app_gen; rewrite ?Hxl, ?Hyl;
    cbn [last_error rev app hd_error];
    repeat split; pointwise.
Qed.

Lemma last_error_app_r {A} (l1 l2 : list A) :
  l2 <> [] -> last_error (l1 ++ l2) = last_error l2.
Proof.
  intros H. rewrite last_error_app_gen.
  destruct (last_error l2) eqn:Hl; auto.
  apply last_error_nil in Hl. contradiction.
Qed.

Lemma spliced_effectList fs fs' wip rf lp lw own :
  spliced fs fs' wip rf lp lw own ->
  wip <> rf -> own = [] \/ own = [wip] ->
  effectList fs rf lp -> effectList fs wip lw ->
  NoDup (lp ++ lw) ->
  effectList fs' rf (lp ++ lw ++ own) /\
  effectList fs' wip lw /\
  (forall g l, g <> rf -> effectList fs g l ->
     (forall x, In x (removelast l) -> ~ In x (lp ++ lw)) ->
     effectList fs' g l).
Proof.
  intros (Htree & Hother & Hfirst & Hlast & Hkeep & Hown & Hlink)
    Hne Hcases (Hpf & Hpl & Hpc) (Hwf & Hwl & Hwc) Hd.
  assert (Hkeep_lp : forall x, In x (removelast lp) ->
            nextEffect (fs' x) = nextEffect (fs x)).
  { intros x Hx. apply Hkeep.
    - destruct lw as [|y lw'].
      + right. rewrite app_nil_r. apply In_removelast_not_last; auto.
        rewrite app_nil_r in Hd. exact Hd.
      + right. rewrite last_error_app_r by discriminate. intros Hl.
        apply last_error_In in Hl. apply In_removelast in Hx.
        exact (NoDup_app_disjoint _ _ _ Hd Hl Hx).
    - right. apply In_removelast_not_last; auto.
      apply NoDup_app_remove_r in Hd. exact Hd. }
  assert (Hkeep_lw : forall x, In x (removelast lw) ->
            nextEffect (fs' x) = nextEffect (fs x)).
  { intros x Hx. assert (Hdw : NoDup lw) by (eapply NoDup_app_r; eauto).
    apply Hkeep.
    - right. destruct lw as [|y lw']; [contradiction|].
      rewrite last_error_app_r by discriminate.
      apply In_removelast_not_last; auto.
    - right. intros Hl. apply last_error_In in Hl. apply In_removelast in Hx.
      exact (NoDup_app_disjoint _ _ _ Hd Hx Hl). }
  split; [|split].
  - split; [exact Hfirst|]. split; [exact Hlast|].
    apply effectChain_app. split; [|split].
    + eapply effectChain_ext; [|exact Hpc]. exact Hkeep_lp.
    + apply effectChain_app. split; [|split].
      * eapply effectChain_ext; [|exact Hwc]. exact Hkeep_lw.
      * destruct Hcases as [->| ->]; exact I.
      * intros x y Hx Hy. destruct Hcases as [->| ->]; [discriminate|].
        inversion Hy; subst y. apply Hown; [discriminate|].
        rewrite last_error_app_r; auto. intros ->. discriminate.
    + intros x y Hx Hy. destruct lw as [|z lw'].
      * destruct Hcases as [->| ->]; [discriminate|].
        inversion Hy; subst y. apply Hown; [discriminate|].
        rewrite app_nil_r. exact Hx.
      * inversion Hy; subst y. rewrite (Hlink ltac:(discriminate) x Hx).
        reflexivity.
  - destruct (Hother wip Hne) as [H1 H2].
    split; [congruence|]. split; [congruence|].
    eapply effectChain_ext; [|exact Hwc]. exact Hkeep_lw.
  - intros g l Hg (Hgf & Hgl & Hgc) Hdisj.
    destruct (Hother g Hg) as [H1 H2].
    split; [congruence|]. split; [congruence|].
    eapply effectChain_ext; [|exact Hgc].
    intros x Hx. apply Hkeep.
    + right. intros Hl. apply last_error_In in Hl. exact (Hdisj x Hx Hl).
    + right. intros Hl. apply last_error_In in Hl.
      apply (Hdisj x Hx). apply in_or_app. left; exact Hl.
Qed.

Lemma sameShape_refl fs : sameShape fs fs.
Proof. intros g. repeat split. Qed.

Lemma sameShape_trans fs1 fs2 fs3 :
  sameShape fs1 fs2 -> sameShape fs2 fs3 -> sameShape fs1 fs3.
Proof.
  intros H1 H2 g. specialize (H1 g). specialize (H2 g).
  repeat match goal with H : _ /\ _ |- _ => destruct H end.
  repeat split; congruence.
Qed.

Lemma sameEffects_trans fs1 fs2 fs3 :
  sameEffects fs1 fs2 -> sameEffects fs2 fs3 -> sameEffects fs1 fs3.
Proof.
  intros H1 H2 g. specialize (H1 g). specialize (H2 g).
  repeat match goal with H : _ /\ _ |- _ => destruct H end.
  repeat split; congruence.
Qed.

Lemma effectChain_sameEffects fs fs' l :
  sameEffects fs fs' -> effectChain fs l -> effectChain fs' l.
Proof.
  intros H. apply effectChain_ext. intros x _. apply H.
Qed.

Lemma effectList_sameEffects fs fs' g l :
  sameEffects fs fs' -> effectList fs g l -> effectList fs' g l.
Proof.
  intros H (H1 & H2 & H3). destruct (H g) as (E1 & E2 & E3).
  split; [congruence|]. split; [congruence|].
  eapply effectChain_sameEffects; eauto.
Qed.

Lemma highestChildPriority_ends fuel fs fs' : forall child acc,
  sameShape fs fs' -> siblingsEnd fuel fs child ->
  exists v, highestChildPriority fuel fs' child acc = Some v.
Proof.
  induction fuel as [|fuel IH]; intros child acc Hs He;
    destruct child as [c|]; simpl in *; eauto; try contradiction.
  destruct (Hs c) as (_ & _ & _ & _ & Hsib & _). rewrite Hsib.
  apply IH; auto.
Qed.

(** One turn of the loop of [completeUnitOfWork] at a fiber with a return
    parent. *)
Lemma completeUnitOfWork_step he ign fuel wip rf s lp lw :
  quietCompleteWork ->
  return_ (fibers s wip) = Some rf -> wip <> rf ->
  siblingsEnd fuel (fibers s) (progressedChild (fibers s wip)) ->
  effectList (fibers s) rf lp -> effectList (fibers s) wip lw ->
  NoDup (lp ++ lw) -> ~ In wip (lp ++ lw) ->
  exists s',
    completeUnitOfWork he (S fuel) wip ign s =
      match sibling (fibers s wip) with
      | Some sb => (Ok (Some sb), s')
      | None => completeUnitOfWork he fuel rf ign s'
      end /\
    sameShape (fibers s) (fibers s') /\
    effectList (fibers s') rf
      (lp ++ lw ++
       if effectTag (fibers s wip) =? NoEffect then [] else [wip]) /\
    effectList (fibers s') wip lw /\
    (forall g l, g <> rf -> effectList (fibers s) g l ->
       (forall x, In x (removelast l) -> ~ In x (lp ++ lw)) ->
       effectList (fibers s') g l).
Proof.
  intros Hquiet Hret Hne Hend Hlp Hlw Hd Hnotin.
  cbn [completeUnitOfWork]. unfold bind at 1, gets at 1. unfold bind at 1.
  destruct (Hquiet (alternate (fibers s wip)) wip s) as (Hok & Hsh1 & Hef1).
  destruct (completeWork (alternate (fibers s wip)) wip s) as [o s1].
  cbn [fst snd] in *. subst o.
  unfold bind at 1. unfold resetWorkPriority at 1, bind at 1, gets at 1.
  destruct (Hsh1 wip) as (_ & _ & _ & _ & _ & _ & Hpc1 & _).
  rewrite Hpc1.
  destruct (highestChildPriority_ends fuel (fibers s) (fibers s1)
              (progressedChild (fibers s wip)) NoWork Hsh1 Hend) as [v Hv].
  rewrite Hv. unfold modify at 1.
  unfold bind at 1, modify at 1. unfold bind at 1, modify at 1.
  unfold bind at 1, gets at 1.
  set (s3 := updFiber wip (set_updateQueue None)
               (updFiber wip (set_pendingProps None)
                  (updFiber wip (set_pendingWorkPriority v) s1))).
  assert (Hsh3 : sameShape (fibers s) (fibers s3)).
  { apply sameShape_trans with (fibers s1); auto.
    intros g. subst s3. state_simpl. unfold upd.
    destruct (Pos.eqb_spec g wip) as [->|]; rewrite ?Pos.eqb_refl;
      repeat split. }
  assert (Hef3 : sameEffects (fibers s) (fibers s3)).
  { apply sameEffects_trans with (fibers s1); auto.
    intros g. subst s3. state_simpl. unfold upd.
    destruct (Pos.eqb_spec g wip) as [->|]; rewrite ?Pos.eqb_refl;
      repeat split. }
  destruct (Hsh3 wip) as (_ & _ & Hret3 & _ & Hsib3 & _ & _ & Htag3).
  rewrite Hret3, Hret.
  destruct (appendEffects_spliced wip rf s3 lp lw Hne
              (effectList_sameEffects _ _ _ _ Hef3 Hlp)
              (effectList_sameEffects _ _ _ _ Hef3 Hlw) Hd Hnotin)
    as (s4 & Hrun & Hsp).
  rewrite Htag3 in Hsp.
  unfold bind at 1. rewrite Hrun.
  assert (Hown : (if effectTag (fibers s wip) =? NoEffect then [] else [wip])
                 = [] \/
                 (if effectTag (fibers s wip) =? NoEffect then [] else [wip])
                 = [wip])
    by (destruct (effectTag (fibers s wip) =? NoEffect); auto).
  destruct (spliced_effectList _ _ _ _ _ _ _ Hsp Hne Hown
              (effectList_sameEffects _ _ _ _ Hef3 Hlp)
              (effectList_sameEffects _ _ _ _ Hef3 Hlw) Hd)
    as (Hrf & Hwip & Hframe).
  assert (Hsh4 : sameShape (fibers s) (fibers s4)).
  { apply sameShape_trans with (fibers s3); auto. apply Hsp. }
  exists s4. split; [|split; [|split; [|split]]]; auto.
  - unfold bind, gets.
    destruct (Hsh4 wip) as (_ & _ & _ & _ & Hsib4 & _).
    rewrite Hsib4. destruct (sibling (fibers s wip)); reflexivity.
  - intros g l Hg Hl Hdisj. apply Hframe; auto.
    eapply effectList_sameEffects; eauto.
Qed.

Lemma shape_return fs fs' g : sameShape fs fs' -> return_ (fs' g) = return_ (fs g).
Proof. intros H. apply H. Qed.

Lemma shape_sibling fs fs' g : sameShape fs fs' -> sibling (fs' g) = sibling (fs g).
Proof. intros H. apply H. Qed.

Lemma shape_progressedChild fs fs' g :
  sameShape fs fs' -> progressedChild (fs' g) = progressedChild (fs g).
Proof. intros H. apply H. Qed.

Lemma shape_effectTag fs fs' g :
  sameShape fs fs' -> effectTag (fs' g) = effectTag (fs g).
Proof. intros H. apply H. Qed.

(** The last turn of the loop, at a fiber without return parent: the commit
    starts with the effect list the fiber has. *)
Lemma completeUnitOfWork_root_step he ign fuel wip s lw :
  quietCompleteWork ->
  return_ (fibers s wip) = None -> sibling (fibers s wip) = None ->
  siblingsEnd fuel (fibers s) (progressedChild (fibers s wip)) ->
  effectList (fibers s) wip lw ->
  exists s',
    completeUnitOfWork he (S fuel) wip ign s = commitRoot he fuel wip ign s' /\
    sameShape (fibers s) (fibers s') /\
    roots s' = roots (snd (completeWork (alternate (fibers s wip)) wip s)) /\
    effectList (fibers s') wip lw.
Proof.
  intros Hquiet Hret Hsib Hend Hlw.
  cbn [completeUnitOfWork]. unfold bind at 1, gets at 1. unfold bind at 1.
  destruct (Hquiet (alternate (fibers s wip)) wip s) as (Hok & Hsh1 & Hef1).
  destruct (completeWork (alternate (fibers s wip)) wip s) as [o s1].
  cbn [fst snd] in *. subst o.
  unfold bind at 1. unfold resetWorkPriority at 1, bind at 1, gets at 1.
  destruct (Hsh1 wip) as (_ & _ & _ & _ & _ & _ & Hpc1 & _).
  rewrite Hpc1.
  destruct (highestChildPriority_ends fuel (fibers s) (fibers s1)
              (progressedChild (fibers s wip)) NoWork Hsh1 Hend) as [v Hv].
  rewrite Hv. unfold modify at 1.
  unfold bind at 1, modify at 1. unfold bind at 1, modify at 1.
  unfold bind at 1, gets at 1.
  set (s3 := updFiber wip (set_updateQueue None)
               (updFiber wip (set_pendingProps None)
                  (updFiber wip (set_pendingWorkPriority v) s1))).
  assert (Hsh3 : sameShape (fibers s) (fibers s3)).
  { apply sameShape_trans with (fibers s1); auto.
    intros g. subst s3. state_simpl. unfold upd.
    destruct (Pos.eqb_spec g wip) as [->|]; rewrite ?Pos.eqb_refl;
      repeat split. }
  assert (Hef3 : sameEffects (fibers s) (fibers s3)).
  { apply sameEffects_trans with (fibers s1); auto.
    intros g. subst s3. state_simpl. unfold upd.
    destruct (Pos.eqb_spec g wip) as [->|]; rewrite ?Pos.eqb_refl;
      repeat split. }
  destruct (Hsh3 wip) as (_ & _ & Hret3 & _ & Hsib3 & _).
  rewrite Hret3, Hret. unfold bind at 1, ret at 1.
  unfold bind at 1, gets at 1. rewrite Hsib3, Hsib.
  exists s3. split; [reflexivity|]. split; [exact Hsh3|].
  split; [reflexivity|]. eapply effectList_sameEffects; eauto.
Qed.

(** C4.  [appendEffects], the step of [completeUnitOfWork] at a fiber with
    a return parent, makes the parent's effect list its old list followed by
    the fiber's list and then, only when the fiber's effect tag is not
    [NoEffect], by the fiber itself, and leaves the fiber's own list as it
    is.  For a fiber A, child of P with a sibling D, whose children B and C
    carry the [Update] tag while A has [NoEffect], completing B and then C
    (which goes on to complete A) ends with the effect list of A being
    exactly B followed by C, without A; P received that same list.  When A
    has no return parent and no sibling, completing C goes on to the commit
    of A, which starts with that effect list of A. *)
Theorem completeUnitOfWork_bubbles_effects
  (he : list TrappedError -> M Host unit) (ign : bool) :
  (forall wip rf s lp lw,
     wip <> rf ->
     effectList (fibers s) rf lp -> effectList (fibers s) wip lw ->
     NoDup (lp ++ lw) -> ~ In wip (lp ++ lw) ->
     exists s',
       appendEffects wip rf s = (Ok tt, s') /\
       effectList (fibers s') rf
         (lp ++ lw ++
          if effectTag (fibers s wip) =? NoEffect then [] else [wip]) /\
       effectList (fibers s') wip lw) /\
  (forall fuel a b c p d s,
     quietCompleteWork ->
     NoDup [a; b; c; p] ->
     return_ (fibers s b) = Some a -> return_ (fibers s c) = Some a ->
     return_ (fibers s a) = Some p ->
     sibling (fibers s b) = Some c -> sibling (fibers s c) = None ->
     sibling (fibers s a) = Some d ->
     progressedChild (fibers s a) = Some b ->
     progressedChild (fibers s b) = None ->
     progressedChild (fibers s c) = None ->
     effectTag (fibers s b) = Update -> effectTag (fibers s c) = Update ->
     effectTag (fibers s a) = NoEffect ->
     effectList (fibers s) a [] -> effectList (fibers s) b [] ->
     effectList (fibers s) c [] -> effectList (fibers s) p [] ->
     exists s1 s2,
       completeUnitOfWork he (S fuel) b ign s = (Ok (Some c), s1) /\
       completeUnitOfWork he (S (S (S (S fuel)))) c ign s1 =
         (Ok (Some d), s2) /\
       effectList (fibers s2) a [b; c] /\ ~ In a [b; c] /\
       effectList (fibers s2) p [b; c]) /\
  (forall fuel a b c s,
     quietCompleteWork ->
     NoDup [a; b; c] ->
     return_ (fibers s b) = Some a -> return_ (fibers s c) = Some a ->
     return_ (fibers s a) = None ->
     sibling (fibers s b) = Some c -> sibling (fibers s c) = None ->
     sibling (fibers s a) = None ->
     progressedChild (fibers s a) = Some b ->
     progressedChild (fibers s b) = None ->
     progressedChild (fibers s c) = None ->
     effectTag (fibers s b) = Update -> effectTag (fibers s c) = Update ->
     effectTag (fibers s a) = NoEffect ->
     effectList (fibers s) a [] -> effectList (fibers s) b [] ->
     effectList (fibers s) c [] ->
     exists s1 s2,
       completeUnitOfWork he (S fuel) b ign s = (Ok (Some c), s1) /\
       completeUnitOfWork he (S (S (S (S fuel)))) c ign s1 =
         commitRoot he (S (S fuel)) a ign s2 /\
       effectList (fibers s2) a [b; c] /\ ~ In a [b; c]).
Proof.
  split; [|split].
  - intros wip rf s lp lw Hne Hlp Hlw Hd Hnotin.
    destruct (appendEffects_spliced wip rf s lp lw Hne Hlp Hlw Hd Hnotin)
      as (s' & Hrun & Hsp).
    assert (Hown : (if effectTag (fibers s wip) =? NoEffect then [] else [wip])
                   = [] \/
                   (if effectTag (fibers s wip) =? NoEffect then [] else [wip])
                   = [wip])
      by (destruct (effectTag (fibers s wip) =? NoEffect); auto).
    destruct (spliced_effectList _ _ _ _ _ _ _ Hsp Hne Hown Hlp Hlw Hd)
      as (Hrf & Hwip & _).
    exists s'. auto.
  - intros fuel a b c p d s Hquiet Hd Hrb Hrc Hra Hsb Hsc Hsa Hpa Hpb Hpc
      Htb Htc Hta Hla Hlb Hlc Hlp.
    assert (Hab : a <> b /\ a <> c /\ a <> p /\ b <> c /\ b <> p /\ c <> p).
    { inversion Hd as [|? ? N1 D1]; subst. inversion D1 as [|? ? N2 D2]; subst.
      inversion D2 as [|? ? N3 D3]; subst. simpl in *. intuition. }
    destruct Hab as (Hab & Hac & Hap & Hbc & Hbp & Hcp).
    (* B completes *)
    destruct (completeUnitOfWork_step he ign fuel b a s [] [] Hquiet Hrb
                ltac:(congruence)
                ltac:(rewrite Hpb; destruct fuel; exact I)
                Hla Hlb ltac:(constructor) ltac:(simpl; tauto))
      as (s1 & Hrun1 & Hsh1 & Ha1 & Hb1 & Hframe1).
    rewrite Hsb in Hrun1. rewrite Htb in Ha1. simpl in Ha1.
    assert (Hc1 : effectList (fibers s1) c [])
      by (apply Hframe1; [congruence|exact Hlc|simpl; tauto]).
    assert (Hp1 : effectList (fibers s1) p [])
      by (apply Hframe1; [congruence|exact Hlp|simpl; tauto]).
    (* C completes *)
    destruct (completeUnitOfWork_step he ign (S (S (S fuel))) c a s1 [b] []
                Hquiet
                ltac:(rewrite (shape_return _ _ c Hsh1); exact Hrc)
                ltac:(congruence)
                ltac:(rewrite (shape_progressedChild _ _ c Hsh1), Hpc;
                      exact I)
                Ha1 Hc1
                ltac:(repeat constructor; simpl; tauto)
                ltac:(simpl; intuition congruence))
      as (s2 & Hrun2 & Hsh2 & Ha2 & Hc2 & Hframe2).
    rewrite (shape_sibling _ _ c Hsh1), Hsc in Hrun2.
    rewrite (shape_effectTag _ _ c Hsh1), Htc in Ha2. simpl in Ha2.
    assert (Hp2 : effectList (fibers s2) p [])
      by (apply Hframe2; [congruence|exact Hp1|simpl; tauto]).
    assert (Hsh02 : sameShape (fibers s) (fibers s2))
      by (eapply sameShape_trans; eauto).
    (* A completes *)
    destruct (completeUnitOfWork_step he ign (S (S fuel)) a p s2 [] [b; c]
                Hquiet
                ltac:(rewrite (shape_return _ _ a Hsh02); exact Hra)
                ltac:(congruence)
                ltac:(rewrite (shape_progressedChild _ _ a Hsh02), Hpa;
                      simpl;
                      rewrite (shape_sibling _ _ b Hsh02), Hsb;
                      rewrite (shape_sibling _ _ c Hsh02), Hsc;
                      destruct fuel; exact I)
                Hp2 Ha2
                ltac:(repeat constructor; simpl; intuition congruence)
                ltac:(simpl; intuition congruence))
      as (s3 & Hrun3 & Hsh3 & Hp3 & Ha3 & _).
    rewrite (shape_sibling _ _ a Hsh02), Hsa in Hrun3.
    rewrite (shape_effectTag _ _ a Hsh02), Hta in Hp3. simpl in Hp3.
    exists s1, s3. split; [exact Hrun1|]. split; [congruence|].
    split; [exact Ha3|]. split; [simpl; intuition congruence|exact Hp3].
  - intros fuel a b c s Hquiet Hd Hrb Hrc Hra Hsb Hsc Hsa Hpa Hpb Hpc
      Htb Htc Hta Hla Hlb Hlc.
    assert (Hab : a <> b /\ a <> c /\ b <> c).
    { inversion Hd as [|? ? N1 D1]; subst. inversion D1 as [|? ? N2 D2]; subst.
      simpl in *. intuition. }
    destruct Hab as (Hab & Hac & Hbc).
    destruct (completeUnitOfWork_step he ign fuel b a s [] [] Hquiet Hrb
                ltac:(congruence)
                ltac:(rewrite Hpb; destruct fuel; exact I)
                Hla Hlb ltac:(constructor) ltac:(simpl; tauto))
      as (s1 & Hrun1 & Hsh1 & Ha1 & Hb1 & Hframe1).
    rewrite Hsb in Hrun1. rewrite Htb in Ha1. simpl in Ha1.
    assert (Hc1 : effectList (fibers s1) c [])
      by (apply Hframe1; [congruence|exact Hlc|simpl; tauto]).
    destruct (completeUnitOfWork_step he ign (S (S (S fuel))) c a s1 [b] []
                Hquiet
                ltac:(rewrite (shape_return _ _ c Hsh1); exact Hrc)
                ltac:(congruence)
                ltac:(rewrite (shape_progressedChild _ _ c Hsh1), Hpc;
                      exact I)
                Ha1 Hc1
                ltac:(repeat constructor; simpl; tauto)
                ltac:(simpl; intuition congruence))
      as (s2 & Hrun2 & Hsh2 & Ha2 & Hc2 & Hframe2).
    rewrite (shape_sibling _ _ c Hsh1), Hsc in Hrun2.
    rewrite (shape_effectTag _ _ c Hsh1), Htc in Ha2. simpl in Ha2.
    assert (Hsh02 : sameShape (fibers s) (fibers s2))
      by (eapply sameShape_trans; eauto).
    destruct (completeUnitOfWork_root_step he ign (S (S fuel)) a s2 [b; c]
                Hquiet
                ltac:(rewrite (shape_return _ _ a Hsh02); exact Hra)
                ltac:(rewrite (shape_sibling _ _ a Hsh02); exact Hsa)
                ltac:(rewrite (shape_progressedChild _ _ a Hsh02), Hpa;
                      simpl;
                      rewrite (shape_sibling _ _ b Hsh02), Hsb;
                      rewrite (shape_sibling _ _ c Hsh02), Hsc;
                      destruct fuel; exact I)
                Ha2)
      as (s3 & Hrun3 & _ & _ & Ha3).
    exists s1, s3. split; [exact Hrun1|]. split; [congruence|].
    split; [exact Ha3|]. simpl; intuition congruence.
Qed.

End EffectLists.

(** * Further properties of the scheduler *)

(** ** resetWorkPriority *)

Section BubbledPriority.
Context {Host : Type} {K : Constants}.
Implicit Type s : State Host.

Lemma highestChildPriority_fold fs l : forall fuel child acc,
  siblingChain fs child l -> (List.length l <= fuel)%nat ->
  highestChildPriority fuel fs child acc =
    Some (fold_left moreUrgent
            (map (fun c => pendingWorkPriority (fs c)) l) acc).
Proof.
  unfold siblingChain.
  induction l as [|c l IH]; intros fuel child acc Hc Hlen; simpl in Hc.
  - subst child. destruct fuel; reflexivity.
  - destruct Hc as [-> Hc]. destruct fuel as [|fuel]; [simpl in Hlen; lia|].
    simpl. apply IH; [exact Hc|simpl in Hlen; lia].
Qed.

Lemma moreUrgent_fold ps : forall acc,
  let v := fold_left moreUrgent ps acc in
  (v = acc \/ In v ps) /\
  (v = NoWork -> acc = NoWork /\ forall p, In p ps -> p = NoWork) /\
  (forall p, In p ps -> p <> NoWork -> v <= p) /\
  (acc <> NoWork -> v <= acc).
Proof.
  induction ps as [|p ps IH]; intros acc; simpl.
  - repeat split; auto; try lia; intros q [].
  - destruct (IH (moreUrgent acc p)) as (H1 & H2 & H3 & H4).
    assert (Ha : (moreUrgent acc p = p /\ p <> NoWork /\
                  (acc = NoWork \/ p < acc)) \/
                 (moreUrgent acc p = acc /\
                  (p = NoWork \/ (acc <> NoWork /\ acc <= p)))).
    { unfold moreUrgent.
      destruct (Z.eqb_spec p NoWork) as [Hp|Hp];
        destruct (Z.eqb_spec acc NoWork) as [Hacc|Hacc];
        destruct (Z.gtb_spec acc p) as [Hg|Hg]; simpl; auto. }
    set (a := moreUrgent acc p) in *. clearbody a.
    destruct Ha as [(Ea & Hp & Hlt)|(Ea & Hp)]; subst a.
    + split; [destruct H1; auto|].
      split; [intros Hv; destruct (H2 Hv); congruence|].
      split.
      * intros q [<-|Hq] Hq'; [apply H4; exact Hp|apply H3; assumption].
      * intros Hacc. specialize (H4 Hp). destruct Hlt; [congruence|lia].
    + split; [destruct H1; auto|].
      split.
      * intros Hv. destruct (H2 Hv) as [Hacc Hall]. split; [exact Hacc|].
        intros q [<-|Hq]; [|auto]. destruct Hp as [Hp|[Hp _]]; congruence.
      * split; [|exact H4].
        intros q [<-|Hq] Hq'; [|apply H3; assumption].
        destruct Hp as [Hp|[Hp Hle]]; [congruence|].
        specialize (H4 Hp). lia.
Qed.

(** X1.  [resetWorkPriority] gives the fiber the pending priority [NoWork]
    exactly when every progressed child has [NoWork]; otherwise it gives it
    the pending priority of one of the children, which is not [NoWork] and is
    the numerically smallest among those of the children with pending work.
    Nothing else of the state changes. *)
Theorem resetWorkPriority_bubbles_most_urgent_child fuel wip s l :
  siblingChain (fibers s) (progressedChild (fibers s wip)) l ->
  (List.length l <= fuel)%nat ->
  exists v,
    resetWorkPriority fuel wip s =
      (Ok tt, updFiber wip (set_pendingWorkPriority v) s) /\
    (v = NoWork <->
     forall c, In c l -> pendingWorkPriority (fibers s c) = NoWork) /\
    (v <> NoWork ->
     (exists c, In c l /\ pendingWorkPriority (fibers s c) = v) /\
     forall c, In c l -> pendingWorkPriority (fibers s c) <> NoWork ->
       v <= pendingWorkPriority (fibers s c)).
Proof.
  intros Hc Hlen.
  pose proof (highestChildPriority_fold _ _ _ _ NoWork Hc Hlen) as Hrun.
  set (ps := map (fun c => pendingWorkPriority (fibers s c)) l) in *.
  destruct (moreUrgent_fold ps NoWork) as (H1 & H2 & H3 & _).
  set (v := fold_left moreUrgent ps NoWork) in *.
  exists v. split; [|split].
  - unfold resetWorkPriority, bind, gets, modify. rewrite Hrun. reflexivity.
  - split.
    + intros Hv c Hin. apply (proj2 (H2 Hv)).
      subst ps. apply in_map_iff. exists c. auto.
    + intros Hall. destruct H1 as [H1|H1]; [exact H1|].
      subst ps. apply in_map_iff in H1. destruct H1 as (c & Hc' & Hin).
      rewrite <- Hc'. apply Hall. exact Hin.
  - intros Hv. split.
    + destruct H1 as [H1|H1]; [contradiction|].
      subst ps. apply in_map_iff in H1. destruct H1 as (c & Hc' & Hin).
      exists c. auto.
    + intros c Hin Hp. apply H3; [|exact Hp].
      subst ps. apply in_map_iff. exists c. auto.
Qed.

End BubbledPriority.

(** ** The walks to the root: scheduleErrorBoundaryWork and scheduleUpdate *)

Section PathToRoot.
Context {Host : Type} {K : Constants} {E : Env Host}.
Implicit Type s : State Host.

Lemma last_cons_default {A} (l : list A) : forall x d,
  last (x :: l) d = last l x.
Proof.
  induction l as [|y l IH]; intros x d; [reflexivity|].
  change (last (x :: y :: l) d) with (last (y :: l) d).
  rewrite !IH. reflexivity.
Qed.

Lemma chain_ext next next' l : forall first,
  (forall x, next' x = next x) -> chain next first l -> chain next' first l.
Proof.
  induction l as [|x l IH]; intros first H Hc; simpl in *; [exact Hc|].
  destruct Hc as [-> Hc]. split; [reflexivity|]. rewrite H. apply IH; auto.
Qed.

(** One turn of the loop of [scheduleErrorBoundaryWork]. *)
Lemma overwrite_step p f s :
  exists s1,
    (modify (updFiber f (set_pendingWorkPriority p)) ;;
     alt <- gets (fun s => alternate (fibers s f)) ;;
     match alt with
     | Some a => modify (updFiber a (set_pendingWorkPriority p))
     | None => ret tt
     end) s = (Ok tt, s1) /\
    (forall g, fibers s1 g = markStore (fun _ => p) (fibers s) [f] g) /\
    set_fibers (fibers s) s1 = s.
Proof.
  unfold bind, modify, gets, ret. state_simpl. rewrite upd_same.
  change (alternate (set_pendingWorkPriority p (fibers s f)))
    with (alternate (fibers s f)).
  destruct (alternate (fibers s f)) as [a|] eqn:Halt.
  - eexists. split; [reflexivity|]. split; [|destruct s; reflexivity].
    intros g. rewrite markStore_one, Halt. state_simpl. unfold upd. simpl.
    destruct (Pos.eqb_spec g a) as [->|Ha].
    + rewrite orb_true_r. destruct (Pos.eqb_spec a f) as [->|Hf]; reflexivity.
    + rewrite orb_false_r. destruct (Pos.eqb_spec g f) as [->|]; reflexivity.
  - eexists. split; [reflexivity|]. split; [|destruct s; reflexivity].
    intros g. rewrite markStore_one, Halt. state_simpl. unfold upd. simpl.
    rewrite orb_false_r. destruct (Pos.eqb_spec g f) as [->|]; reflexivity.
Qed.

Lemma findRootFromBoundary_walk p l : forall fuel f s,
  returnPath (fibers s) f l -> (List.length l < fuel)%nat ->
  exists s',
    findRootFromBoundary fuel f p s =
      (if tag (fibers s (last l f)) =? HostContainer
       then Ok (stateNode (fibers s (last l f)))
       else Threw invalidRootError, s') /\
    (forall g, fibers s' g = markStore (fun _ => p) (fibers s) (f :: l) g) /\
    set_fibers (fibers s) s' = s.
Proof.
  unfold returnPath.
  induction l as [|x l IH]; intros fuel f s Hpath Hlen;
    (destruct fuel as [|fuel]; [simpl in Hlen; lia|]);
    destruct (overwrite_step p f s) as (s1 & Hstep & Hfs & Hframe);
    cbn [findRootFromBoundary];
    unfold bind at 1 in Hstep; unfold bind at 1;
    destruct (modify (updFiber f (set_pendingWorkPriority p)) s)
      as [[[]| |] s0]; try discriminate;
    unfold bind at 1 in Hstep; unfold bind at 1;
    destruct (gets (fun s => alternate (fibers s f)) s0)
      as [[alt| |] s0']; try discriminate;
    unfold bind at 1; rewrite Hstep;
    unfold bind at 1, gets at 1;
    rewrite Hfs; rewrite (proj1 (proj2 (proj2 (markStore_shape _ _ _ _))));
    simpl in Hpath.
  - rewrite Hpath. unfold bind, gets, throw. rewrite Hfs.
    rewrite (proj1 (markStore_shape _ _ _ _)). simpl.
    destruct (tag (fibers s f) =? HostContainer).
    + rewrite Hfs, (proj1 (proj2 (markStore_shape _ _ _ _))).
      exists s1. auto.
    + exists s1. auto.
  - destruct Hpath as [Hx Hpath]. rewrite Hx.
    destruct (IH fuel x s1) as (s' & Hrun & Hfs' & Hframe').
    + eapply chain_ext; [|rewrite Hfs;
        rewrite (proj1 (proj2 (proj2 (markStore_shape _ _ _ _))));
        exact Hpath].
      intros y. simpl. rewrite Hfs.
      apply (proj1 (proj2 (proj2 (markStore_shape _ _ _ _)))).
    + simpl in Hlen. lia.
    + exists s'. split; [|split].
      * rewrite Hrun. rewrite Hfs.
        rewrite (proj1 (markStore_shape _ _ _ _)).
        rewrite (proj1 (proj2 (markStore_shape _ _ _ _))).
        rewrite last_cons_default. reflexivity.
      * intros g. rewrite Hfs'. apply markStore_cons; auto.
      * eapply set_fibers_trans; eauto.
Qed.

(** X2.  From a boundary whose ancestors end at a fiber without return
    parent, [scheduleErrorBoundaryWork] returns the root held by that fiber
    when its tag is [HostContainer], throws "Invalid root" when it is not,
    and throws "Could not find root from the boundary." when the container
    holds no root.  In each case every fiber of the path and every alternate
    of one is left with the requested priority, whatever it had; no other
    field and no other fiber is changed. *)
Theorem scheduleErrorBoundaryWork_marks_the_path fuel f p s l :
  returnPath (fibers s) f l -> (List.length l < fuel)%nat ->
  exists s',
    scheduleErrorBoundaryWork fuel f p s =
      (if tag (fibers s (last l f)) =? HostContainer then
         match stateNode (fibers s (last l f)) with
         | Some root => Ok root
         | None => Threw (JsError "Could not find root from the boundary.")
         end
       else Threw invalidRootError, s') /\
    (forall g, fibers s' g = markStore (fun _ => p) (fibers s) (f :: l) g) /\
    set_fibers (fibers s) s' = s.
Proof.
  intros Hpath Hlen.
  destruct (findRootFromBoundary_walk p l fuel f s Hpath Hlen)
    as (s' & Hrun & Hfs & Hframe).
  exists s'. split; [|split; assumption].
  unfold scheduleErrorBoundaryWork, bind. rewrite Hrun.
  destruct (tag (fibers s (last l f)) =? HostContainer); [|reflexivity].
  destruct (stateNode (fibers s (last l f))); reflexivity.
Qed.

Lemma scheduleUpdateFrom_walk fuel p l : forall budget f s,
  returnPath (fibers s) f l -> (List.length l < budget)%nat ->
  exists s1,
    (forall g, fibers s1 g = markStore (raisedTo p) (fibers s) (f :: l) g) /\
    set_fibers (fibers s) s1 = s /\
    scheduleUpdateFrom budget fuel f p s =
      if tag (fibers s (last l f)) =? HostContainer
      then scheduleWorkAtPriority fuel (stateNode (fibers s (last l f))) p s1
      else (Threw invalidRootError, s1).
Proof.
  unfold returnPath.
  induction l as [|x l IH]; intros budget f s Hpath Hlen;
    (destruct budget as [|budget]; [simpl in Hlen; lia|]);
    destruct (markPendingPriority_step p f s) as (s1 & Hstep & Hfs & Hframe);
    cbn [scheduleUpdateFrom]; unfold bind at 1; rewrite Hstep;
    unfold bind at 1, gets at 1;
    rewrite Hfs; rewrite (proj1 (proj2 (proj2 (markStore_shape _ _ _ _))));
    simpl in Hpath.
  - rewrite Hpath. unfold bind at 1, gets at 1. rewrite Hfs.
    rewrite (proj1 (markStore_shape _ _ _ _)). simpl.
    exists s1. split; [exact Hfs|]. split; [exact Hframe|].
    destruct (tag (fibers s f) =? HostContainer); [|reflexivity].
    unfold bind, gets.
    rewrite Hfs, (proj1 (proj2 (markStore_shape _ _ _ _))). reflexivity.
  - destruct Hpath as [Hx Hpath]. rewrite Hx.
    destruct (IH budget x s1) as (s2 & Hfs2 & Hframe2 & Hrun).
    + eapply chain_ext; [|rewrite Hfs;
        rewrite (proj1 (proj2 (proj2 (markStore_shape _ _ _ _))));
        exact Hpath].
      intros y. simpl. rewrite Hfs.
      apply (proj1 (proj2 (proj2 (markStore_shape _ _ _ _)))).
    + simpl in Hlen. lia.
    + exists s2. split; [|split].
      * intros g. rewrite Hfs2. apply markStore_cons; auto.
        apply raisedTo_idempotent.
      * eapply set_fibers_trans; eauto.
      * rewrite Hrun. rewrite Hfs.
        rewrite (proj1 (markStore_shape _ _ _ _)).
        rewrite (proj1 (proj2 (markStore_shape _ _ _ _))).
        rewrite last_cons_default. reflexivity.
Qed.

(** X3.  [scheduleUpdate] walks from the fiber to the ancestor without
    return parent, giving each fiber of the path and each alternate of one
    the priority context where its pending priority is [NoWork] or not more
    urgent, and leaving it where it is more urgent.  At an ancestor that is
    a [HostContainer] it then schedules the root held there at the priority
    context; at any other it throws "Invalid root", the priorities written on
    the way staying written.  Where the container holds no root, nothing is
    scheduled at the priority [NoWork], and at any other priority the call
    fails on [root.current]: at once in [scheduleSynchronousWork] and
    [scheduleAnimationWork], and in [scheduleDeferredWork] after the reset
    of [nextUnitOfWork]. *)
Theorem scheduleUpdate_walks_to_the_root fuel f s l :
  returnPath (fibers s) f l -> (List.length l < fuel)%nat ->
  let p := priorityContext s in
  let nullRoot := JsError "Cannot read property 'current' of null" in
  exists s1,
    (forall g, fibers s1 g = markStore (raisedTo p) (fibers s) (f :: l) g) /\
    set_fibers (fibers s) s1 = s /\
    scheduleUpdate fuel f s =
      (if tag (fibers s (last l f)) =? HostContainer
       then scheduleWorkAtPriority fuel (stateNode (fibers s (last l f))) p s1
       else (Threw invalidRootError, s1)) /\
    scheduleWorkAtPriority fuel None p s1 =
      (if p =? NoWork then (Ok tt, s1)
       else if (p =? SynchronousPriority) || (p <=? AnimationPriority)
       then (Threw nullRoot, s1)
       else (Threw nullRoot,
             if p <=? nextPriorityLevel s then set_nextUnitOfWork None s1
             else s1)).
Proof.
  intros Hpath Hlen p nullRoot.
  destruct (scheduleUpdateFrom_walk fuel p l fuel f s Hpath Hlen)
    as (s1 & Hfs & Hframe & Hrun).
  exists s1. split; [exact Hfs|]. split; [exact Hframe|]. split.
  - unfold scheduleUpdate, bind, gets. exact Hrun.
  - assert (Hlevel : nextPriorityLevel s1 = nextPriorityLevel s)
      by (rewrite <- Hframe; reflexivity).
    unfold scheduleWorkAtPriority.
    destruct (p =? NoWork); [reflexivity|].
    destruct (p =? SynchronousPriority); [reflexivity|].
    destruct (p <=? AnimationPriority); [reflexivity|].
    unfold bind, gets, modify, ret, throw. rewrite Hlevel.
    destruct (p <=? nextPriorityLevel s); reflexivity.
Qed.

End PathToRoot.

(** ** The scan of an empty registry *)

Section EmptyRegistry.
Context {Host : Type} {K : Constants} {E : Env Host}.
Implicit Type s : State Host.

Lemma findNextUnitOfWork_none fuel s :
  nextScheduledRoot s = None ->
  findNextUnitOfWork fuel s = (Ok None, set_nextPriorityLevel NoWork s).
Proof.
  intros Hn. unfold findNextUnitOfWork, bind.
  assert (Hc : clearEmptyRoots fuel s = (Ok false, s)).
  { destruct fuel; cbn [clearEmptyRoots]; unfold bind, gets;
      rewrite Hn; reflexivity. }
  rewrite Hc. unfold gets. rewrite Hn.
  destruct fuel; reflexivity.
Qed.

End EmptyRegistry.

(** ** The registry under scheduling *)

Section RegistryKept.
Context {Host : Type} {K : Constants} {E : Env Host}.
Implicit Type s : State Host.

(** Case analysis on the tests of a scheduling function. *)
Ltac run_cases :=
  repeat (state_simpl;
          match goal with
          | |- context [if ?c then _ else _] => destruct c eqn:?
          | |- context [match ?c with Some _ => _ | None => _ end] =>
            destruct c eqn:?
          end);
  state_simpl.

Lemma scheduleDeferredWork_registry root p s :
  let s' := snd (scheduleDeferredWork root p s) in
  if FiberRoot.isScheduled (roots s root) then
    roots s' = roots s /\ nextScheduledRoot s' = nextScheduledRoot s /\
    lastScheduledRoot s' = lastScheduledRoot s
  else
    roots s' = enqueued (roots s) (lastScheduledRoot s) root /\
    nextScheduledRoot s' =
      match lastScheduledRoot s with
      | Some _ => nextScheduledRoot s
      | None => Some root
      end /\
    lastScheduledRoot s' = Some root.
Proof.
  unfold scheduleDeferredWork, raiseRootPriority, appendRoot,
    requestDeferredCallback, enqueued, bind, gets, modify, ret, rootPriority.
  state_simpl.
  destruct (p <=? nextPriorityLevel s); state_simpl;
    destruct ((_ =? NoWork) || _); state_simpl;
    destruct (FiberRoot.isScheduled (roots s root)); state_simpl;
    try (destruct (lastScheduledRoot s) eqn:Hlast; state_simpl);
    destruct (isDeferredCallbackScheduled s); state_simpl;
    repeat split; first [reflexivity | congruence].
Qed.

Lemma scheduleAnimationWork_registry root p s :
  let s' := snd (scheduleAnimationWork root p s) in
  if FiberRoot.isScheduled (roots s root) then
    roots s' = roots s /\ nextScheduledRoot s' = nextScheduledRoot s /\
    lastScheduledRoot s' = lastScheduledRoot s
  else
    roots s' = enqueued (roots s) (lastScheduledRoot s) root /\
    nextScheduledRoot s' =
      match lastScheduledRoot s with
      | Some _ => nextScheduledRoot s
      | None => Some root
      end /\
    lastScheduledRoot s' = Some root.
Proof.
  unfold scheduleAnimationWork, raiseRootPriority, appendRoot,
    requestAnimationCallback, enqueued, bind, gets, modify, ret, rootPriority.
  state_simpl.
  destruct ((_ =? NoWork) || _); state_simpl;
    destruct (FiberRoot.isScheduled (roots s root)); state_simpl;
    try (destruct (lastScheduledRoot s) eqn:Hlast; state_simpl);
    destruct (isAnimationCallbackScheduled s); state_simpl;
    repeat split; first [reflexivity | congruence].
Qed.

Lemma enqueueSynchronous_registry root s :
  let s' := enqueueSynchronous root s in
  if FiberRoot.isScheduled (roots s root) then
    roots s' = roots s /\ nextScheduledRoot s' = nextScheduledRoot s /\
    lastScheduledRoot s' = lastScheduledRoot s
  else
    roots s' = enqueued (roots s) (lastScheduledRoot s) root /\
    nextScheduledRoot s' =
      match lastScheduledRoot s with
      | Some _ => nextScheduledRoot s
      | None => Some root
      end /\
    lastScheduledRoot s' = Some root.
Proof.
  unfold enqueueSynchronous, enqueued. state_simpl.
  destruct (FiberRoot.isScheduled (roots s root)); state_simpl;
    try (destruct (lastScheduledRoot s) eqn:Hlast; state_simpl);
    repeat split; first [reflexivity | congruence].
Qed.

Lemma NoDup_snoc {A} (l : list A) (x : A) :
  NoDup l -> ~ In x l -> NoDup (l ++ [x]).
Proof.
  induction l as [|a l IH]; simpl; intros Hd Hx.
  - repeat constructor. simpl. tauto.
  - inversion Hd as [|? ? Ha Hd']; subst. constructor.
    + rewrite in_app_iff. simpl. intuition congruence.
    + apply IH; tauto.
Qed.

Lemma linked_snoc rs root lst l' :
  let rs1 := upd rs root (FiberRoot.set_isScheduled true (rs root)) in
  let rs' :=
    upd rs1 lst (FiberRoot.set_nextScheduledRoot (Some root) (rs1 lst)) in
  linked rs (l' ++ [lst]) -> NoDup (l' ++ [lst]) ->
  ~ In root (l' ++ [lst]) ->
  FiberRoot.nextScheduledRoot (rs root) = None ->
  linked rs' ((l' ++ [lst]) ++ [root]).
Proof.
  intros rs1 rs'. induction l' as [|x l' IH]; intros Hl Hd Hroot Hnone.
  - simpl in *. assert (Hne : root <> lst) by (simpl in *; intuition congruence).
    split; [|split; [|exact I]].
    + subst rs'. rewrite upd_same. reflexivity.
    + subst rs' rs1. rewrite upd_other by exact Hne. rewrite upd_same.
      exact Hnone.
  - simpl in Hl, Hd, Hroot. destruct Hl as [Hx Hl].
    inversion Hd as [|? ? Hnotin Hd']; subst.
    assert (Hxl : x <> lst).
    { intros ->. apply Hnotin. apply in_or_app. right. left. reflexivity. }
    assert (Hxr : x <> root) by (simpl in *; intuition congruence).
    simpl. split.
    + subst rs' rs1. rewrite !upd_other by assumption. rewrite Hx.
      destruct l'; reflexivity.
    + apply IH; auto.
Qed.

Lemma registryInv_enqueue s s' l root :
  registryInv s l ->
  (if FiberRoot.isScheduled (roots s root) then
     roots s' = roots s /\ nextScheduledRoot s' = nextScheduledRoot s /\
     lastScheduledRoot s' = lastScheduledRoot s
   else
     roots s' = enqueued (roots s) (lastScheduledRoot s) root /\
     nextScheduledRoot s' =
       match lastScheduledRoot s with
       | Some _ => nextScheduledRoot s
       | None => Some root
       end /\
     lastScheduledRoot s' = Some root) ->
  registryInv s' (if existsb (Pos.eqb root) l then l else l ++ [root]).
Proof.
  intros ((Hn & Hl & Hk & Hd) & Hflag & Hfree) Hs'.
  destruct (FiberRoot.isScheduled (roots s root)) eqn:Hsch.
  - destruct Hs' as (Hr & Hn' & Hl').
    assert (Hin : In root l) by (apply Hflag; exact Hsch).
    assert (He : existsb (Pos.eqb root) l = true).
    { apply existsb_exists. exists root. split; [exact Hin|].
      apply Pos.eqb_refl. }
    rewrite He. unfold registryInv, registry. rewrite Hr, Hn', Hl'.
    repeat split; auto; apply Hflag.
  - destruct Hs' as (Hr & Hn' & Hl').
    assert (Hnin : ~ In root l).
    { intros Hin. apply Hflag in Hin. congruence. }
    assert (He : existsb (Pos.eqb root) l = false).
    { destruct (existsb (Pos.eqb root) l) eqn:Hex; [|reflexivity].
      apply existsb_exists in Hex. destruct Hex as (x & Hx & Heq).
      apply Pos.eqb_eq in Heq. subst x. contradiction. }
    rewrite He. unfold registryInv, registry. rewrite Hr, Hn', Hl'.
    unfold enqueued. rewrite Hl.
    destruct (last_error l) as [lst|] eqn:Hlast.
    + destruct (last_error_some _ _ Hlast) as [l' ->].
      assert (Hne : root <> lst).
      { intros ->. apply Hnin. apply in_or_app. right. left. reflexivity. }
      split; [split; [|split; [|split]]|split].
      * rewrite Hn. destruct l'; reflexivity.
      * rewrite last_error_app. reflexivity.
      * apply linked_snoc; auto.
      * apply NoDup_snoc; assumption.
      * intros r. rewrite in_app_iff. simpl.
        destruct (Pos.eq_dec r lst) as [->|Hrl].
        -- rewrite upd_same. simpl. rewrite upd_other by auto.
           rewrite Hflag. rewrite in_app_iff. simpl. tauto.
        -- rewrite upd_other by exact Hrl.
           destruct (Pos.eq_dec r root) as [->|Hrr].
           ++ rewrite upd_same. simpl. tauto.
           ++ rewrite upd_other by exact Hrr. rewrite Hflag, in_app_iff.
              simpl. intuition congruence.
      * intros r Hr'. rewrite in_app_iff in Hr'. simpl in Hr'.
        assert (Hrl : r <> lst).
        { intros ->. apply Hr'. left. apply in_or_app. right. left.
          reflexivity. }
        assert (Hrr : r <> root) by (simpl in *; intuition congruence).
        rewrite !upd_other by assumption. apply Hfree. tauto.
    + apply last_error_nil in Hlast. subst l. simpl.
      split; [split; [|split; [|split]]|split].
      * reflexivity.
      * reflexivity.
      * split; [|exact I]. rewrite upd_same. simpl. apply Hfree. exact Hnin.
      * repeat constructor. simpl. tauto.
      * intros r. destruct (Pos.eq_dec r root) as [->|Hrr].
        -- rewrite upd_same. simpl. tauto.
        -- rewrite upd_other by exact Hrr. rewrite Hflag. simpl.
           intuition congruence.
      * intros r Hr'. simpl in Hr'.
        rewrite upd_other by (simpl in *; intuition congruence). apply Hfree. simpl. tauto.
Qed.

(** X4.  Scheduling keeps the registry well formed and holds each root at
    most once: [scheduleDeferredWork], [scheduleAnimationWork] and, while
    updates are batched, [scheduleSynchronousWork] leave the registry as it
    is for a root that is in it, and put any other root at its end. *)
Theorem scheduling_enqueues_a_root_once fuel root p s l :
  registryInv s l ->
  let l' := if existsb (Pos.eqb root) l then l else l ++ [root] in
  registryInv (snd (scheduleDeferredWork root p s)) l' /\
  registryInv (snd (scheduleAnimationWork root p s)) l' /\
  (shouldBatchUpdates s = true ->
   registryInv (snd (scheduleSynchronousWork fuel root s)) l').
Proof.
  intros Hinv l'. split; [|split].
  - apply (registryInv_enqueue s _ l root Hinv).
    apply scheduleDeferredWork_registry.
  - apply (registryInv_enqueue s _ l root Hinv).
    apply scheduleAnimationWork_registry.
  - intros Hb.
    assert (Hrun : scheduleSynchronousWork fuel root s =
                   (Ok tt, enqueueSynchronous root s)).
    { unfold scheduleSynchronousWork, enqueueSynchronous, bind, gets, modify,
        ret. state_simpl.
      destruct (FiberRoot.isScheduled (roots s root)); [reflexivity|].
      state_simpl. destruct (lastScheduledRoot s); [reflexivity|].
      state_simpl. rewrite Hb. reflexivity. }
    rewrite Hrun. apply (registryInv_enqueue s _ l root Hinv).
    apply enqueueSynchronous_registry.
Qed.

Lemma findNextUnitOfWork_roots fuel s returned s1 :
  clearEmptyRoots fuel s = (Ok returned, s1) ->
  let s' := snd (findNextUnitOfWork fuel s) in
  roots s' = roots s1 /\ nextScheduledRoot s' = nextScheduledRoot s1 /\
  lastScheduledRoot s' = lastScheduledRoot s1.
Proof.
  intros Hclear. unfold findNextUnitOfWork, bind. rewrite Hclear.
  destruct returned; [repeat split|].
  unfold gets.
  destruct (findHighestPriorityRoot fuel s1 (nextScheduledRoot s1) None NoWork)
    as [[[r|] level]|]; try (repeat split; reflexivity).
  unfold modify, cloneFiberM, ret. state_simpl.
  destruct (cloneFiber _ level (fibers s1)). repeat split.
Qed.

(** X5.  [findNextUnitOfWork] keeps the registry well formed: afterwards it
    holds the roots that were behind the leading ones without pending work,
    these are the roots still flagged as scheduled, and the roots it dropped
    have no link left. *)
Theorem findNextUnitOfWork_keeps_the_registry fuel s l :
  registryInv s l -> (List.length l <= fuel)%nat ->
  registryInv (snd (findNextUnitOfWork fuel s)) (dropEmpty s l).
Proof.
  intros (Hreg & Hflag & Hfree) Hlen.
  destruct (clearEmptyRoots_spec l s fuel Hreg Hlen)
    as (returned & s1 & Hclear & Hcl).
  pose proof (cleared_registry s l s1 returned Hreg Hcl) as Hreg1.
  destruct (findNextUnitOfWork_roots fuel s returned s1 Hclear)
    as (Hr & Hn & Hl).
  destruct Hcl as (_ & Hgone & Hkept & _).
  pose proof (emptyPrefix_dropEmpty s l) as Hsplit.
  assert (Hd : NoDup (emptyPrefix s l ++ dropEmpty s l))
    by (rewrite <- Hsplit; apply Hreg).
  assert (Hdisj : forall r, In r (emptyPrefix s l) ->
                            ~ In r (dropEmpty s l)).
  { intros r Hin Hin'. eapply NoDup_app_disjoint; eauto. }
  unfold registryInv, registry. rewrite Hr, Hn, Hl.
  split; [exact Hreg1|]. split.
  - intros r. destruct (in_dec Pos.eq_dec r (emptyPrefix s l)) as [Hin|Hnin].
    + rewrite (proj1 (Hgone r Hin)). split; [discriminate|].
      intros Hin'. exfalso. exact (Hdisj r Hin Hin').
    + rewrite (Hkept r Hnin), Hflag. rewrite Hsplit at 1.
      rewrite in_app_iff. tauto.
  - intros r Hnin.
    destruct (in_dec Pos.eq_dec r (emptyPrefix s l)) as [Hin|Hnin'].
    + apply (Hgone r Hin).
    + rewrite (Hkept r Hnin'). apply Hfree. rewrite Hsplit, in_app_iff. tauto.
Qed.

(** X6.  A scheduling call asks the host for a callback only when none of
    its kind is pending: [scheduleDeferredWork] calls
    [scheduleDeferredCallback] once when [isDeferredCallbackScheduled] is
    unset and not at all when it is set, and ends with the flag set;
    [scheduleAnimationWork] does the same with the animation callback; and
    neither touches the callback of the other kind. *)
Theorem scheduling_requests_one_callback root p s :
  (host (snd (scheduleDeferredWork root p s)) =
     (if isDeferredCallbackScheduled s then host s
      else scheduleDeferredCallback (host s)) /\
   isDeferredCallbackScheduled (snd (scheduleDeferredWork root p s)) = true /\
   isAnimationCallbackScheduled (snd (scheduleDeferredWork root p s)) =
     isAnimationCallbackScheduled s) /\
  (host (snd (scheduleAnimationWork root p s)) =
     (if isAnimationCallbackScheduled s then host s
      else scheduleAnimationCallback (host s)) /\
   isAnimationCallbackScheduled (snd (scheduleAnimationWork root p s)) = true /\
   isDeferredCallbackScheduled (snd (scheduleAnimationWork root p s)) =
     isDeferredCallbackScheduled s).
Proof.
  split.
  - unfold scheduleDeferredWork, raiseRootPriority, appendRoot,
      requestDeferredCallback, bind, gets, modify, ret, rootPriority.
    state_simpl.
    destruct (p <=? nextPriorityLevel s); state_simpl;
      destruct ((_ =? NoWork) || _); state_simpl;
      destruct (FiberRoot.isScheduled (roots s root)); state_simpl;
      try (destruct (lastScheduledRoot s); state_simpl);
      destruct (isDeferredCallbackScheduled s) eqn:Hflag; state_simpl;
      repeat split; first [reflexivity | congruence].
  - unfold scheduleAnimationWork, raiseRootPriority, appendRoot,
      requestAnimationCallback, bind, gets, modify, ret, rootPriority.
    state_simpl.
    destruct ((_ =? NoWork) || _); state_simpl;
      destruct (FiberRoot.isScheduled (roots s root)); state_simpl;
      try (destruct (lastScheduledRoot s); state_simpl);
      destruct (isAnimationCallbackScheduled s) eqn:Hflag; state_simpl;
      repeat split; first [reflexivity | congruence].
Qed.

(** X7.  [scheduleSynchronousWork] flushes at once exactly when the root was
    not scheduled, the registry was empty and updates are not batched: it
    then runs [performSynchronousWork] on the state with the root enqueued.
    In every other case it returns after marking and enqueueing the root,
    without a flush and without a call to the host. *)
Theorem scheduleSynchronousWork_flushes_when_alone fuel root s :
  (FiberRoot.isScheduled (roots s root) = false ->
   lastScheduledRoot s = None -> shouldBatchUpdates s = false ->
   scheduleSynchronousWork fuel root s =
     performSynchronousWork fuel (enqueueSynchronous root s)) /\
  (FiberRoot.isScheduled (roots s root) = true \/
   lastScheduledRoot s <> None \/ shouldBatchUpdates s = true ->
   scheduleSynchronousWork fuel root s = (Ok tt, enqueueSynchronous root s)) /\
  host (enqueueSynchronous root s) = host s.
Proof.
  unfold scheduleSynchronousWork, enqueueSynchronous, bind, gets, modify, ret.
  state_simpl. split; [|split].
  - intros Hs Hl Hb. rewrite Hs. state_simpl. rewrite Hl. state_simpl.
    rewrite Hb. reflexivity.
  - intros H. destruct (FiberRoot.isScheduled (roots s root)); [reflexivity|].
    state_simpl. destruct (lastScheduledRoot s); [reflexivity|].
    state_simpl. destruct H as [H|[H|H]]; try discriminate; try congruence.
    rewrite H. reflexivity.
  - destruct (FiberRoot.isScheduled (roots s root)); [reflexivity|].
    state_simpl. destruct (lastScheduledRoot s); reflexivity.
Qed.

(** X8.  A root whose [isScheduled] flag is set while the registry is empty
    (the state in which [handleErrors] leaves the roots that were scheduled
    when it surfaces an uncaught error) is not enqueued by
    [scheduleDeferredWork] or [scheduleAnimationWork]: the registry stays
    empty, and the next [findNextUnitOfWork] finds no work.  The end of
    [handleErrors] empties the registry without writing to any root. *)
Theorem flagged_root_is_not_enqueued fuel root p s :
  FiberRoot.isScheduled (roots s root) = true ->
  nextScheduledRoot s = None ->
  (forall fu s0, truthy fu = true ->
     roots (snd (surfaceUncaughtError fu s0)) = roots s0 /\
     nextScheduledRoot (snd (surfaceUncaughtError fu s0)) = None) /\
  (nextScheduledRoot (snd (scheduleDeferredWork root p s)) = None /\
   fst (findNextUnitOfWork fuel (snd (scheduleDeferredWork root p s))) =
     Ok None) /\
  (nextScheduledRoot (snd (scheduleAnimationWork root p s)) = None /\
   fst (findNextUnitOfWork fuel (snd (scheduleAnimationWork root p s))) =
     Ok None).
Proof.
  intros Hflag Hn.
  pose proof (scheduleDeferredWork_registry root p s) as Hd.
  pose proof (scheduleAnimationWork_registry root p s) as Ha.
  cbv zeta in Hd, Ha. rewrite Hflag in Hd, Ha.
  destruct Hd as (_ & Hd & _). destruct Ha as (_ & Ha & _).
  rewrite Hn in Hd, Ha.
  split.
  { intros fu s0 Hfu. unfold surfaceUncaughtError, bind, modify, throw.
    rewrite Hfu. split; reflexivity. }
  split; (split; [assumption|]);
    rewrite findNextUnitOfWork_none by assumption; reflexivity.
Qed.

End RegistryKept.

(** ** Batches, error passes and the exits of the work loops *)

Section BatchesAndLoops.
Context {Host : Type} {K : Constants} {E : Env Host}.
Implicit Type s : State Host.

Lemma performSynchronousWork_restores fuel s :
  fst (performSynchronousWork fuel s) <> OutOfFuel ->
  shouldBatchUpdates (snd (performSynchronousWork fuel s)) =
    shouldBatchUpdates s.
Proof.
  unfold performSynchronousWork, bind, gets, modify, try_finally. state_simpl.
  destruct (performAndHandleErrors fuel SynchronousPriority None
              (set_shouldBatchUpdates true s)) as [[[]| |] s1]; simpl;
    intros H; try reflexivity. congruence.
Qed.

(** X9.  [batchedUpdates] runs [fn] with updates batched.  Called inside a
    batch it returns what [fn] returned or threw, without a flush.  Called
    outside of one it runs [performSynchronousWork] after [fn], also when
    [fn] threw, and an exception of the flush replaces the outcome of [fn].
    In both cases [shouldBatchUpdates] ends with the value it had before
    the call. *)
Theorem batchedUpdates_flushes_at_the_outermost_exit
  (A : Type) fuel (fn : M Host A) s :
  (forall r s',
     fn (set_shouldBatchUpdates true s) = (r, s') -> r <> OutOfFuel ->
     (shouldBatchUpdates s = true ->
      batchedUpdates fuel fn s = (r, set_shouldBatchUpdates true s')) /\
     (shouldBatchUpdates s = false ->
      batchedUpdates fuel fn s =
        match performSynchronousWork fuel (set_shouldBatchUpdates false s')
        with
        | (Ok _, s2) => (r, s2)
        | (Threw e, s2) => (Threw e, s2)
        | (OutOfFuel, s2) => (OutOfFuel, s2)
        end)) /\
  (fst (batchedUpdates fuel fn s) <> OutOfFuel ->
   shouldBatchUpdates (snd (batchedUpdates fuel fn s)) = shouldBatchUpdates s).
Proof.
  split.
  - intros r s' Hfn Hr. split; intros Hb;
      unfold batchedUpdates, bind, gets, modify, try_finally, ret;
      state_simpl; rewrite Hfn, Hb; state_simpl.
    + destruct r; try reflexivity. congruence.
    + destruct r; try reflexivity. congruence.
  - unfold batchedUpdates, bind, gets, modify, try_finally, ret. state_simpl.
    destruct (fn (set_shouldBatchUpdates true s)) as [r s'].
    destruct (shouldBatchUpdates s) eqn:Hb.
    + destruct r; simpl; intros H; try reflexivity. congruence.
    + pose proof (performSynchronousWork_restores fuel
                    (set_shouldBatchUpdates false s')) as Hflush.
      destruct r; state_simpl;
        try (intros H; exfalso; apply H; reflexivity);
        destruct (performSynchronousWork fuel
                    (set_shouldBatchUpdates false s')) as [[[]| |] s2];
        simpl in *; intros H; try (apply Hflush; discriminate); congruence.
Qed.

Lemma passErrorToBoundary_affected e v s v' s' :
  passErrorToBoundary e v s = (Ok v', s') ->
  affectedBoundaries v' = affectedBoundaries v \/
  exists b, boundary e = Some b /\ ~ In b (affectedBoundaries v) /\
            affectedBoundaries v' = affectedBoundaries v ++ [b].
Proof.
  unfold passErrorToBoundary. destruct (boundary e) as [b|].
  - destruct (existsb (Pos.eqb b) (affectedBoundaries v)) eqn:Hseen.
    + intros H; inversion H; subst. left; reflexivity.
    + unfold try_catch, bind, ret, trapErrorM, gets.
      destruct (acknowledgeErrorInBoundary b (error e) s) as [[[]| |] s1];
        intros H; inversion H; subst; simpl.
      * right. exists b. split; [reflexivity|]. split; [|reflexivity].
        intros Hin.
        assert (Hex : existsb (Pos.eqb b) (affectedBoundaries v) = true).
        { apply existsb_exists. exists b. split; [exact Hin|].
          apply Pos.eqb_refl. }
        congruence.
      * left; reflexivity.
  - intros H; inversion H; subst. left; reflexivity.
Qed.

Lemma NoDup_snoc_fresh {A} (l : list A) (x : A) :
  NoDup l -> ~ In x l -> NoDup (l ++ [x]).
Proof.
  induction l as [|a l IH]; simpl; intros Hd Hx.
  - repeat constructor. simpl. tauto.
  - inversion Hd as [|? ? Ha Hd']; subst. constructor.
    + rewrite in_app_iff. simpl. intuition congruence.
    + apply IH; tauto.
Qed.

(** X10.  One pass of [handleErrors] over a batch of trapped errors puts no
    boundary twice on the list of the boundaries to update: the list only
    grows at its end, stays free of duplicates, and every boundary added is
    the boundary of an error of the batch. *)
Theorem passErrorsToBoundaries_visits_a_boundary_once l : forall v s v' s',
  passErrorsToBoundaries l v s = (Ok v', s') ->
  NoDup (affectedBoundaries v) ->
  NoDup (affectedBoundaries v') /\
  exists added,
    affectedBoundaries v' = affectedBoundaries v ++ added /\
    forall b, In b added -> exists e, In e l /\ boundary e = Some b.
Proof.
  induction l as [|e l IH]; intros v s v' s' Hrun Hd; simpl in Hrun.
  - inversion Hrun; subst. split; [exact Hd|].
    exists []. rewrite app_nil_r. split; [reflexivity|]. intros b [].
  - unfold bind in Hrun.
    destruct (passErrorToBoundary e v s) as [[v1| |] s1] eqn:H1;
      try discriminate.
    apply passErrorToBoundary_affected in H1.
    destruct H1 as [H1|(b & Hb & Hfresh & H1)].
    + destruct (IH v1 s1 v' s' Hrun) as (Hd' & added & Hadd & Hsrc);
        [rewrite H1; exact Hd|].
      split; [exact Hd'|]. exists added. split; [congruence|].
      intros x Hx. destruct (Hsrc x Hx) as (e' & He' & Hbe).
      exists e'. split; [right; exact He'|exact Hbe].
    + destruct (IH v1 s1 v' s' Hrun) as (Hd' & added & Hadd & Hsrc);
        [rewrite H1; apply NoDup_snoc_fresh; assumption|].
      split; [exact Hd'|]. exists (b :: added). split.
      * rewrite Hadd, H1, <- app_assoc. reflexivity.
      * intros x [<-|Hx].
        -- exists e. split; [left; reflexivity|exact Hb].
        -- destruct (Hsrc x Hx) as (e' & He' & Hbe).
           exists e'. split; [right; exact He'|exact Hbe].
Qed.

Lemma passErrorsToBoundaries_falsy l : forall v s,
  (forall e, In e l -> boundary e = None /\ truthy (error e) = false) ->
  truthy (firstUncaughtError v) = false ->
  exists fu,
    passErrorsToBoundaries l v s =
      (Ok (mkErrorPass fu (nextTrappedErrors v) (affectedBoundaries v)), s) /\
    truthy fu = false.
Proof.
  induction l as [|e l IH]; intros v s Hall Hfu; simpl.
  - exists (firstUncaughtError v). split; [destruct v; reflexivity|exact Hfu].
  - destruct (Hall e (or_introl eq_refl)) as [Hb He].
    unfold bind, passErrorToBoundary. rewrite Hb. unfold ret.
    apply (IH (mkErrorPass (js_or (firstUncaughtError v) (error e))
                 (nextTrappedErrors v) (affectedBoundaries v)) s).
    + intros e' He'. apply Hall. right; exact He'.
    + simpl. unfold js_or. rewrite Hfu. exact He.
Qed.

(** X11.  An error without boundary is surfaced only when its value is
    truthy.  For a batch of errors that have no boundary and whose values
    are all falsy (none at all, or thrown values such as [null], [0] or the
    empty string), [handleErrors] returns normally: nothing is thrown, the
    registry is left as it is, and only [ReactCurrentOwner.current] is
    reset. *)
Theorem handleErrors_drops_falsy_errors fuel l s :
  (forall e, In e l -> boundary e = None /\ truthy (error e) = false) ->
  handleErrors (S (S fuel)) l s = (Ok tt, set_currentOwner None s).
Proof.
  intros Hall. cbn [handleErrors handleErrorsLoop].
  destruct (passErrorsToBoundaries_falsy l (mkErrorPass JsNull None []) s Hall
              eq_refl) as (fu & Hpass & Hfu).
  simpl in Hpass. unfold bind at 1. unfold bind at 1. rewrite Hpass.
  cbn [affectedBoundaries nextTrappedErrors firstUncaughtError
       updateBoundaries].
  unfold bind at 1, ret at 1.
  destruct fuel; cbn [handleErrorsLoop]; unfold ret at 1;
    unfold surfaceUncaughtError, bind, modify, ret; rewrite Hfu; reflexivity.
Qed.

Lemma requestDeferredCallback_sets s :
  fst (requestDeferredCallback s) = Ok tt /\
  isDeferredCallbackScheduled (snd (requestDeferredCallback s)) = true /\
  nextUnitOfWork (snd (requestDeferredCallback s)) = nextUnitOfWork s /\
  nextPriorityLevel (snd (requestDeferredCallback s)) = nextPriorityLevel s /\
  fibers (snd (requestDeferredCallback s)) = fibers s.
Proof.
  unfold requestDeferredCallback, bind, gets, modify, ret.
  destruct (isDeferredCallbackScheduled s) eqn:H; state_simpl; auto.
Qed.

Lemma requestAnimationCallback_sets s :
  fst (requestAnimationCallback s) = Ok tt /\
  isAnimationCallbackScheduled (snd (requestAnimationCallback s)) = true /\
  nextUnitOfWork (snd (requestAnimationCallback s)) = nextUnitOfWork s /\
  nextPriorityLevel (snd (requestAnimationCallback s)) = nextPriorityLevel s.
Proof.
  unfold requestAnimationCallback, bind, gets, modify, ret.
  destruct (isAnimationCallbackScheduled s) eqn:H; state_simpl; auto.
Qed.

Lemma deferredLoop_exit fuel d : forall budget s s',
  deferredLoop budget fuel d s = (Ok tt, s') ->
  nextUnitOfWork s' = None \/ isDeferredCallbackScheduled s' = true.
Proof.
  induction budget as [|budget IH]; intros s s' Hrun;
    cbn [deferredLoop] in Hrun; unfold bind at 1, gets at 1 in Hrun;
    destruct (nextUnitOfWork s) as [u|] eqn:Hu;
    try (inversion Hrun; subst; left; exact Hu); try discriminate.
  unfold bind at 1 in Hrun.
  destruct (timeRemaining d s) as [[t| |] s1]; try discriminate.
  destruct (negb (Qle_bool t timeHeuristicForUnitOfWork)).
  - unfold bind at 1 in Hrun.
    destruct (performNextUnit fuel u s1) as [[[]| |] s2]; try discriminate.
    eapply IH; eauto.
  - right. destruct (requestDeferredCallback_sets s1) as (_ & Hflag & _).
    rewrite Hrun in Hflag. exact Hflag.
Qed.

(** X12.  The deferred flush never stops with work in hand and no callback
    pending: when [performDeferredWorkUnsafe] returns, [nextUnitOfWork] is
    [null] or [isDeferredCallbackScheduled] is set.  With a unit of work in
    hand and a deadline that has no more than [timeHeuristicForUnitOfWork]
    left, it performs no unit of work at all: it only reads the clock and
    asks for a deferred callback, keeping [nextUnitOfWork] for the next
    tick. *)
Theorem performDeferredWorkUnsafe_yields_with_a_callback fuel d s :
  (forall s', performDeferredWorkUnsafe fuel d s = (Ok tt, s') ->
     nextUnitOfWork s' = None \/ isDeferredCallbackScheduled s' = true) /\
  (forall u t h,
     nextUnitOfWork s = Some u -> d (host s) = (t, h) ->
     Qle_bool t timeHeuristicForUnitOfWork = true ->
     performDeferredWorkUnsafe (S fuel) d s =
       requestDeferredCallback (set_host h s) /\
     nextUnitOfWork (snd (performDeferredWorkUnsafe (S fuel) d s)) = Some u /\
     fibers (snd (performDeferredWorkUnsafe (S fuel) d s)) = fibers s).
Proof.
  split.
  - intros s' Hrun. unfold performDeferredWorkUnsafe in Hrun.
    unfold bind at 1, gets at 1 in Hrun. unfold bind at 1 in Hrun.
    destruct (nextUnitOfWork s).
    + unfold ret at 1 in Hrun. eapply deferredLoop_exit; eauto.
    + unfold bind at 1 in Hrun.
      destruct (findNextUnitOfWork fuel s) as [[found| |] s1];
        try discriminate.
      unfold modify at 1 in Hrun. eapply deferredLoop_exit; eauto.
  - intros u t h Hu Hd Ht.
    assert (Hrun : performDeferredWorkUnsafe (S fuel) d s =
                   requestDeferredCallback (set_host h s)).
    { unfold performDeferredWorkUnsafe. unfold bind at 1, gets at 1.
      rewrite Hu. unfold bind at 1, ret at 1. cbn [deferredLoop].
      unfold bind at 1, gets at 1. rewrite Hu.
      unfold bind at 1, timeRemaining. rewrite Hd, Ht. reflexivity. }
    rewrite Hrun.
    destruct (requestDeferredCallback_sets (set_host h s))
      as (_ & _ & Hw & _ & Hf).
    split; [reflexivity|]. split; [rewrite Hw; exact Hu|exact Hf].
Qed.

Lemma animationLoop_exit fuel : forall budget s s',
  animationLoop budget fuel s = (Ok tt, s') ->
  nextUnitOfWork s' = None \/
  negb (nextPriorityLevel s' =? NoWork)
  && (nextPriorityLevel s' <=? AnimationPriority) = false.
Proof.
  induction budget as [|budget IH]; intros s s' Hrun;
    cbn [animationLoop] in Hrun; unfold bind at 1, gets at 1 in Hrun;
    unfold bind at 1, gets at 1 in Hrun;
    destruct (nextUnitOfWork s) as [u|] eqn:Hu;
    try (inversion Hrun; subst; left; exact Hu);
    destruct (negb (nextPriorityLevel s =? NoWork)
              && (nextPriorityLevel s <=? AnimationPriority)) eqn:Hg;
    try (inversion Hrun; subst; right; exact Hg); try discriminate.
  unfold bind at 1 in Hrun.
  destruct (performNextUnit fuel u s) as [[[]| |] s2]; try discriminate.
  eapply IH; eauto.
Qed.

(** X13.  When the animation flush returns, no work of animation priority
    or above is in hand: [nextUnitOfWork] is [null], or [nextPriorityLevel]
    is [NoWork] or less urgent than [AnimationPriority]; and a unit of work
    left at a less urgent priority has a deferred callback pending. *)
Theorem performAnimationWorkUnsafe_hands_over_to_deferred fuel s s' :
  performAnimationWorkUnsafe fuel s = (Ok tt, s') ->
  (nextUnitOfWork s' = None \/ nextPriorityLevel s' = NoWork \/
   AnimationPriority < nextPriorityLevel s') /\
  (nextUnitOfWork s' <> None -> AnimationPriority < nextPriorityLevel s' ->
   isDeferredCallbackScheduled s' = true).
Proof.
  intros Hrun. unfold performAnimationWorkUnsafe in Hrun.
  unfold bind at 1 in Hrun.
  destruct (findNextUnitOfWork fuel s) as [[found| |] s1]; try discriminate.
  unfold bind at 1, modify at 1 in Hrun. unfold bind at 1 in Hrun.
  destruct (animationLoop fuel fuel (set_nextUnitOfWork found s1))
    as [[[]| |] s2] eqn:Hloop; try discriminate.
  apply animationLoop_exit in Hloop.
  unfold bind, gets in Hrun.
  assert (Hguard : forall s0 : State Host,
            negb (nextPriorityLevel s0 =? NoWork)
            && (nextPriorityLevel s0 <=? AnimationPriority) = false ->
            nextPriorityLevel s0 = NoWork \/
            AnimationPriority < nextPriorityLevel s0).
  { intros s0 H. apply andb_false_iff in H. destruct H as [H|H].
    - left. apply negb_false_iff in H. apply Z.eqb_eq in H. exact H.
    - right. apply Z.leb_gt in H. exact H. }
  destruct (nextUnitOfWork s2) as [u|] eqn:Hu.
  - destruct Hloop as [Hloop|Hloop]; [discriminate|].
    destruct (nextPriorityLevel s2 >? AnimationPriority) eqn:Hgt.
    + destruct (requestDeferredCallback_sets s2) as (_ & Hflag & Hw & Hp & _).
      rewrite Hrun in Hflag, Hw, Hp. simpl in Hflag, Hw, Hp.
      split; [right; rewrite Hp; apply Hguard; exact Hloop|].
      intros _ _. exact Hflag.
    + inversion Hrun; subst. split; [right; apply Hguard; exact Hloop|].
      intros _ Hlt. rewrite Z.gtb_ltb in Hgt. apply Z.ltb_ge in Hgt. lia.
  - inversion Hrun; subst. split; [left; exact Hu|].
    intros H. congruence.
Qed.

Lemma synchronousLoop_exit fuel : forall budget s s',
  synchronousLoop budget fuel s = (Ok tt, s') ->
  nextUnitOfWork s' = None \/
  (nextPriorityLevel s' =? SynchronousPriority) = false.
Proof.
  induction budget as [|budget IH]; intros s s' Hrun;
    cbn [synchronousLoop] in Hrun; unfold bind at 1, gets at 1 in Hrun;
    unfold bind at 1, gets at 1 in Hrun;
    destruct (nextUnitOfWork s) as [u|] eqn:Hu;
    try (inversion Hrun; subst; left; exact Hu);
    destruct (nextPriorityLevel s =? SynchronousPriority) eqn:Hg;
    try (inversion Hrun; subst; right; exact Hg); try discriminate.
  unfold bind at 1 in Hrun.
  destruct (performNextUnit fuel u s) as [[[]| |] s2]; try discriminate.
  eapply IH; eauto.
Qed.

(** X14.  When the synchronous flush returns, no synchronous work is in
    hand: [nextUnitOfWork] is [null] or [nextPriorityLevel] is not
    [SynchronousPriority]; and a unit of work left over has a callback
    pending, the deferred one when its priority is less urgent than
    [AnimationPriority] and the animation one otherwise. *)
Theorem performSynchronousWorkUnsafe_hands_over_the_rest fuel s s' :
  performSynchronousWorkUnsafe fuel s = (Ok tt, s') ->
  (nextUnitOfWork s' = None \/ nextPriorityLevel s' <> SynchronousPriority) /\
  (nextUnitOfWork s' <> None ->
   if nextPriorityLevel s' >? AnimationPriority
   then isDeferredCallbackScheduled s' = true
   else isAnimationCallbackScheduled s' = true).
Proof.
  intros Hrun. unfold performSynchronousWorkUnsafe in Hrun.
  unfold bind at 1 in Hrun.
  destruct (findNextUnitOfWork fuel s) as [[found| |] s1]; try discriminate.
  unfold bind at 1, modify at 1 in Hrun. unfold bind at 1 in Hrun.
  destruct (synchronousLoop fuel fuel (set_nextUnitOfWork found s1))
    as [[[]| |] s2] eqn:Hloop; try discriminate.
  apply synchronousLoop_exit in Hloop.
  unfold bind, gets in Hrun.
  destruct (nextUnitOfWork s2) as [u|] eqn:Hu.
  - destruct Hloop as [Hloop|Hloop]; [discriminate|].
    apply Z.eqb_neq in Hloop.
    destruct (nextPriorityLevel s2 >? AnimationPriority) eqn:Hgt.
    + destruct (requestDeferredCallback_sets s2) as (_ & Hflag & Hw & Hp & _).
      rewrite Hrun in Hflag, Hw, Hp. simpl in Hflag, Hw, Hp.
      rewrite Hp, Hgt. split; [right; exact Hloop|]. intros _. exact Hflag.
    + destruct (requestAnimationCallback_sets s2) as (_ & Hflag & Hw & Hp).
      rewrite Hrun in Hflag, Hw, Hp. simpl in Hflag, Hw, Hp.
      rewrite Hp, Hgt. split; [right; exact Hloop|]. intros _. exact Hflag.
  - inversion Hrun; subst. split; [left; exact Hu|].
    intros H. congruence.
Qed.

(** X16.  A flush with no root in the registry does nothing: the animation,
    the synchronous and (with no unit of work in hand) the deferred flush
    return normally without a call to the reconciler or to the host, leaving
    [nextUnitOfWork] at [null] and [nextPriorityLevel] at [NoWork]; the
    first and the last clear the flag of their callback, and the synchronous
    one ends with [shouldBatchUpdates] as it was. *)
Theorem flush_of_an_empty_registry fuel d s :
  SynchronousPriority < AnimationPriority < LowPriority ->
  nextScheduledRoot s = None ->
  performAnimationWork fuel s =
    (Ok tt,
     set_nextUnitOfWork None
       (set_nextPriorityLevel NoWork
          (set_isAnimationCallbackScheduled false s))) /\
  performSynchronousWork fuel s =
    (Ok tt,
     set_shouldBatchUpdates (shouldBatchUpdates s)
       (set_nextUnitOfWork None
          (set_nextPriorityLevel NoWork (set_shouldBatchUpdates true s)))) /\
  (nextUnitOfWork s = None ->
   performDeferredWork fuel (Some d) s =
     (Ok tt,
      set_nextUnitOfWork None
        (set_nextPriorityLevel NoWork
           (set_isDeferredCallbackScheduled false s)))).
Proof.
  intros [Hsa Hal] Hn.
  assert (Has : (AnimationPriority =? SynchronousPriority) = false)
    by (apply Z.eqb_neq; lia).
  assert (Haa : (AnimationPriority >? AnimationPriority) = false)
    by (rewrite Z.gtb_ltb; apply Z.ltb_ge; lia).
  assert (Hls : (LowPriority =? SynchronousPriority) = false)
    by (apply Z.eqb_neq; lia).
  assert (Hla : (LowPriority >? AnimationPriority) = true)
    by (rewrite Z.gtb_ltb; apply Z.ltb_lt; lia).
  split; [|split].
  - unfold performAnimationWork, performAndHandleErrors, performWorkUnsafe,
      try_catch, performAnimationWorkUnsafe.
    rewrite Has, Haa. unfold bind at 1, modify at 1. unfold bind at 1.
    rewrite findNextUnitOfWork_none by exact Hn.
    unfold bind at 1, modify at 1. unfold bind at 1.
    destruct fuel; reflexivity.
  - unfold performSynchronousWork, performAndHandleErrors, performWorkUnsafe,
      try_catch, try_finally, performSynchronousWorkUnsafe.
    rewrite Z.eqb_refl. unfold bind at 1, gets at 1.
    unfold bind at 1, modify at 1. unfold bind at 1.
    rewrite findNextUnitOfWork_none by exact Hn.
    unfold bind at 1, modify at 1. unfold bind at 1.
    destruct fuel; reflexivity.
  - intros Hw.
    unfold performDeferredWork, performAndHandleErrors, performWorkUnsafe,
      try_catch, performDeferredWorkUnsafe.
    rewrite Hls, Hla. unfold bind at 1, modify at 1.
    unfold bind at 1, gets at 1. state_simpl. rewrite Hw.
    unfold bind at 1. unfold bind at 1.
    rewrite findNextUnitOfWork_none by exact Hn.
    unfold modify at 1. destruct fuel; reflexivity.
Qed.

(** X17.  The deferred flush called without a deadline throws "No deadline"
    inside its [try] block.  With no unit of work in hand the error reaches
    the caller; with one in hand the error is trapped as if that unit had
    failed, and goes to [handleErrors] with the boundary of that unit.  In
    both cases [nextUnitOfWork] is reset and the flag of the deferred
    callback is cleared. *)
Theorem performDeferredWork_without_deadline fuel s :
  SynchronousPriority < AnimationPriority < LowPriority ->
  performDeferredWork fuel None s =
    let s1 :=
      set_nextUnitOfWork None (set_isDeferredCallbackScheduled false s) in
    match nextUnitOfWork s with
    | None => (Threw (JsError "No deadline"), s1)
    | Some failed =>
      handleErrors fuel
        [trapError failed (JsError "No deadline") (fibers s)] s1
    end.
Proof.
  intros [Hsa Hal].
  assert (Hls : (LowPriority =? SynchronousPriority) = false)
    by (apply Z.eqb_neq; lia).
  assert (Hla : (LowPriority >? AnimationPriority) = true)
    by (rewrite Z.gtb_ltb; apply Z.ltb_lt; lia).
  unfold performDeferredWork, performAndHandleErrors, performWorkUnsafe,
    try_catch, handleWorkError, trapErrorM.
  rewrite Hls, Hla. unfold bind, modify, gets, throw. state_simpl.
  destruct (nextUnitOfWork s); reflexivity.
Qed.

End BatchesAndLoops.

(** ** The commit of an effect list *)

Section Commit.
Context {Host : Type} {K : Constants} {E : Env Host}.
Implicit Type s : State Host.

Lemma chain_functional next l1 : forall l2 first,
  chain next first l1 -> chain next first l2 -> l1 = l2.
Proof.
  induction l1 as [|x l1 IH]; intros [|y l2] first H1 H2; simpl in *;
    try reflexivity; try (destruct H2; congruence);
    try (destruct H1; congruence).
  destruct H1 as [E1 H1], H2 as [E2 H2].
  assert (x = y) by congruence. subst y. f_equal. eapply IH; eauto.
Qed.

Lemma chain_suffix next a : forall m first,
  chain next first (a ++ m) -> exists first', chain next first' m.
Proof.
  induction a as [|x a IH]; intros m first H; simpl in H.
  - exists first. exact H.
  - destruct H as [_ H]. eapply IH; eauto.
Qed.

Lemma chain_NoDup next l : forall first, chain next first l -> NoDup l.
Proof.
  induction l as [|x l IH]; intros first H; [constructor|].
  simpl in H. destruct H as [_ H]. constructor; [|eapply IH; eauto].
  intros Hin. apply in_split in Hin. destruct Hin as (a & b & Hl).
  pose proof H as H'. rewrite Hl in H'.
  apply chain_suffix in H'. destruct H' as (first' & H').
  simpl in H'. destruct H' as [_ H'].
  pose proof (chain_functional next _ _ _ H H') as Heq.
  apply (f_equal (@List.length _)) in Heq.
  rewrite Hl, length_app in Heq. simpl in Heq. lia.
Qed.

Lemma chain_agree next next' l : forall first,
  (forall x, In x l -> next' x = next x) ->
  chain next first l -> chain next' first l.
Proof.
  induction l as [|x l IH]; intros first H Hc; simpl in *; [exact Hc|].
  destruct Hc as [-> Hc]. split; [reflexivity|].
  rewrite H by (left; reflexivity). apply IH; auto.
Qed.

Lemma chain_ext_fibers (fs fs' : FiberId -> Fiber) l first :
  (forall g, nextEffect (fs' g) = nextEffect (fs g)) ->
  chain (fun x => nextEffect (fs x)) first l ->
  chain (fun x => nextEffect (fs' x)) first l.
Proof. intros H. apply chain_agree. intros x _. apply H. Qed.

Lemma set_effectTag_same f : set_effectTag (effectTag f) f = f.
Proof. destruct f; reflexivity. Qed.

Lemma afterMutation_idempotent t :
  afterMutation (afterMutation t) = afterMutation t.
Proof.
  unfold afterMutation.
  destruct ((t =? Placement) || (t =? PlacementAndCallback)) eqn:H1;
    [reflexivity|].
  destruct ((t =? PlacementAndUpdate) || (t =? PlacementAndUpdateAndCallback))
    eqn:H2; [reflexivity|].
  rewrite H1, H2. reflexivity.
Qed.

(** The [switch] of the first pass, when nothing is trapped. *)
Lemma commitMutation_quiet ign x acc s :
  quietCommit ->
  exists s1,
    commitMutation ign x acc s = (Ok acc, s1) /\
    forall g, fibers s1 g =
      if Pos.eqb g x
      then set_effectTag (afterMutation (effectTag (fibers s x))) (fibers s x)
      else fibers s g.
Proof.
  intros (Hins & Hdel & Hwork & _).
  unfold commitMutation, afterMutation, bind, gets.
  set (t := effectTag (fibers s x)).
  destruct ((t =? Placement) || (t =? PlacementAndCallback)).
  - destruct (Hins x s) as [Ho Hf].
    destruct (commitInsertion x s) as [o sa]. simpl in Ho, Hf. subst o.
    unfold modify, ret. eexists. split; [reflexivity|].
    intros g. state_simpl. unfold upd. rewrite Hf. reflexivity.
  - destruct ((t =? PlacementAndUpdate)
              || (t =? PlacementAndUpdateAndCallback)).
    + destruct (Hins x s) as [Ho Hf].
      destruct (commitInsertion x s) as [o sa]. simpl in Ho, Hf. subst o.
      unfold modify, ret.
      match goal with
      | |- context [commitWork ?c x ?s0] =>
        destruct (Hwork c x s0) as [Ho' Hf'];
        destruct (commitWork c x s0) as [o' sb]
      end.
      simpl in Ho', Hf'. subst o'.
      eexists. split; [reflexivity|].
      intros g. rewrite Hf'. state_simpl. unfold upd. rewrite Hf.
      reflexivity.
    + assert (Hsame : forall s1, fibers s1 = fibers s ->
                forall g, fibers s1 g =
                  if Pos.eqb g x then set_effectTag t (fibers s x)
                  else fibers s g).
      { intros s1 H1 g. rewrite H1. subst t. rewrite set_effectTag_same.
        destruct (Pos.eqb_spec g x) as [->|]; reflexivity. }
      destruct ((t =? Update) || (t =? UpdateAndCallback)).
      * destruct (Hwork (alternate (fibers s x)) x s) as [Ho Hf].
        destruct (commitWork (alternate (fibers s x)) x s) as [o sa].
        simpl in Ho, Hf. subst o. unfold ret.
        eexists. split; [reflexivity|]. apply Hsame. exact Hf.
      * destruct ((t =? Deletion) || (t =? DeletionAndCallback)).
        -- destruct (Hdel x s) as [Ho Hf].
           destruct (commitDeletion x s) as [o sa].
           simpl in Ho, Hf. subst o. unfold ret.
           eexists. split; [reflexivity|]. apply Hsame. exact Hf.
        -- unfold ret. eexists. split; [reflexivity|]. apply Hsame.
           reflexivity.
Qed.

Lemma commitMutations_quiet ign acc l : forall fuel first s,
  quietCommit ->
  effectWalk (fibers s) first l -> (List.length l <= fuel)%nat ->
  exists s1,
    commitMutations fuel ign first acc s = (Ok acc, s1) /\
    forall g, fibers s1 g =
      if in_dec Pos.eq_dec g l
      then set_effectTag (afterMutation (effectTag (fibers s g))) (fibers s g)
      else fibers s g.
Proof.
  unfold effectWalk.
  induction l as [|x l IH]; intros fuel first s Hq Hc Hlen; simpl in Hc.
  - subst first. exists s. split; [destruct fuel; reflexivity|].
    intros g. reflexivity.
  - destruct Hc as [-> Hc]. destruct fuel as [|fuel]; [simpl in Hlen; lia|].
    cbn [commitMutations]. unfold bind at 1.
    destruct (commitMutation_quiet ign x acc s Hq) as (s1 & Hstep & Hf1).
    rewrite Hstep. unfold bind at 1, gets at 1.
    assert (Hnext : forall g, nextEffect (fibers s1 g) = nextEffect (fibers s g)).
    { intros g. rewrite Hf1.
      destruct (Pos.eqb_spec g x) as [->|]; reflexivity. }
    rewrite Hnext.
    destruct (IH fuel (nextEffect (fibers s x)) s1 Hq) as (s2 & Hrun & Hf2).
    + eapply chain_ext_fibers; eauto.
    + simpl in Hlen. lia.
    + exists s2. split; [exact Hrun|].
      intros g. rewrite Hf2, !Hf1.
      destruct (in_dec Pos.eq_dec g l) as [Hin|Hnin];
        destruct (in_dec Pos.eq_dec g (x :: l)) as [Hin'|Hnin'];
        simpl in *; try tauto.
      * destruct (Pos.eqb_spec g x) as [->|]; [|reflexivity].
        cbn [effectTag set_effectTag]. rewrite afterMutation_idempotent.
        reflexivity.
      * destruct (Pos.eqb_spec g x) as [->|]; [reflexivity|].
        exfalso. intuition congruence.
      * destruct (Pos.eqb_spec g x) as [->|]; [|reflexivity].
        exfalso. tauto.
Qed.

Lemma commitLifeCyclesPass_quiet acc l : forall fuel first s,
  quietCommit ->
  effectWalk (fibers s) first l -> (List.length l <= fuel)%nat ->
  exists s1,
    commitLifeCyclesPass fuel first acc s = (Ok acc, s1) /\
    forall g, fibers s1 g =
      if in_dec Pos.eq_dec g l then set_nextEffect None (fibers s g)
      else fibers s g.
Proof.
  unfold effectWalk.
  induction l as [|x l IH]; intros fuel first s Hq Hc Hlen.
  - simpl in Hc. subst first. exists s. split; [destruct fuel; reflexivity|].
    intros g. reflexivity.
  - pose proof (chain_NoDup _ _ _ Hc) as Hd.
    inversion Hd as [|? ? Hx Hd']; subst.
    simpl in Hc. destruct Hc as [-> Hc].
    destruct fuel as [|fuel]; [simpl in Hlen; lia|].
    cbn [commitLifeCyclesPass]. unfold bind at 1, gets at 1.
    unfold bind at 1.
    assert (Hcall : exists sa,
      (if negb (Z.land (effectTag (fibers s x)) (Z.lor Update Callback) =? 0)
       then
         cur <- gets (fun s => alternate (fibers s x)) ;;
         trappedError <- commitLifeCycles cur x ;;
         match trappedError with
         | Some e => ret (pushOne acc e)
         | None => ret acc
         end
       else ret acc) s = (Ok acc, sa) /\ fibers sa = fibers s).
    { destruct (negb _); [|exists s; split; reflexivity].
      unfold bind, gets.
      destruct Hq as (_ & _ & _ & Hlife).
      destruct (Hlife (alternate (fibers s x)) x s) as [Ho Hf].
      destruct (commitLifeCycles (alternate (fibers s x)) x s) as [o sa].
      simpl in Ho, Hf. subst o. exists sa. split; [reflexivity|exact Hf]. }
    destruct Hcall as (sa & Hcall & Hfa). rewrite Hcall.
    unfold bind at 1, gets at 1. unfold bind at 1, modify at 1.
    rewrite Hfa.
    destruct (IH fuel (nextEffect (fibers s x))
                (updFiber x (set_nextEffect None) sa) Hq)
      as (s2 & Hrun & Hf2).
    + eapply chain_agree; [|exact Hc].
      intros y Hy. state_simpl. rewrite Hfa. unfold upd.
      destruct (Pos.eqb_spec y x) as [->|]; [contradiction|reflexivity].
    + simpl in Hlen. lia.
    + exists s2. split; [exact Hrun|].
      intros g. rewrite Hf2. state_simpl. rewrite Hfa. unfold upd.
      destruct (in_dec Pos.eq_dec g l) as [Hin|Hnin];
        destruct (in_dec Pos.eq_dec g (x :: l)) as [Hin'|Hnin'];
        simpl in *; try tauto.
      * destruct (Pos.eqb_spec g x) as [->|]; reflexivity.
      * destruct (Pos.eqb_spec g x) as [->|]; [reflexivity|].
        exfalso. intuition congruence.
      * destruct (Pos.eqb_spec g x) as [->|]; [|reflexivity].
        exfalso. tauto.
Qed.

(** X15.  With commit functions that trap no error and leave the fibers
    alone, [commitAllWork] returns without calling [handleErrors], and of
    the fibers it writes only to those of the effect list: each of them
    ends with its [nextEffect] link cleared and with the effect tag that the
    first pass leaves ([NoEffect] for a placement with or without callback,
    [Update] for a placement with update, the tag it had otherwise).  The
    effect list is walked from [firstEffect] along [nextEffect] until the
    link is [null]. *)
Theorem commitAllWork_clears_the_effect_list he fuel fw ign s l :
  quietCommit ->
  effectWalk (fibers s) (firstEffect (fibers s fw)) l ->
  (List.length l <= fuel)%nat ->
  exists s',
    commitAllWork he fuel fw ign s = (Ok tt, s') /\
    (forall x, In x l ->
       fibers s' x =
         set_nextEffect None
           (set_effectTag (afterMutation (effectTag (fibers s x)))
              (fibers s x))) /\
    (forall g, ~ In g l -> fibers s' g = fibers s g).
Proof.
  intros Hq Hwalk Hlen. unfold commitAllWork.
  unfold bind at 1, gets at 1. unfold bind at 1.
  destruct (commitMutations_quiet ign None l fuel _ s Hq Hwalk Hlen)
    as (s1 & Hrun1 & Hf1).
  rewrite Hrun1. unfold bind at 1, gets at 1. unfold bind at 1.
  assert (Hwalk1 : effectWalk (fibers s1) (firstEffect (fibers s1 fw)) l).
  { assert (Hfirst : firstEffect (fibers s1 fw) = firstEffect (fibers s fw)).
    { rewrite Hf1. destruct (in_dec Pos.eq_dec fw l); reflexivity. }
    rewrite Hfirst. eapply chain_ext_fibers; [|exact Hwalk].
    intros g. rewrite Hf1. destruct (in_dec Pos.eq_dec g l); reflexivity. }
  destruct (commitLifeCyclesPass_quiet None l fuel _ s1 Hq Hwalk1 Hlen)
    as (s2 & Hrun2 & Hf2).
  rewrite Hrun2. unfold bind at 1, gets at 1. unfold bind at 1.
  assert (Hroot : exists s3,
    (if negb (effectTag (fibers s2 fw) =? NoEffect) then
       cur <- gets (fun s => alternate (fibers s fw)) ;;
       commitWork cur fw ;;
       trappedError <- commitLifeCycles cur fw ;;
       match trappedError with
       | Some e => ret (pushOne None e)
       | None => ret None
       end
     else ret None) s2 = (Ok None, s3) /\ fibers s3 = fibers s2).
  { destruct (negb _); [|exists s2; split; reflexivity].
    unfold bind at 1, gets at 1. unfold bind at 1.
    destruct Hq as (_ & _ & Hwork & Hlife).
    destruct (Hwork (alternate (fibers s2 fw)) fw s2) as [Ho Hf].
    destruct (commitWork (alternate (fibers s2 fw)) fw s2) as [o sa].
    simpl in Ho, Hf. subst o. unfold bind at 1.
    destruct (Hlife (alternate (fibers s2 fw)) fw sa) as [Ho' Hf'].
    destruct (commitLifeCycles (alternate (fibers s2 fw)) fw sa) as [o' sb].
    simpl in Ho', Hf'. subst o'. exists sb. split; [reflexivity|congruence]. }
  destruct Hroot as (s3 & Hroot & Hf3). rewrite Hroot.
  exists s3. split; [reflexivity|]. split.
  - intros x Hin. rewrite Hf3, Hf2, Hf1.
    destruct (in_dec Pos.eq_dec x l); [reflexivity|contradiction].
  - intros g Hnin. rewrite Hf3, Hf2, Hf1.
    destruct (in_dec Pos.eq_dec g l); [contradiction|reflexivity].
Qed.

End Commit.

(** * The scheduler on the example states *)

Section Examples.
#[local] Existing Instance demoConstants.
#[local] Existing Instance demoEnv.

(** C2, on the code.  Committing an effect list whose one fiber has the
    tag [PlacementAndCallback] inserts the fiber and calls no life-cycle:
    the first pass has set its tag to [NoEffect], clearing the callback bit
    with the placement bit. *)
Example commitAllWork_drops_callback_of_placement :
  effectTag (fibers placedWithCallback 2) = PlacementAndCallback /\
  fst (commitAllWork (handleErrors 5) 5 1 false placedWithCallback) = Ok tt /\
  host (snd (commitAllWork (handleErrors 5) 5 1 false placedWithCallback)) =
    [Inserted 2] /\
  effectTag
    (fibers (snd (commitAllWork (handleErrors 5) 5 1 false placedWithCallback))
       2) = NoEffect.
Proof. vm_compute. repeat split; reflexivity. Qed.

(** C1, counterexample.  With a low-priority unit of work under way,
    [scheduleAnimationWork] at the animation priority leaves
    [nextUnitOfWork] set, and so does [scheduleSynchronousWork] for a root
    that is already scheduled. *)
Example scheduleAnimationWork_keeps_cursor :
  AnimationPriority <= nextPriorityLevel midRender /\
  nextUnitOfWork (snd (scheduleAnimationWork 1 AnimationPriority midRender)) =
    Some 9%positive /\
  SynchronousPriority <= nextPriorityLevel midRender /\
  nextUnitOfWork
    (snd (scheduleSynchronousWork 5 1
            (updRoot 1 (FiberRoot.set_isScheduled true) midRender))) =
    Some 9%positive.
Proof. vm_compute. repeat split; discriminate. Qed.

(** C3, witness: of the roots [1; 2; 3; 4] the first is detached and the
    third, the first of the two at the animation priority, is picked. *)
Lemma findNextUnitOfWork_picks_most_urgent_root_witness :
  registry fourRoots [1; 2; 3; 4]%positive /\
  fst (findNextUnitOfWork 4 fourRoots) = Ok (Some 27%positive) /\
  nextPriorityLevel (snd (findNextUnitOfWork 4 fourRoots)) =
    AnimationPriority /\
  FiberRoot.isScheduled (roots (snd (findNextUnitOfWork 4 fourRoots)) 1) =
    false /\
  nextScheduledRoot (snd (findNextUnitOfWork 4 fourRoots)) = Some 2%positive.
Proof.
  assert (Hreg : registry fourRoots [1; 2; 3; 4]%positive).
  { split; [reflexivity|]. split; [reflexivity|]. split.
    - simpl. repeat split; reflexivity.
    - repeat constructor; simpl; intuition discriminate. }
  split; [exact Hreg|].
  destruct (findNextUnitOfWork_picks_most_urgent_root
              fourRoots [1; 2; 3; 4]%positive 4 Hreg (le_n 4))
    as (result & s' & Hrun & Hgone & _ & (Hnext & _) & Hpick).
  rewrite Hrun. cbn [fst snd].
  change (dropEmpty fourRoots [1; 2; 3; 4]%positive)
    with [2; 3; 4]%positive in *.
  destruct Hpick as (r & Hmost & _ & Hlevel & Hres & _).
  assert (Hr : r = 3%positive).
  { destruct Hmost as (before & after & Hl & Hr & Hb & Ha).
    destruct before as [|x1 [|x2 [|x3 before]]]; inversion Hl; subst.
    - exfalso. destruct (Ha 3%positive) as [H|H];
        [simpl; tauto| |]; vm_compute in H;
        first [discriminate|apply H; reflexivity].
    - reflexivity.
    - exfalso. destruct (Hb 3%positive) as [H|H];
        [simpl; tauto| |]; vm_compute in H;
        first [discriminate|apply H; reflexivity].
    - destruct before; discriminate. }
  subst r. split; [exact Hres|]. split; [exact Hlevel|].
  split; [apply Hgone; left; reflexivity|exact Hnext].
Defined.

(** C4, witness: the family tree, completed from B. *)
Lemma completeUnitOfWork_bubbles_effects_witness :
  quietCompleteWork /\
  exists s1 s2,
    completeUnitOfWork (handleErrors 5) 1 3 false family =
      (Ok (Some 4%positive), s1) /\
    completeUnitOfWork (handleErrors 5) 4 4 false s1 =
      (Ok (Some 5%positive), s2) /\
    effectList (fibers s2) 2 [3; 4]%positive /\
    effectList (fibers s2) 1 [3; 4]%positive.
Proof.
  assert (Hquiet : quietCompleteWork (E := demoEnv)).
  { intros cur f s. split; [reflexivity|]. split; intros g; repeat split. }
  split; [exact Hquiet|].
  destruct (proj1 (proj2 (completeUnitOfWork_bubbles_effects
                     (handleErrors 5) false))
              0%nat 2 3 4 1 5 family Hquiet)%positive
    as (s1 & s2 & H1 & H2 & Ha & _ & Hp);
    try reflexivity; try (repeat split; reflexivity).
  - repeat constructor; simpl; intuition discriminate.
  - exists s1, s2. auto.
Defined.






(** C8, witness: a function that throws under the animation priority. *)
Lemma performWithPriority_restores_context_witness :
  performWithPriority AnimationPriority (throw renderError) oneRoot =
    (Threw renderError, set_priorityContext LowPriority
                          (set_priorityContext AnimationPriority oneRoot)).
Proof.
  apply (proj1 (performWithPriority_restores_context unit AnimationPriority
                  (throw renderError) (ret tt) oneRoot)).
  - reflexivity.
  - discriminate.
Defined.

(** C9, witness: the collaborators of the example reconciler leave the
    batching flag alone; a synchronous flush that throws ends with the flag
    as it was; and with the flag set [scheduleSynchronousWork] returns after
    enqueueing the root, no unit of work having begun. *)
Lemma performSynchronousWork_batches_nested_updates_witness :
  collaborators_respect (E := demoEnv) staysBatched /\
  fst (performSynchronousWork 9 failingRender) = Threw renderError /\
  shouldBatchUpdates (snd (performSynchronousWork 9 failingRender)) = false /\
  host (snd (scheduleSynchronousWork 9 1
               (set_shouldBatchUpdates true oneRoot))) = [].
Proof.
  destruct (performSynchronousWork_batches_nested_updates 9 failingRender)
    as (Hrestore & _ & _).
  destruct (performSynchronousWork_batches_nested_updates 9
              (set_shouldBatchUpdates true oneRoot)) as (_ & _ & Henqueue).
  split; [|split; [|split]].
  - repeat split; intros; intros s Hb; try exact Hb.
    simpl. unfold demoBeginWork, bind, gets, logEvent, modify, throw, ret.
    simpl. destruct (_ =? failingTag); exact Hb.
  - erewrite Hrestore;
      [|apply surjective_pairing|vm_compute; discriminate].
    vm_compute. reflexivity.
  - erewrite Hrestore;
      [|apply surjective_pairing|vm_compute; discriminate].
    vm_compute. reflexivity.
  - rewrite (Henqueue eq_refl 1%positive). reflexivity.
Defined.

(** C10, witness: the render of fiber [5] fails while it is the next unit
    of work; the error has no boundary and surfaces. *)
Lemma performAndHandleErrors_traps_failed_unit_witness :
  fst (performAndHandleErrors 9 SynchronousPriority None failingRender) =
    Threw renderError /\
  nextUnitOfWork
    (snd (performAndHandleErrors 9 SynchronousPriority None failingRender)) =
    None.
Proof.
  assert (Hthrow :
    performWorkUnsafe 9 SynchronousPriority None failingRender =
      (Threw renderError,
       snd (performWorkUnsafe 9 SynchronousPriority None failingRender))).
  { rewrite (surjective_pairing
               (performWorkUnsafe 9 SynchronousPriority None failingRender))
      at 1.
    apply (f_equal2 pair); [vm_compute; reflexivity|reflexivity]. }
  rewrite (performAndHandleErrors_traps_failed_unit 9 SynchronousPriority
             None failingRender renderError _ Hthrow).
  vm_compute. split; reflexivity.
Defined.

End Examples.

(** * The further properties on the example states *)

Section MoreExamples.
#[local] Existing Instance demoConstants.
#[local] Existing Instance demoEnv.

(** On the four roots of the example: they are the registry, they are the
    roots flagged as scheduled, and no other root has a link. *)
Lemma fourRoots_registryInv : registryInv fourRoots [1; 2; 3; 4]%positive.
Proof.
  split; [|split].
  - split; [reflexivity|]. split; [reflexivity|]. split.
    + simpl. repeat split; reflexivity.
    + repeat constructor; simpl; intuition discriminate.
  - intros r. simpl.
    destruct r as [[[r|r|]|[r|r|]|]|[[r|r|]|[r|r|]|]|]; simpl;
      split; intros H; try discriminate; try reflexivity;
      try (intuition discriminate); tauto.
  - intros r Hr. simpl in Hr.
    destruct r as [[[r|r|]|[r|r|]|]|[[r|r|]|[r|r|]|]|]; simpl;
      try reflexivity; exfalso; tauto.
Qed.

(** X1, witness: A of the family tree gets the low priority of its
    children B and C. *)
Lemma resetWorkPriority_bubbles_most_urgent_child_witness :
  siblingChain (fibers family) (progressedChild (fibers family 2))
    [3; 4]%positive /\
  pendingWorkPriority (fibers (snd (resetWorkPriority 2 2 family)) 2) =
    LowPriority.
Proof.
  assert (Hc : siblingChain (fibers family)
                 (progressedChild (fibers family 2)) [3; 4]%positive)
    by (repeat split; reflexivity).
  split; [exact Hc|].
  destruct (resetWorkPriority_bubbles_most_urgent_child
              2 2%positive family [3; 4]%positive Hc (le_n 2))
    as (v & Hrun & Hnone & Hsome).
  rewrite Hrun. cbn [snd]. state_simpl. rewrite upd_same. simpl.
  assert (Hv : v <> NoWork).
  { intros Hv. pose proof (proj1 Hnone Hv 3%positive (or_introl eq_refl))
      as Hall.
    vm_compute in Hall. discriminate Hall. }
  destruct (Hsome Hv) as ((c & [<-|[<-|[]]] & Hc') & _);
    rewrite <- Hc'; reflexivity.
Defined.

(** X2, witness: from B of the family tree the walk reaches the container
    P and returns its root, leaving P at the requested priority. *)
Lemma scheduleErrorBoundaryWork_marks_the_path_witness :
  returnPath (fibers family) 3 [2; 1]%positive /\
  exists s',
    scheduleErrorBoundaryWork 5 3 SynchronousPriority family =
      (Ok 1%positive, s') /\
    pendingWorkPriority (fibers s' 1) = SynchronousPriority.
Proof.
  assert (Hp : returnPath (fibers family) 3 [2; 1]%positive)
    by (repeat split; reflexivity).
  split; [exact Hp|].
  destruct (scheduleErrorBoundaryWork_marks_the_path
              5 3%positive SynchronousPriority family [2; 1]%positive Hp)
    as (s' & Hrun & Hfs & _); [simpl; lia|].
  exists s'. split; [exact Hrun|]. rewrite Hfs. reflexivity.
Defined.

(** X3, witness: an update of B of the family tree marks its path and
    schedules the root of P at the low priority. *)
Lemma scheduleUpdate_walks_to_the_root_witness :
  returnPath (fibers family) 3 [2; 1]%positive /\
  exists s1,
    scheduleUpdate 5 3 family =
      scheduleWorkAtPriority 5 (Some 1%positive) LowPriority s1 /\
    pendingWorkPriority (fibers s1 1) = LowPriority.
Proof.
  assert (Hp : returnPath (fibers family) 3 [2; 1]%positive)
    by (repeat split; reflexivity).
  split; [exact Hp|].
  destruct (scheduleUpdate_walks_to_the_root
              5 3%positive family [2; 1]%positive Hp)
    as (s1 & Hfs & _ & Hrun & _); [simpl; lia|].
  exists s1. split; [exact Hrun|]. rewrite Hfs. reflexivity.
Defined.

(** X4, witness: a fifth root goes to the end of the registry of four. *)
Lemma scheduling_enqueues_a_root_once_witness :
  registryInv fourRoots [1; 2; 3; 4]%positive /\
  registryInv (snd (scheduleDeferredWork 5 LowPriority fourRoots))
    [1; 2; 3; 4; 5]%positive /\
  registryInv (snd (scheduleAnimationWork 3 AnimationPriority fourRoots))
    [1; 2; 3; 4]%positive.
Proof.
  split; [exact fourRoots_registryInv|]. split.
  - exact (proj1 (scheduling_enqueues_a_root_once
                    0 5%positive LowPriority fourRoots [1; 2; 3; 4]%positive
                    fourRoots_registryInv)).
  - exact (proj1 (proj2 (scheduling_enqueues_a_root_once
                           0 3%positive AnimationPriority fourRoots
                           [1; 2; 3; 4]%positive fourRoots_registryInv))).
Defined.

(** X5, witness: the scan drops the first of the four roots. *)
Lemma findNextUnitOfWork_keeps_the_registry_witness :
  registryInv fourRoots [1; 2; 3; 4]%positive /\
  registryInv (snd (findNextUnitOfWork 4 fourRoots)) [2; 3; 4]%positive.
Proof.
  split; [exact fourRoots_registryInv|].
  exact (findNextUnitOfWork_keeps_the_registry 4 fourRoots
           [1; 2; 3; 4]%positive fourRoots_registryInv (le_n 4)).
Defined.

(** X8, witness: deferred work for the flagged root is not found. *)
Lemma flagged_root_is_not_enqueued_witness :
  FiberRoot.isScheduled (roots flaggedRoot 1) = true /\
  nextScheduledRoot flaggedRoot = None /\
  fst (findNextUnitOfWork 3
         (snd (scheduleDeferredWork 1 LowPriority flaggedRoot))) = Ok None.
Proof.
  split; [reflexivity|]. split; [reflexivity|].
  exact (proj2 (proj1 (proj2 (flagged_root_is_not_enqueued
                                3 1%positive LowPriority flaggedRoot
                                eq_refl eq_refl)))).
Defined.

(** X10, witness: two errors for one boundary update it once. *)
Lemma passErrorsToBoundaries_visits_a_boundary_once_witness :
  exists v' s',
    passErrorsToBoundaries twoForOneBoundary (mkErrorPass JsNull None [])
      oneRoot = (Ok v', s') /\
    affectedBoundaries v' = [7%positive] /\
    NoDup (affectedBoundaries v').
Proof.
  set (run := passErrorsToBoundaries twoForOneBoundary
                (mkErrorPass JsNull None []) oneRoot).
  assert (Hrun : run = (Ok (mkErrorPass JsNull None [7%positive]), snd run)).
  { rewrite (surjective_pairing run) at 1.
    apply (f_equal2 pair); [vm_compute; reflexivity|reflexivity]. }
  exists (mkErrorPass JsNull None [7%positive]), (snd run).
  split; [exact Hrun|]. split; [reflexivity|].
  exact (proj1 (passErrorsToBoundaries_visits_a_boundary_once
                  twoForOneBoundary (mkErrorPass JsNull None []) oneRoot
                  _ _ Hrun (NoDup_nil _))).
Defined.

(** X11, witness: the thrown value [0] is dropped, and the four roots stay
    in the registry. *)
Lemma handleErrors_drops_falsy_errors_witness :
  handleErrors 3 falsyUncaught fourRoots =
    (Ok tt, set_currentOwner None fourRoots).
Proof.
  apply (handleErrors_drops_falsy_errors 1 falsyUncaught fourRoots).
  intros e [<-|[]]. split; reflexivity.
Defined.

(** X13, witness: the animation flush of the four roots works through the
    two animation roots and leaves the low-priority one with a deferred
    callback. *)
Lemma performAnimationWorkUnsafe_hands_over_to_deferred_witness :
  fst (performAnimationWorkUnsafe 9 fourRoots) = Ok tt /\
  nextPriorityLevel (snd (performAnimationWorkUnsafe 9 fourRoots)) =
    LowPriority /\
  isDeferredCallbackScheduled (snd (performAnimationWorkUnsafe 9 fourRoots)) =
    true.
Proof.
  set (run := performAnimationWorkUnsafe 9 fourRoots).
  assert (Hrun : run = (Ok tt, snd run)).
  { rewrite (surjective_pairing run) at 1.
    apply (f_equal2 pair); [vm_compute; reflexivity|reflexivity]. }
  destruct (performAnimationWorkUnsafe_hands_over_to_deferred
              9 fourRoots (snd run) Hrun) as (_ & Hcb).
  split; [vm_compute; reflexivity|]. split; [vm_compute; reflexivity|].
  apply Hcb; vm_compute; [discriminate|reflexivity].
Defined.

(** X14, witness: the synchronous flush of the four roots, none of which
    is synchronous, leaves the work to an animation callback. *)
Lemma performSynchronousWorkUnsafe_hands_over_the_rest_witness :
  fst (performSynchronousWorkUnsafe 9 fourRoots) = Ok tt /\
  isAnimationCallbackScheduled
    (snd (performSynchronousWorkUnsafe 9 fourRoots)) = true.
Proof.
  set (run := performSynchronousWorkUnsafe 9 fourRoots).
  assert (Hrun : run = (Ok tt, snd run)).
  { rewrite (surjective_pairing run) at 1.
    apply (f_equal2 pair); [vm_compute; reflexivity|reflexivity]. }
  destruct (performSynchronousWorkUnsafe_hands_over_the_rest
              9 fourRoots (snd run) Hrun) as (_ & Hcb).
  split; [vm_compute; reflexivity|].
  assert (Hw : nextUnitOfWork (snd run) <> None)
    by (vm_compute; discriminate).
  specialize (Hcb Hw).
  assert (Hp : (nextPriorityLevel (snd run) >? AnimationPriority) = false)
    by (vm_compute; reflexivity).
  rewrite Hp in Hcb. exact Hcb.
Defined.

(** X15, witness: the commit of the placed fiber [2] clears its link and
    its tag. *)
Lemma commitAllWork_clears_the_effect_list_witness :
  quietCommit (E := demoEnv) /\
  effectWalk (fibers placedWithCallback)
    (firstEffect (fibers placedWithCallback 1)) [2%positive] /\
  exists s',
    commitAllWork (handleErrors 5) 5 1 false placedWithCallback =
      (Ok tt, s') /\
    nextEffect (fibers s' 2) = None /\ effectTag (fibers s' 2) = NoEffect.
Proof.
  assert (Hq : quietCommit (E := demoEnv))
    by (repeat split; reflexivity).
  assert (Hw : effectWalk (fibers placedWithCallback)
                 (firstEffect (fibers placedWithCallback 1)) [2%positive])
    by (repeat split; reflexivity).
  split; [exact Hq|]. split; [exact Hw|].
  destruct (commitAllWork_clears_the_effect_list
              (handleErrors 5) 5 1%positive false placedWithCallback
              [2%positive] Hq Hw)
    as (s' & Hrun & Hin & _); [simpl; lia|].
  exists s'. split; [exact Hrun|].
  rewrite (Hin 2%positive (or_introl eq_refl)). split; reflexivity.
Defined.

(** X16, witness: an animation flush with no root scheduled. *)
Lemma flush_of_an_empty_registry_witness :
  SynchronousPriority < AnimationPriority < LowPriority /\
  fst (performAnimationWork 3 oneRoot) = Ok tt /\
  host (snd (performAnimationWork 3 oneRoot)) = [].
Proof.
  assert (Ho : SynchronousPriority < AnimationPriority < LowPriority)
    by (vm_compute; split; reflexivity).
  split; [exact Ho|].
  rewrite (proj1 (flush_of_an_empty_registry 3 (fun h => (0%Q, h)) oneRoot
                    Ho eq_refl)).
  split; reflexivity.
Defined.

(** X17, witness: without a deadline and without work in hand, the error
    reaches the caller. *)
Lemma performDeferredWork_without_deadline_witness :
  SynchronousPriority < AnimationPriority < LowPriority /\
  fst (performDeferredWork 3 None oneRoot) = Threw (JsError "No deadline") /\
  fst (performDeferredWork 3 None midRender) = Threw (JsError "No deadline").
Proof.
  assert (Ho : SynchronousPriority < AnimationPriority < LowPriority)
    by (vm_compute; split; reflexivity).
  split; [exact Ho|].
  rewrite (performDeferredWork_without_deadline 3 oneRoot Ho).
  rewrite (performDeferredWork_without_deadline 3 midRender Ho).
  split; vm_compute; reflexivity.
Defined.

End MoreExamples.
